(** * Purchasing-Power Calculator: the computational core of [App]

    A shallow embedding of the simulated data engine ([pseudoRandom],
    [generateSimulatedCountryData]), of the exchange-rate loader
    ([fetchRates]), of the country-data loader ([fetchCountryData]) and of the
    two memoised computations ([equivalentSalary], [priceLevelData]).

    JavaScript numbers are IEEE-754 binary64 values; they are embedded as the
    primitive floats of the kernel, whose operations are the correctly rounded
    binary64 ones.  32-bit integer arithmetic of the hash is carried out on
    [Z] with the wrap-around written out.  React state, refs and
    [localStorage] are fields of an explicit state record, and every effect
    the claims speak about (network call, generation, persisted write) is
    logged as an event.

    Objects used as maps (the rates, the caches and flags of the state, the
    generated category prices) are finite maps over their own keys: the
    currencies and codes of [SELECTABLE_COUNTRIES] and the ids of
    [CATEGORIES] that index them are taken to be ordinary names such as
    ['EUR'], ['IT'] and ['food'], none of them the name of a member of
    [Object.prototype].  The table of profiles is different: the engine looks
    it up with the code of whatever country it is given and falls back on a
    default, so there the inherited members are embedded as well. *)

From Stdlib Require Import ZArith Floats Lia Bool.
From Stdlib Require Uint63.
From stdpp Require Import gmap strings list fin_maps.

Set Warnings "-inexact-float".

(** ** JavaScript numbers *)

Module JS.

Abbreviation number := float.

Local Open Scope float_scope.

Definition isNaN (x : number) : bool := negb (x =? x).

(** [ToBoolean] on a number: false for [+0], [-0] and [NaN]. *)
Definition truthy (x : number) : bool := negb (isNaN x || (x =? 0)).

(** [ToBoolean] on [number | undefined]. *)
Definition truthy_opt (x : option number) : bool :=
  match x with Some v => truthy v | None => false end.

(** [ToNumber] on [number | undefined], as the arithmetic operators and the
    comparisons apply it: [undefined] becomes [NaN]. *)
Definition toNumber (x : option number) : number :=
  match x with Some v => v | None => nan end.

Definition isFinite (x : number) : bool := (abs x <? infinity).

Definition isNegZero (x : number) : bool :=
  match classify x with NZero => true | _ => false end.

(** [Math.max] and [Math.min] on two arguments. *)
Definition Math_max (a b : number) : number :=
  if isNaN a || isNaN b then nan
  else if a <? b then b
  else if b <? a then a
  else if isNegZero a then b else a.

Definition Math_min (a b : number) : number :=
  if isNaN a || isNaN b then nan
  else if a <? b then a
  else if b <? a then b
  else if isNegZero a then a else b.

(** An integer of magnitude below [2^53] as the number it denotes. *)
Definition of_Z (z : Z) : number :=
  match z with
  | Z0 => 0
  | Zpos _ => of_uint63 (Uint63.of_Z z)
  | Zneg p => - of_uint63 (Uint63.of_Z (Zpos p))
  end.

(** [Math.floor]: a number with a non-negative exponent is integral; below
    that the mantissa is shifted and, for a negative inexact value, the
    quotient moves one further down. *)
Definition Math_floor (x : number) : number :=
  match Prim2SF x with
  | S754_finite s m e =>
      if (0 <=? e)%Z then x
      else
        let q := Z.shiftr (Zpos m) (- e) in
        let exact := (Z.shiftl q (- e) =? Zpos m)%Z in
        if s then (if exact then - of_Z q else - of_Z (q + 1)) else of_Z q
  | _ => x
  end.

(** [Math.round]: the integer nearest to [x], ties towards [+∞]; a result
    of zero keeps the sign of [x]. *)
Definition Math_round (x : number) : number :=
  match Prim2SF x with
  | S754_finite s m e =>
      if (0 <=? e)%Z then x
      else
        let k := (- e)%Z in
        let sm := if s then Zneg m else Zpos m in
        let n := Z.shiftr (2 * sm + 2 ^ k) (k + 1) in
        if (n =? 0)%Z then (if s then (-0) else 0) else of_Z n
  | _ => x
  end.

(** [ToInt32]: wrap an integer into the signed 32-bit range. *)
Definition to_int32 (z : Z) : Z := ((z + 2 ^ 31) mod 2 ^ 32 - 2 ^ 31)%Z.

(** [charCodeAt] on the characters of an ASCII string. *)
Definition charCode (c : Ascii.ascii) : Z := Z.of_N (Ascii.N_of_ascii c).

Fixpoint charCodes (s : string) : list Z :=
  match s with
  | EmptyString => []
  | String c s' => charCode c :: charCodes s'
  end.

End JS.

Import JS.

(** ** types.ts *)

Record QualityOfLifeData := {
  value : number;
  source : string
}.

Record QualityOfLife := {
  unemploymentRate : QualityOfLifeData;
  lifeExpectancy : QualityOfLifeData;
  safetyIndex : QualityOfLifeData;
  healthCareIndex : QualityOfLifeData;
  pollutionIndex : QualityOfLifeData;
  propertyPriceToIncomeRatio : QualityOfLifeData
}.

Record SelectableCountry := {
  code : string;
  name : string;
  currency : string
}.

Record Metadata := {
  economicDataSource : string;
  dataSourceUrl : option string;
  lastUpdate : string
}.

(** [Omit<CountryData, 'code' | 'name' | 'currency'>], what the generator
    returns.  The two numbers copied from the profile are [undefined], here
    [None], when the profile has none (see [profileOf]). *)
Record GeneratedData := {
  g_averageSalaryEUR : option number;
  g_priceIndex : option number;
  g_categoryPrices : gmap string number;
  g_qualityOfLife : QualityOfLife;
  g_metadata : Metadata
}.

Record CountryData := {
  cd_code : string;
  cd_name : string;
  cd_currency : string;
  priceIndex : option number;
  averageSalaryEUR : option number;
  qualityOfLife : QualityOfLife;
  categoryPrices : gmap string number;
  metadata : Metadata
}.

(** The icon of a category is presentational and left out. *)
Record ComparisonCategory := {
  id : string;
  cat_name : string
}.

Record PriceLevelData := {
  categoryId : string;
  percentageDiff : number
}.

(** ** The simulated data engine *)

Variant Region := EU | NA | ASIA | OTHER.

(** What the engine reads of the value it looks up for a country: its
    properties [salary], [index] and [region], each [undefined], here [None],
    when the value has no such property. *)
Record Profile := {
  salary : option number;
  index : option number;
  region : option Region
}.

Definition region_eqb (a b : Region) : bool :=
  match a, b with
  | EU, EU | NA, NA | ASIA, ASIA | OTHER, OTHER => true
  | _, _ => false
  end.

Local Open Scope float_scope.

Definition mkProfile (s i : number) (r : Region) : Profile :=
  {| salary := Some s; index := Some i; region := Some r |}.

Definition COUNTRY_PROFILES : list (string * Profile) :=
  [ ("CH", mkProfile 85000 158 OTHER);
    ("IS", mkProfile 75000 150 OTHER);
    ("LU", mkProfile 78000 135 EU);
    ("NO", mkProfile 65000 138 OTHER);
    ("US", mkProfile 72000 140 NA);
    ("DK", mkProfile 62000 130 EU);
    ("IE", mkProfile 55000 125 EU);
    ("AU", mkProfile 58000 125 OTHER);
    ("SG", mkProfile 60000 130 ASIA);
    ("SE", mkProfile 48000 110 EU);
    ("FI", mkProfile 47000 112 EU);
    ("NL", mkProfile 52000 115 EU);
    ("GB", mkProfile 48000 115 OTHER);
    ("AT", mkProfile 51000 108 EU);
    ("DE", mkProfile 53000 106 EU);
    ("BE", mkProfile 50000 109 EU);
    ("FR", mkProfile 42000 105 EU);
    ("CA", mkProfile 48000 105 NA);
    ("NZ", mkProfile 45000 105 OTHER);
    ("IT", mkProfile 32000 98 EU);
    ("ES", mkProfile 28000 90 EU);
    ("JP", mkProfile 38000 95 ASIA);
    ("KR", mkProfile 36000 90 ASIA);
    ("CY", mkProfile 25000 88 EU);
    ("SI", mkProfile 28000 87 EU);
    ("MT", mkProfile 26000 86 EU);
    ("PT", mkProfile 22000 82 EU);
    ("EE", mkProfile 24000 80 EU);
    ("CZ", mkProfile 23000 78 EU);
    ("GR", mkProfile 19000 78 EU);
    ("SK", mkProfile 20000 75 EU);
    ("LV", mkProfile 20000 75 EU);
    ("LT", mkProfile 21000 72 EU);
    ("PL", mkProfile 18000 65 EU);
    ("HR", mkProfile 18000 68 EU);
    ("HU", mkProfile 16000 62 EU);
    ("RO", mkProfile 14000 55 EU);
    ("BG", mkProfile 12000 52 EU);
    ("TR", mkProfile 9000 45 OTHER);
    ("MK", mkProfile 8500 48 OTHER);
    ("RS", mkProfile 10000 52 OTHER);
    ("ME", mkProfile 10000 55 OTHER);
    ("BA", mkProfile 9500 50 OTHER);
    ("AL", mkProfile 8000 48 OTHER);
    ("TH", mkProfile 12000 45 ASIA);
    ("CN", mkProfile 18000 55 ASIA);
    ("BR", mkProfile 11000 50 OTHER);
    ("MX", mkProfile 12000 48 NA);
    ("AE", mkProfile 55000 90 ASIA) ].

Fixpoint lookupProfile (table : list (string * Profile)) (c : string) : option Profile :=
  match table with
  | [] => None
  | (k, p) :: rest => if String.eqb k c then Some p else lookupProfile rest c
  end.

Definition defaultProfile : Profile := mkProfile 20000 70 OTHER.

(** [COUNTRY_PROFILES] is an object literal, so besides its own keys it
    answers to the names of the members of [Object.prototype], as the
    language standard lists them: the methods of every object and the
    accessor [__proto__]. *)
Definition OBJECT_PROTOTYPE_KEYS : list string :=
  [ "constructor"; "hasOwnProperty"; "isPrototypeOf"; "propertyIsEnumerable";
    "toLocaleString"; "toString"; "valueOf"; "__proto__";
    "__defineGetter__"; "__defineSetter__"; "__lookupGetter__";
    "__lookupSetter__" ].

(** A member of [Object.prototype], a function or the prototype itself: a
    truthy value with no [salary], no [index] and no [region]. *)
Definition prototypeMember : Profile :=
  {| salary := None; index := None; region := None |}.

Definition includes (l : list string) (s : string) : bool :=
  existsb (String.eqb s) l.

(** [COUNTRY_PROFILES[country.code] || { salary: 20000, index: 70, region: 'OTHER' }]:
    the entry of the table under the code; failing that, the inherited member
    the code names, which is truthy and so keeps the default out; the default
    for every other code. *)
Definition profileOf (c : string) : Profile :=
  match lookupProfile COUNTRY_PROFILES c with
  | Some p => p
  | None =>
      if includes OBJECT_PROTOTYPE_KEYS c then prototypeMember else defaultProfile
  end.

(** One turn of the loop of [pseudoRandom]:
    [hash = ((hash << 5) - hash) + char; hash = hash & hash]. *)
Definition hashStep (hash char : Z) : Z :=
  to_int32 (to_int32 (hash * 32) - hash + char).

Definition hashOf (seed : string) : Z :=
  fold_left hashStep (charCodes seed) 0%Z.

Definition EU_LIKE : list string :=
  ["CH"; "NO"; "IS"; "MK"; "TR"; "RS"; "ME"; "BA"; "AL"].

(** [profile.region === 'EU'] *)
Definition regionIs (p : Profile) (r : Region) : bool :=
  match region p with Some r' => region_eqb r' r | None => false end.

Section Engine.

(** [Math.sin] is left to the host by the language standard
    (implementation-approximated); the engine is embedded over the host's
    function.  [CATEGORIES] is the constant of [./constants]. *)
Variable Math_sin : number -> number.
Variable CATEGORIES : list ComparisonCategory.

Definition pseudoRandom (seed : string) : number :=
  let hash := hashOf seed in
  let x := Math_sin (of_Z hash) * 10000 in
  x - Math_floor x.

Definition getVar (seed salt : string) (range : number) : number :=
  (pseudoRandom (seed +:+ salt) * range * 2) - range.

Definition generateCategoryPrices (seed : string) (profile : Profile)
  : gmap string number :=
  fold_left
    (fun acc cat =>
       if String.eqb (id cat) "total" then acc
       else
         let variation := getVar seed (id cat) 12 in
         <[ id cat :=
              Math_max 30 (Math_round (toNumber (index profile) + variation)) ]> acc)
    CATEGORIES ∅.

Definition generateSimulatedCountryData (country : SelectableCountry)
  : GeneratedData :=
  let profile := profileOf (code country) in
  let seed := code country in
  let isEU := regionIs profile EU || includes EU_LIKE (code country) in
  let qol :=
    {| unemploymentRate :=
         {| value := Math_max 2 (5 + getVar seed "unemp" 4
                                 + (if toNumber (index profile) <? 70 then 5 else 0));
            source := if isEU then "Eurostat" else "World Bank" |};
       lifeExpectancy :=
         {| value := Math_min 85 (Math_max 70 (78 + getVar seed "life" 4
                                 + (if 100 <? toNumber (index profile) then 3 else -2)));
            source := if isEU then "Eurostat" else "WHO" |};
       safetyIndex :=
         {| value := Math_min 90 (Math_max 40 (65 + getVar seed "safe" 15
                                 + (if 120 <? toNumber (index profile) then 10 else 0)));
            source := "Numbeo" |};
       healthCareIndex :=
         {| value := Math_min 90 (Math_max 40 (68 + getVar seed "health" 10
                                 + (if 100 <? toNumber (index profile) then 8 else -5)));
            source := "Numbeo" |};
       pollutionIndex :=
         {| value := Math_min 90 (Math_max 20 (40 + getVar seed "poll" 15
                                 - (if 100 <? toNumber (index profile) then 10 else -10)));
            source := "Numbeo" |};
       propertyPriceToIncomeRatio :=
         {| value := Math_max 5 (10 + getVar seed "prop" 4);
            source := "Numbeo" |} |} in
  {| g_averageSalaryEUR := salary profile;
     g_priceIndex := index profile;
     g_categoryPrices := generateCategoryPrices seed profile;
     g_qualityOfLife := qol;
     g_metadata :=
       {| economicDataSource :=
            if isEU then "Eurostat"
            else if String.eqb (code country) "US" then "OECD" else "World Bank";
          dataSourceUrl :=
            if isEU then Some "https://ec.europa.eu/eurostat/data/database" else None;
          lastUpdate := "2024" |} |}.

(** [{ ...data, ...country }] *)
Definition fullData (data : GeneratedData) (country : SelectableCountry) : CountryData :=
  {| cd_code := code country;
     cd_name := name country;
     cd_currency := currency country;
     priceIndex := g_priceIndex data;
     averageSalaryEUR := g_averageSalaryEUR data;
     qualityOfLife := g_qualityOfLife data;
     categoryPrices := g_categoryPrices data;
     metadata := g_metadata data |}.

End Engine.

(** ** The purchasing-power computations of [App] *)

Abbreviation Rates := (gmap string number).

Record EquivalentSalary := {
  equivalentSalary : number;
  equivalentSalaryInEUR : number
}.

Definition zeroResult : EquivalentSalary :=
  {| equivalentSalary := 0; equivalentSalaryInEUR := 0 |}.

(** [parseFloat(salary) || 0], on the number [parseFloat] returned. *)
Definition numericSalaryOf (parsed : number) : number :=
  if truthy parsed then parsed else 0.

(** What [JSON.stringify] followed by [JSON.parse] keeps of a number.  JSON
    has no [NaN] and no infinities and writes [null] in their place, here
    [None]; [-0] is written as [0]. *)
Definition jsonNumber (x : number) : option number :=
  if isFinite x then Some (if isNegZero x then 0 else x) else None.

(** The same on a table of rates.  A rate that came back as [null] is falsy,
    and both readers of the table test a rate for truthiness before anything
    else: such an entry counts as missing and is left out. *)
Definition jsonRates (r : Rates) : Rates := omap jsonNumber r.

(** [c.currency === 'EUR' ? 1 : rates[c.currency]] *)
Definition rateOf (r : Rates) (cur : string) : option number :=
  if String.eqb cur "EUR" then Some 1 else r !! cur.

(** The [useMemo] that yields [{ equivalentSalary, equivalentSalaryInEUR }].
    [parsed] is [parseFloat(salary)].  A price index may be [undefined]: the
    guard tests its truthiness, and the division is reached with numbers
    only. *)
Definition equivalentSalaryMemo (parsed : number)
    (fromCountryData toCountryData : option CountryData) (rates : option Rates)
    (fromCountry toCountry : SelectableCountry) : EquivalentSalary :=
  match fromCountryData, toCountryData, rates with
  | Some fd, Some td, Some r =>
      if negb (truthy_opt (priceIndex fd)) || negb (truthy_opt (priceIndex td))
      then zeroResult
      else
        let numericSalary := numericSalaryOf parsed in
        let fromRate := rateOf r (currency fromCountry) in
        let toRate := rateOf r (currency toCountry) in
        match fromRate, toRate with
        | Some fromRate, Some toRate =>
            if negb (truthy fromRate) || negb (truthy toRate) then zeroResult
            else
              let salaryInEUR := numericSalary / fromRate in
              let pppAdjustedSalaryInEUR :=
                salaryInEUR * (toNumber (priceIndex td) / toNumber (priceIndex fd)) in
              let finalEquivalentSalary := pppAdjustedSalaryInEUR * toRate in
              {| equivalentSalary := finalEquivalentSalary;
                 equivalentSalaryInEUR := pppAdjustedSalaryInEUR |}
        | _, _ => zeroResult
        end
  | _, _, _ => zeroResult
  end.

(** The index a category is compared on: the overall price index for
    ['total'], [categoryPrices[category.id]] otherwise; [None] is
    [undefined]. *)
Definition categoryIndex (d : CountryData) (category : ComparisonCategory)
  : option number :=
  if String.eqb (id category) "total" then priceIndex d
  else categoryPrices d !! id category.

Definition priceLevelEntry (fd td : CountryData) (category : ComparisonCategory)
  : PriceLevelData :=
  match categoryIndex fd category, categoryIndex td category with
  | Some fromIndex, Some toIndex =>
      if fromIndex =? 0
      then {| categoryId := id category; percentageDiff := 0 |}
      else {| categoryId := id category;
              percentageDiff := ((toIndex / fromIndex) - 1) * 100 |}
  | _, _ => {| categoryId := id category; percentageDiff := 0 |}
  end.

Definition priceLevelData (CATEGORIES : list ComparisonCategory)
    (fromCountryData toCountryData : option CountryData) : list PriceLevelData :=
  match fromCountryData, toCountryData with
  | Some fd, Some td => map (priceLevelEntry fd td) CATEGORIES
  | _, _ => []
  end.

(** ** Application state *)

(** What [JSON.parse] makes of an item of [localStorage]. *)
Variant StorageItem :=
  | Unparsable
  | RatesItem (date : string) (item_rates : option Rates)
  | DataItem (monthKey : string) (data : option CountryData).

Record AppState := {
  rates : option Rates;
  ratesLastUpdated : option string;
  isLoadingRates : bool;
  ratesError : bool;
  countryDataCache : gmap string CountryData;
  cacheRef : gmap string CountryData;
  fetchingRef : gset string;
  isLoadingData : gmap string bool;
  dataError : gmap string (option string);
  localStorage : gmap string StorageItem
}.

Variant Event :=
  | NetworkCall (url : string)
  | StorageWrite (key : string) (item : StorageItem)
  | RatesApplied (r : Rates)
  | Generate (countryCode : string)
  | CacheWrite (countryCode : string) (data : CountryData).

Definition isNetworkCall (e : Event) : bool :=
  match e with NetworkCall _ => true | _ => false end.




Definition count (p : Event -> bool) (t : list Event) : nat :=
  length (List.filter p t).

(** The rolling polynomial hash over the integers, before any wrap-around:
    [31 * h + c] at every character. *)
Definition polyHash (codes : list Z) : Z :=
  fold_left (fun h c => (31 * h + c)%Z) codes 0%Z.

(** *** Exchange rates: the effect that runs [fetchRates] on mount *)

Definition RATES_CACHE_KEY : string := "exchange_rates_cache".
Definition RATES_URL : string := "https://open.er-api.com/v6/latest/EUR".

(** What the [try] block of [fetchRates] comes to: a rejection of [fetch], a
    response that is not [ok], a body that does not parse, or the parsed
    [data.rates]; in the last case [localStorage.setItem] either stores the
    snapshot ([Ok]) or throws ([OkWriteFails]), as it does when the quota is
    used up or the storage is closed to the page. *)
Variant Response :=
  | NetworkFailure
  | NotOk
  | BadBody
  | Ok (data_rates : option Rates)
  | OkWriteFails (data_rates : option Rates).

(** [cached.date === today && cached.rates] on the persisted snapshot. *)
Definition freshSnapshot (today : string) (ls : gmap string StorageItem)
  : option Rates :=
  match ls !! RATES_CACHE_KEY with
  | Some (RatesItem date (Some r)) => if String.eqb date today then Some r else None
  | _ => None
  end.

Definition fetchRates (today : string) (response : Response) (st : AppState)
  : AppState * list Event :=
  match freshSnapshot today (localStorage st) with
  | Some r =>
      ({| rates := Some r;
          ratesLastUpdated := Some today;
          isLoadingRates := false;
          ratesError := ratesError st;
          countryDataCache := countryDataCache st;
          cacheRef := cacheRef st;
          fetchingRef := fetchingRef st;
          isLoadingData := isLoadingData st;
          dataError := dataError st;
          localStorage := localStorage st |},
       [RatesApplied r])
  | None =>
      match response with
      | Ok data_rates =>
          let newRates := <["EUR" := 1]> (default ∅ data_rates) in
          let item := RatesItem today (Some (jsonRates newRates)) in
          ({| rates := Some newRates;
              ratesLastUpdated := Some today;
              isLoadingRates := false;
              ratesError := false;
              countryDataCache := countryDataCache st;
              cacheRef := cacheRef st;
              fetchingRef := fetchingRef st;
              isLoadingData := isLoadingData st;
              dataError := dataError st;
              localStorage := <[RATES_CACHE_KEY := item]> (localStorage st) |},
           [NetworkCall RATES_URL; StorageWrite RATES_CACHE_KEY item;
            RatesApplied newRates])
      | NetworkFailure | NotOk | BadBody | OkWriteFails _ =>
          (* the [catch]: a throwing [setItem] comes before [setRates] *)
          ({| rates := rates st;
              ratesLastUpdated := ratesLastUpdated st;
              isLoadingRates := false;
              ratesError := true;
              countryDataCache := countryDataCache st;
              cacheRef := cacheRef st;
              fetchingRef := fetchingRef st;
              isLoadingData := isLoadingData st;
              dataError := dataError st;
              localStorage := localStorage st |},
           [NetworkCall RATES_URL])
      end
  end.

(** *** Country data: the cache initialiser and [fetchCountryData] *)

Definition DATA_KEY_PREFIX : string := "ppc_data_".

(** [key.startsWith(p)] together with [key.replace(p, '')]: the rest of the
    key behind the prefix. *)
Fixpoint stripPrefix (p key : string) : option string :=
  match p, key with
  | EmptyString, _ => Some key
  | String a p', String b key' =>
      if Ascii.eqb a b then stripPrefix p' key' else None
  | String _ _, EmptyString => None
  end.

(** The initialiser of [countryDataCache]: every persisted entry of the
    current month is taken over, the others are passed by. *)
Definition initCache (currentMonthKey : string) (ls : gmap string StorageItem)
  : gmap string CountryData :=
  map_fold
    (fun key item cache =>
       match stripPrefix DATA_KEY_PREFIX key, item with
       | Some c, DataItem monthKey (Some d) =>
           if String.eqb monthKey currentMonthKey then <[c := d]> cache else cache
       | _, _ => cache
       end)
    ∅ ls.

Definition initialState (currentMonthKey : string) (ls : gmap string StorageItem)
  : AppState :=
  {| rates := None;
     ratesLastUpdated := None;
     isLoadingRates := true;
     ratesError := false;
     countryDataCache := initCache currentMonthKey ls;
     cacheRef := initCache currentMonthKey ls;
     fetchingRef := ∅;
     isLoadingData := ∅;
     dataError := ∅;
     localStorage := ls |}.

(** The effect [cacheRef.current = countryDataCache]. *)
Definition syncCacheRef (st : AppState) : AppState :=
  {| rates := rates st;
     ratesLastUpdated := ratesLastUpdated st;
     isLoadingRates := isLoadingRates st;
     ratesError := ratesError st;
     countryDataCache := countryDataCache st;
     cacheRef := countryDataCache st;
     fetchingRef := fetchingRef st;
     isLoadingData := isLoadingData st;
     dataError := dataError st;
     localStorage := localStorage st |}.

(** A call of [fetchCountryData] suspended at its [await]. *)
Record Pending := {
  p_countryCode : string;
  p_country : SelectableCountry;
  p_monthKey : string
}.

Section Loader.

Variable Math_sin : number -> number.
Variable CATEGORIES : list ComparisonCategory.
Variable SELECTABLE_COUNTRIES : list SelectableCountry.

(** [fetchCountryData] up to its [await]: the guard, the lookup of the
    country, the in-flight marker and the call of the generator. *)
Definition fetchCountryData_begin (currentMonthKey countryCode : string)
    (st : AppState) : AppState * option Pending * list Event :=
  if bool_decide (is_Some (cacheRef st !! countryCode))
     || bool_decide (countryCode ∈ fetchingRef st)
  then (st, None, [])
  else
    match List.find (fun c => String.eqb (code c) countryCode) SELECTABLE_COUNTRIES with
    | None => (st, None, [])
    | Some country =>
        ({| rates := rates st;
            ratesLastUpdated := ratesLastUpdated st;
            isLoadingRates := isLoadingRates st;
            ratesError := ratesError st;
            countryDataCache := countryDataCache st;
            cacheRef := cacheRef st;
            fetchingRef := {[countryCode]} ∪ fetchingRef st;
            isLoadingData := <[countryCode := true]> (isLoadingData st);
            dataError := <[countryCode := None]> (dataError st);
            localStorage := localStorage st |},
         Some {| p_countryCode := countryCode;
                 p_country := country;
                 p_monthKey := currentMonthKey |},
         [Generate countryCode])
    end.

(** [fetchCountryData] from the [await] on: the generated data is
    persisted and cached, and the marker is taken off.  The item holds the
    data as it is: the numbers generated for a selectable country are finite
    (for a sine between [-1] and [1]), and JSON carries finite numbers
    unchanged. *)
Definition fetchCountryData_resume (p : Pending) (st : AppState)
  : AppState * list Event :=
  let data := generateSimulatedCountryData Math_sin CATEGORIES (p_country p) in
  let full := fullData data (p_country p) in
  let key := DATA_KEY_PREFIX +:+ p_countryCode p in
  let item := DataItem (p_monthKey p) (Some full) in
  ({| rates := rates st;
      ratesLastUpdated := ratesLastUpdated st;
      isLoadingRates := isLoadingRates st;
      ratesError := ratesError st;
      countryDataCache := <[p_countryCode p := full]> (countryDataCache st);
      cacheRef := cacheRef st;
      fetchingRef := fetchingRef st ∖ {[p_countryCode p]};
      isLoadingData := <[p_countryCode p := false]> (isLoadingData st);
      dataError := dataError st;
      localStorage := <[key := item]> (localStorage st) |},
   [StorageWrite key item; CacheWrite (p_countryCode p) full]).

End Loader.

(** *** Calls of [fetchCountryData] under a schedule

    Calls are started, resumed one at a time and interleaved with the effect
    that refreshes the mirror, in any order. *)

Variant Action :=
  | Request (currentMonthKey countryCode : string)
  | Complete (countryCode : string)
  | RefreshMirror.

Record System := {
  app : AppState;
  suspended : list Pending;
  log : list Event
}.

Definition isFor (c : string) (p : Pending) : bool :=
  String.eqb (p_countryCode p) c.

Fixpoint takeFirst (c : string) (ps : list Pending)
  : option (Pending * list Pending) :=
  match ps with
  | [] => None
  | p :: rest =>
      if isFor c p then Some (p, rest)
      else match takeFirst c rest with
           | Some (q, rest') => Some (q, p :: rest')
           | None => None
           end
  end.

Definition outstanding (c : string) (sys : System) : nat :=
  length (List.filter (isFor c) (suspended sys)).

Section Sched.

Variable Math_sin : number -> number.
Variable CATEGORIES : list ComparisonCategory.
Variable SELECTABLE_COUNTRIES : list SelectableCountry.

Definition step (sys : System) (a : Action) : System :=
  match a with
  | Request currentMonthKey c =>
      let '(st, po, ev) :=
        fetchCountryData_begin SELECTABLE_COUNTRIES currentMonthKey c (app sys) in
      {| app := st;
         suspended := suspended sys ++ match po with Some p => [p] | None => [] end;
         log := log sys ++ ev |}
  | Complete c =>
      match takeFirst c (suspended sys) with
      | Some (p, rest) =>
          let '(st, ev) := fetchCountryData_resume Math_sin CATEGORIES p (app sys) in
          {| app := st; suspended := rest; log := log sys ++ ev |}
      | None => sys
      end
  | RefreshMirror =>
      {| app := syncCacheRef (app sys);
         suspended := suspended sys;
         log := log sys |}
  end.


End Sched.

Definition starting (currentMonthKey : string) (ls : gmap string StorageItem)
  : System :=
  {| app := initialState currentMonthKey ls; suspended := []; log := [] |}.




(** Sample data for closed instances of the statements below. *)

Definition sampleCountry (c cur : string) : SelectableCountry :=
  {| code := c; name := c; currency := cur |}.

Definition sampleQol : QualityOfLife :=
  let d := {| value := 50; source := "Numbeo" |} in
  {| unemploymentRate := d; lifeExpectancy := d; safetyIndex := d;
     healthCareIndex := d; pollutionIndex := d; propertyPriceToIncomeRatio := d |}.

Definition sampleData (c cur : string) (idx : number)
    (prices : gmap string number) : CountryData :=
  {| cd_code := c; cd_name := c; cd_currency := cur;
     priceIndex := Some idx; averageSalaryEUR := Some 30000;
     qualityOfLife := sampleQol; categoryPrices := prices;
     metadata := {| economicDataSource := "World Bank";
                    dataSourceUrl := None; lastUpdate := "2024" |} |}.

(** ** Numbers as integers

    Every finite binary64 number is an integer multiple of [2^-1074].  The
    order of finite numbers and the bounds of rounded results are stated on
    that integer. *)

(** The value of a finite number, in units of [2^-1074]. *)
Definition Fval (x : spec_float) : Z :=
  match x with
  | S754_finite s m e => (cond_Zopp s (Z.pos m) * 2 ^ (e + 1074))%Z
  | _ => 0%Z
  end.

Definition SFfin (x : spec_float) : bool :=
  match x with
  | S754_zero _ | S754_finite _ _ _ => true
  | _ => false
  end.

Definition V (x : number) : Z := Fval (Prim2SF x).

(** A number that is neither [NaN] nor infinite. *)
Definition fin (x : number) : bool := SFfin (Prim2SF x).

(** [lo <= x && x <= hi], as JavaScript compares. *)
Definition between (lo hi x : number) : Prop :=
  (lo <=? x) = true /\ (x <=? hi) = true.

(** The magnitude of a finite number, in units of [2^-K]. *)
Definition uval (K : Z) (x : spec_float) : Z :=
  match x with
  | S754_finite _ m e => (Z.pos m * 2 ^ (e + K))%Z
  | _ => 0%Z
  end.

(** The record of the rounding procedure after [k] shifts of [M]. *)
Definition shifted (M k : Z) (rec : shr_record) : Prop :=
  shr_m rec = (M / 2 ^ k)%Z
  /\ ((M mod 2 ^ k = 0)%Z -> shr_r rec = false /\ shr_s rec = false).

(** What is assumed of the host's [Math.sin]: on a finite argument its
    result lies between [-1] and [1]. *)
Definition sinInRange (Math_sin : number -> number) : Prop :=
  forall y, fin y = true -> between (-1) 1 (Math_sin y).

(** ** The salary field *)

Definition isDigit (c : Ascii.ascii) : bool :=
  (48 <=? charCode c)%Z && (charCode c <=? 57)%Z.

(** [handleSalaryChange]: the new value of [salary],
    [e.target.value.replace(/[^0-9]/g, '')]. *)
Fixpoint handleSalaryChange (value : string) : string :=
  match value with
  | EmptyString => EmptyString
  | String c rest =>
      if isDigit c then String c (handleSalaryChange rest)
      else handleSalaryChange rest
  end.

(** The mathematical value of a string of decimal digits. *)
Definition decimalValue (s : string) : Z :=
  fold_left (fun acc c => (10 * acc + (c - 48))%Z) (charCodes s) 0%Z.

(** [parseFloat] on the strings [salary] holds, strings of decimal digits:
    [NaN] for the empty string, otherwise the number nearest to the integer
    written, ties to even, and [Infinity] beyond the range. *)
Definition parseFloat (s : string) : number :=
  match s with
  | EmptyString => nan
  | String _ _ => SF2Prim (binary_normalize prec emax (decimalValue s) 0 false)
  end.


(** ** The selected pair of countries *)

Record Selection := {
  fromCountryCode : string;
  toCountryCode : string
}.

Definition initialSelection : Selection :=
  {| fromCountryCode := "IT"; toCountryCode := "DE" |}.

(** [onSelectCountry] of the first selector:
    [if (c.code === toCountryCode) setToCountryCode(fromCountryCode);
     setFromCountryCode(c.code)]. *)
Definition onSelectFromCountry (c : SelectableCountry) (s : Selection) : Selection :=
  {| fromCountryCode := code c;
     toCountryCode :=
       if String.eqb (code c) (toCountryCode s) then fromCountryCode s
       else toCountryCode s |}.

(** [onSelectCountry] of the second selector. *)
Definition onSelectToCountry (c : SelectableCountry) (s : Selection) : Selection :=
  {| fromCountryCode :=
       if String.eqb (code c) (fromCountryCode s) then toCountryCode s
       else fromCountryCode s;
     toCountryCode := code c |}.

Variant Pick :=
  | PickFrom (c : SelectableCountry)
  | PickTo (c : SelectableCountry).

Definition pick (s : Selection) (p : Pick) : Selection :=
  match p with
  | PickFrom c => onSelectFromCountry c s
  | PickTo c => onSelectToCountry c s
  end.

(** [SELECTABLE_COUNTRIES.find(c => c.code === countryCode)] *)
Definition findCountry (SELECTABLE_COUNTRIES : list SelectableCountry)
    (countryCode : string) : option SelectableCountry :=
  List.find (fun c => String.eqb (code c) countryCode) SELECTABLE_COUNTRIES.

(** The [useMemo] that yields [exchangeRate]; [null] is [None]. *)
Definition exchangeRateMemo (rates : option Rates)
    (fromCountry toCountry : option SelectableCountry) : option number :=
  match rates, fromCountry, toCountry with
  | Some r, Some fromCountry, Some toCountry =>
      if String.eqb (currency fromCountry) (currency toCountry) then None
      else
        match rateOf r (currency fromCountry), rateOf r (currency toCountry) with
        | Some fromRate, Some toRate =>
            if negb (truthy fromRate) || negb (truthy toRate) then None
            else Some (toRate / fromRate)
        | _, _ => None
        end
  | _, _, _ => None
  end.

(** The text in front of the rate, when the rate is shown:
    [exchangeRate !== null && (isLoadingRates ? ... : ratesError ? ... : ...)]. *)
Definition rateLabel (st : AppState)
    (fromCountry toCountry : option SelectableCountry) : option string :=
  match exchangeRateMemo (rates st) fromCountry toCountry with
  | None => None
  | Some _ =>
      Some (if isLoadingRates st then "Fetching live rates..."
            else if ratesError st then "Using cached rates:"
            else "Live rate:")
  end.

(** ** Links of the data sources *)

Definition toLowerChar (c : Ascii.ascii) : Ascii.ascii :=
  if (65 <=? charCode c)%Z && (charCode c <=? 90)%Z
  then Ascii.ascii_of_N (Ascii.N_of_ascii c + 32)
  else c.

(** [toLowerCase] on an ASCII string. *)
Fixpoint toLowerCase (s : string) : string :=
  match s with
  | EmptyString => EmptyString
  | String c rest => String (toLowerChar c) (toLowerCase rest)
  end.

(** [s.includes(sub)] *)
Fixpoint str_includes (s sub : string) : bool :=
  String.prefix sub s
  || match s with
     | EmptyString => false
     | String _ rest => str_includes rest sub
     end.

Definition nonEmpty (s : string) : bool :=
  match s with EmptyString => false | String _ _ => true end.

Definition EUROSTAT_URL : string := "https://ec.europa.eu/eurostat/data/database".

Definition getSafeSourceUrl (sourceName : string) (url : option string)
  : option string :=
  if nonEmpty sourceName && str_includes (toLowerCase sourceName) "eurostat"
  then Some EUROSTAT_URL
  else url.

Definition getQoLUrl (sourceName : string) : option string :=
  if negb (nonEmpty sourceName) then None
  else
    let lower := toLowerCase sourceName in
    if str_includes lower "numbeo" then Some "https://www.numbeo.com"
    else if str_includes lower "eurostat" then Some EUROSTAT_URL
    else if str_includes lower "world bank" || String.eqb lower "wb"
         then Some "https://data.worldbank.org"
    else if str_includes lower "oecd" then Some "https://data.oecd.org"
    else if str_includes lower "who" then Some "https://www.who.int"
    else None.

Record SourceLink := {
  link_name : string;
  link_url : option string
}.

(** [self.findIndex(p)], with [None] for [-1]. *)
Fixpoint findIndex {A} (p : A -> bool) (l : list A) : option nat :=
  match l with
  | [] => None
  | x :: rest => if p x then Some 0%nat else option_map S (findIndex p rest)
  end.

(** [l.filter((s, index, self) => p(s, index, self))], from position [i] on. *)
Fixpoint filterFrom {A} (p : A -> nat -> bool) (i : nat) (l : list A) : list A :=
  match l with
  | [] => []
  | x :: rest =>
      if p x i then x :: filterFrom p (S i) rest else filterFrom p (S i) rest
  end.

(** [sources.filter((s, index, self) =>
      index === self.findIndex((t) => t.name === s.name))] *)
Definition uniqueSources (sources : list SourceLink) : list SourceLink :=
  filterFrom
    (fun s index =>
       bool_decide
         (findIndex (fun t => String.eqb (link_name t) (link_name s)) sources
          = Some index))
    0%nat sources.

(** The two entries of the row of economic data sources. *)
Definition economicSources (fromCountryData toCountryData : CountryData)
  : list SourceLink :=
  uniqueSources
    [ {| link_name := economicDataSource (metadata fromCountryData);
         link_url := getSafeSourceUrl (economicDataSource (metadata fromCountryData))
                       (dataSourceUrl (metadata fromCountryData)) |};
      {| link_name := economicDataSource (metadata toCountryData);
         link_url := getSafeSourceUrl (economicDataSource (metadata toCountryData))
                       (dataSourceUrl (metadata toCountryData)) |} ].

(** [Object.values(qualityOfLife)], in the order of the properties. *)
Definition qolValues (q : QualityOfLife) : list QualityOfLifeData :=
  [ unemploymentRate q; lifeExpectancy q; safetyIndex q; healthCareIndex q;
    pollutionIndex q; propertyPriceToIncomeRatio q ].

(** [Array.from(new Set(l))]: the elements in the order of their first
    occurrence. *)
Definition arrayFromSet (l : list string) : list string :=
  fold_left (fun acc x => if bool_decide (x ∈ acc) then acc else acc ++ [x]) l [].

Definition qolSources (fromCountryData toCountryData : CountryData) : list string :=
  arrayFromSet
    (map source (qolValues (qualityOfLife fromCountryData))
     ++ map source (qolValues (qualityOfLife toCountryData))).

(** The row of quality-of-life sources: each name with its link. *)
Definition qolLinks (fromCountryData toCountryData : CountryData)
  : list SourceLink :=
  map (fun sourceName =>
         {| link_name := sourceName; link_url := getQoLUrl sourceName |})
      (qolSources fromCountryData toCountryData).

(** ** The comparison cards *)

(** [priceLevelData.map(data => { const category = CATEGORIES.find(...);
    if (!category) return null; return <ComparisonCard .../> })] *)
Definition comparisonCards (CATEGORIES : list ComparisonCategory)
    (entries : list PriceLevelData)
  : list (option (ComparisonCategory * number)) :=
  map (fun data =>
         match List.find (fun c => String.eqb (id c) (categoryId data)) CATEGORIES with
         | None => None
         | Some category => Some (category, percentageDiff data)
         end)
      entries.

(** ** Completion of a call when the write fails *)

(** [fetchCountryData] from the [await] on when [localStorage.setItem]
    throws: nothing is persisted or cached, the [catch] records the error,
    and the [finally] takes the marker off. *)
Definition fetchCountryData_fail (p : Pending) (st : AppState)
  : AppState * list Event :=
  ({| rates := rates st;
      ratesLastUpdated := ratesLastUpdated st;
      isLoadingRates := isLoadingRates st;
      ratesError := ratesError st;
      countryDataCache := countryDataCache st;
      cacheRef := cacheRef st;
      fetchingRef := fetchingRef st ∖ {[p_countryCode p]};
      isLoadingData := <[p_countryCode p := false]> (isLoadingData st);
      dataError := <[p_countryCode p := Some "Failed to load data."]> (dataError st);
      localStorage := localStorage st |},
   []).

(** The moves of the loader: the actions of the schedule, and the completion
    of a call whose write is refused. *)
Variant Move :=
  | Do (a : Action)
  | CompleteFailing (countryCode : string).

Section Play.

Variable Math_sin : number -> number.
Variable CATEGORIES : list ComparisonCategory.
Variable SELECTABLE_COUNTRIES : list SelectableCountry.

Definition move (sys : System) (mv : Move) : System :=
  match mv with
  | Do a => step Math_sin CATEGORIES SELECTABLE_COUNTRIES sys a
  | CompleteFailing c =>
      match takeFirst c (suspended sys) with
      | Some (p, rest) =>
          let '(st, ev) := fetchCountryData_fail p (app sys) in
          {| app := st; suspended := rest; log := log sys ++ ev |}
      | None => sys
      end
  end.

Definition play (moves : list Move) (sys : System) : System :=
  fold_left move moves sys.

(** The test of the loop of [loadAllCountries]:
    [!cacheRef.current[country.code] && !fetchingRef.current.has(country.code)]. *)
Definition loadAllCountries_test (country : SelectableCountry) (sys : System) : bool :=
  negb (bool_decide (is_Some (cacheRef (app sys) !! code country)))
  && negb (bool_decide (code country ∈ fetchingRef (app sys))).

(** The loop of [loadAllCountries] over the countries still to visit: where
    the test passes, [fetchCountryData] is called and the loop pauses;
    [pauses] holds what else happens during each pause. *)
Fixpoint loadAllCountries (currentMonthKey : string)
    (countries : list SelectableCountry) (pauses : list (list Move))
    (sys : System) : System :=
  match countries with
  | [] => sys
  | country :: rest =>
      if loadAllCountries_test country sys
      then loadAllCountries currentMonthKey rest (tail pauses)
             (play (hd [] pauses)
                (move sys (Do (Request currentMonthKey (code country)))))
      else loadAllCountries currentMonthKey rest pauses sys
  end.

(** The data [fetchCountryData] caches for a code. *)
Definition generatedFor (countryCode : string) : option CountryData :=
  match findCountry SELECTABLE_COUNTRIES countryCode with
  | Some country =>
      Some (fullData (generateSimulatedCountryData Math_sin CATEGORIES country) country)
  | None => None
  end.

(** What holds of every state the loader reaches from a cache initialised to
    [init]: suspended calls carry the country of their code; the marker and
    the loading flag stand for the suspended call; a code restored from
    storage keeps its entry, and any other code is absent or holds its
    generated data; the mirror holds nothing the cache does not. *)
Definition reachable (init : gmap string CountryData) (sys : System) : Prop :=
  Forall (fun p => findCountry SELECTABLE_COUNTRIES (p_countryCode p) = Some (p_country p))
         (suspended sys)
  /\ forall c,
      outstanding c sys
      = (if bool_decide (c ∈ fetchingRef (app sys)) then 1 else 0)%nat
      /\ (isLoadingData (app sys) !! c = Some true <-> c ∈ fetchingRef (app sys))
      /\ match init !! c with
         | Some d =>
             countryDataCache (app sys) !! c = Some d
             /\ cacheRef (app sys) !! c = Some d
             /\ c ∉ fetchingRef (app sys)
         | None =>
             (countryDataCache (app sys) !! c = None
              \/ countryDataCache (app sys) !! c = generatedFor c)
             /\ (cacheRef (app sys) !! c = None
                 \/ cacheRef (app sys) !! c = countryDataCache (app sys) !! c)
         end.

End Play.

(** A move of the month [m]: its request, if it is one, reads [m] off the
    clock. *)
Definition inMonth (m : string) (mv : Move) : Prop :=
  match mv with
  | Do (Request currentMonthKey _) => currentMonthKey = m
  | _ => True
  end.

(** The cache is what a reload in month [m] would restore, and the
    suspended calls are of that month. *)
Definition persisted (m : string) (sys : System) : Prop :=
  Forall (fun p => p_monthKey p = m) (suspended sys)
  /\ forall c,
      initCache m (localStorage (app sys)) !! c = countryDataCache (app sys) !! c.

Definition failsFor (c : string) (mv : Move) : bool :=
  match mv with
  | CompleteFailing c' => String.eqb c' c
  | _ => false
  end.

(** The line under a selector:
    [isLoadingData[c] ? 'Loading...' : dataError[c] ? dataError[c]
     : data && `Avg. salary: ...`]. *)
Variant StatusLine :=
  | Loading
  | Failed (message : string)
  | AverageSalary (amount : option number)
  | Blank.

Definition statusLine (st : AppState) (c : string) : StatusLine :=
  if default false (isLoadingData st !! c) then Loading
  else
    match dataError st !! c with
    | Some (Some message) =>
        if nonEmpty message then Failed message
        else match countryDataCache st !! c with
             | Some d => AverageSalary (averageSalaryEUR d)
             | None => Blank
             end
    | _ =>
        match countryDataCache st !! c with
        | Some d => AverageSalary (averageSalaryEUR d)
        | None => Blank
        end
    end.

(** A code whose data is cached or on its way. *)
Definition covered (c : string) (sys : System) : Prop :=
  is_Some (countryDataCache (app sys) !! c) \/ (0 < outstanding c sys)%nat.

Definition noFailure (mv : Move) : bool :=
  match mv with
  | CompleteFailing _ => false
  | _ => true
  end.

(** A string of decimal digits. *)
Fixpoint onlyDigits (s : string) : bool :=
  match s with
  | EmptyString => true
  | String c rest => isDigit c && onlyDigits rest
  end.

Fixpoint hasNonZeroDigit (s : string) : bool :=
  match s with
  | EmptyString => false
  | String c rest => (isDigit c && negb (charCode c =? 48)%Z) || hasNonZeroDigit rest
  end.

(** A number that is [NaN] or has its sign bit clear. *)
Definition signClear (x : spec_float) : Prop :=
  match x with
  | S754_nan => True
  | S754_zero s | S754_infinity s | S754_finite s _ _ => s = false
  end.

(** The integer an integral number stands for. *)
Definition asInteger (x : number) : Z :=
  match Prim2SF x with
  | S754_finite s m e =>
      cond_Zopp s (if (0 <=? e)%Z then Z.pos m * 2 ^ e else Z.pos m / 2 ^ (- e))%Z
  | _ => 0%Z
  end.

(** * Facts about binary64 arithmetic *)

Section Binary64.

Lemma canonical_fexp m e :
  bounded prec emax m e = true ->
  fexp prec emax (Z.pos (digits2_pos m) + e) = e
  /\ (e <=? emax - prec)%Z = true.
Proof.
  unfold bounded, canonical_mantissa. intros [H1 H2]%andb_true_iff.
  apply Z.eqb_eq in H1. auto.
Qed.

Lemma iter_pos_Pos_iter {A} (f : A -> A) n x :
  SpecFloat.iter_pos f n x = Pos.iter f x n.
Proof.
  revert x. induction n as [n IH|n IH|]; intros x; simpl; rewrite ?IH;
    try reflexivity.
  now rewrite !Pos.iter_swap.
Qed.

Lemma digits2_shl m p :
  Z.pos (digits2_pos (Pos.iter xO m p))
  = (Z.pos (digits2_pos m) + Z.pos p)%Z.
Proof.
  induction p as [|p IH] using Pos.peano_ind.
  - simpl. lia.
  - rewrite Pos.iter_succ. simpl digits2_pos. lia.
Qed.

(** Shifting out low zero bits loses nothing. *)
Lemma shr_shl_exact m p :
  SpecFloat.iter_pos shr_1 p
    {| shr_m := Z.pos (Pos.iter xO m p); shr_r := false; shr_s := false |}
  = {| shr_m := Z.pos m; shr_r := false; shr_s := false |}.
Proof.
  rewrite iter_pos_Pos_iter.
  induction p as [|p IH] using Pos.peano_ind.
  - reflexivity.
  - rewrite Pos.iter_succ_r, (Pos.iter_succ p positive xO m).
    simpl shr_1. exact IH.
Qed.

(** Rounding a canonical mantissa returns it. *)
Lemma round_exact_canonical s m e :
  bounded prec emax m e = true ->
  binary_round_aux prec emax s (Z.pos m) e loc_Exact = S754_finite s m e.
Proof.
  intros Hb. destruct (canonical_fexp m e Hb) as [Hc He].
  unfold binary_round_aux, shr_fexp. simpl Zdigits2.
  rewrite Hc, Z.sub_diag. simpl.
  rewrite Hc, Z.sub_diag. simpl. rewrite He. reflexivity.
Qed.

(** The same with [p] low zero bits in front of the canonical mantissa. *)
Lemma round_exact_shl s m e p :
  bounded prec emax m e = true ->
  binary_round_aux prec emax s (Z.pos (Pos.iter xO m p)) (e - Z.pos p) loc_Exact
  = S754_finite s m e.
Proof.
  intros Hb. destruct (canonical_fexp m e Hb) as [Hc He].
  unfold binary_round_aux. unfold shr_fexp at 1.
  unfold Zdigits2. rewrite digits2_shl.
  replace (Z.pos (digits2_pos m) + Z.pos p + (e - Z.pos p))%Z
    with (Z.pos (digits2_pos m) + e)%Z by lia.
  rewrite Hc. replace (e - (e - Z.pos p))%Z with (Z.pos p) by lia.
  unfold shr, shr_record_of_loc. rewrite shr_shl_exact.
  cbn [shr_m loc_of_shr_record round_nearest_even].
  replace (e - Z.pos p + Z.pos p)%Z with e by lia.
  unfold shr_fexp, Zdigits2. rewrite Hc, Z.sub_diag. simpl.
  rewrite He. reflexivity.
Qed.

Lemma div_eucl_exact a b : (0 < b)%Z -> Z.div_eucl (a * b) b = (a, 0%Z).
Proof.
  intros Hb.
  pose proof (Z.div_eucl_eq (a * b) b ltac:(lia)) as Heq.
  pose proof (Z.mod_pos_bound (a * b) b Hb) as Hr.
  unfold Z.modulo in Hr.
  destruct (Z.div_eucl (a * b) b) as [q r].
  assert (q = a) by nia. subst q. f_equal. lia.
Qed.

Lemma new_location_0 n : new_location n 0 = loc_Exact.
Proof. unfold new_location. destruct (Z.even n); reflexivity. Qed.

Lemma SFmul_1_r x : valid_binary x = true -> SF64mul x (Prim2SF 1) = x.
Proof.
  change (Prim2SF 1) with (S754_finite false 4503599627370496 (-52)).
  destruct x as [s|s| |s m e]; intros Hb.
  1-2: unfold SF64mul, SFmul; now rewrite xorb_false_r.
  1: reflexivity.
  unfold SF64mul, SFmul. rewrite xorb_false_r.
  change 4503599627370496%positive with (Pos.iter xO 1%positive 52).
  replace (m * Pos.iter xO 1 52)%positive with (Pos.iter xO m 52).
  2:{ simpl. rewrite !Pos.mul_xO_r, Pos.mul_1_r. reflexivity. }
  apply (round_exact_shl s m e 52 Hb).
Qed.

Lemma SFdiv_1_r x : valid_binary x = true -> SF64div x (Prim2SF 1) = x.
Proof.
  change (Prim2SF 1) with (S754_finite false 4503599627370496 (-52)).
  destruct x as [s|s| |s m e]; intros Hb.
  1-2: unfold SF64div, SFdiv; now rewrite xorb_false_r.
  1: reflexivity.
  simpl in Hb. destruct (canonical_fexp m e Hb) as [Hc He].
  unfold SF64div, SFdiv, SFdiv_core_binary. rewrite xorb_false_r.
  change (Zdigits2 (Z.pos 4503599627370496)) with 53%Z.
  change (Zdigits2 (Z.pos m)) with (Z.pos (digits2_pos m)).
  assert (Hcase :
    fexp prec emax (Z.pos (digits2_pos m) + e - (53 + -52)) = e
    \/ fexp prec emax (Z.pos (digits2_pos m) + e - (53 + -52)) = (e - 1)%Z).
  { revert Hc. unfold fexp, SpecFloat.emin, prec, emax. lia. }
  destruct Hcase as [Hf|Hf]; rewrite Hf.
  - replace (Z.min e (e - -52)) with e by lia.
    replace (e - -52 - e)%Z with 52%Z by lia.
    rewrite Z.shiftl_mul_pow2 by lia.
    change (Z.pos 4503599627370496) with (2 ^ 52)%Z.
    rewrite div_eucl_exact by lia. rewrite new_location_0.
    apply round_exact_canonical, Hb.
  - replace (Z.min (e - 1) (e - -52)) with (e - 1)%Z by lia.
    replace (e - -52 - (e - 1))%Z with 53%Z by lia.
    rewrite Z.shiftl_mul_pow2 by lia.
    change (Z.pos 4503599627370496) with (2 ^ 52)%Z.
    replace (Z.pos m * 2 ^ 53)%Z with (Z.pos m~0 * 2 ^ 52)%Z by lia.
    rewrite div_eucl_exact by lia. rewrite new_location_0.
    apply (round_exact_shl s m e 1 Hb).
Qed.

Lemma SFdiv_self s m e :
  SF64div (S754_finite s m e) (S754_finite s m e) = Prim2SF 1.
Proof.
  unfold SF64div, SFdiv, SFdiv_core_binary.
  rewrite !Z.sub_diag, xorb_nilpotent.
  change (Z.min (fexp prec emax 0) 0) with (-53)%Z.
  change (0 - -53)%Z with 53%Z. cbv iota beta.
  rewrite Z.shiftl_mul_pow2 by lia.
  rewrite (Z.mul_comm (Z.pos m)), div_eucl_exact by lia.
  rewrite new_location_0. vm_compute. reflexivity.
Qed.

(** [x * 1], [x / 1] and, for a finite non-zero [x], [x / x] are exact. *)
Lemma mul_1_r (x : number) : x * 1 = x.
Proof.
  apply Prim2SF_inj. rewrite FloatAxioms.mul_spec.
  apply SFmul_1_r, Prim2SF_valid.
Qed.

Lemma div_1_r (x : number) : x / 1 = x.
Proof.
  apply Prim2SF_inj. rewrite FloatAxioms.div_spec.
  apply SFdiv_1_r, Prim2SF_valid.
Qed.

Lemma truthy_cases x :
  truthy x = true ->
  (exists s, Prim2SF x = S754_infinity s)
  \/ (exists s m e, Prim2SF x = S754_finite s m e).
Proof.
  unfold truthy, isNaN. rewrite !FloatAxioms.eqb_spec.
  change (Prim2SF 0) with (S754_zero false).
  destruct (Prim2SF x) as [s|s| |s m e]; try (simpl; discriminate); eauto.
Qed.

Lemma isFinite_cases x :
  isFinite x = true ->
  (exists s, Prim2SF x = S754_zero s)
  \/ (exists s m e, Prim2SF x = S754_finite s m e).
Proof.
  unfold isFinite. rewrite FloatAxioms.ltb_spec, FloatAxioms.abs_spec.
  change (Prim2SF infinity) with (S754_infinity false).
  destruct (Prim2SF x) as [s|s| |s m e]; try (simpl; discriminate); eauto.
Qed.

Lemma div_self (x : number) :
  truthy x = true -> isFinite x = true -> x / x = 1.
Proof.
  intros Ht Hf. apply Prim2SF_inj. rewrite FloatAxioms.div_spec.
  destruct (truthy_cases x Ht) as [[s Hs]|(s & m & e & Hs)];
    destruct (isFinite_cases x Hf) as [[s' Hs']|(s' & m' & e' & Hs')];
    try congruence.
  rewrite Hs. apply SFdiv_self.
Qed.

(** The sign a rounded result carries is the one it was given. *)
Lemma binary_round_aux_sign s m e l :
  match binary_round_aux prec emax s m e l with
  | S754_zero s' | S754_infinity s' | S754_finite s' _ _ => s' = s
  | S754_nan => True
  end.
Proof.
  unfold binary_round_aux.
  destruct (shr_fexp prec emax m e l) as [mrs' e'].
  destruct (shr_fexp _ _ _ _ _) as [mrs'' e''].
  destruct (shr_m mrs''); auto.
  destruct (e'' <=? emax - prec)%Z; auto.
Qed.

End Binary64.

(** * The order of binary64 numbers *)

Section Order.

Lemma digits2_size m : digits2_pos m = Pos.size m.
Proof. induction m; simpl; congruence. Qed.

Lemma digits2_bounds m :
  (2 ^ (Z.pos (digits2_pos m) - 1) <= Z.pos m < 2 ^ Z.pos (digits2_pos m))%Z.
Proof.
  rewrite digits2_size. split.
  - pose proof (Pos.size_le m) as H.
    assert (Z.pos (2 ^ Pos.size m) <= Z.pos m~0)%Z by lia.
    rewrite Pos2Z.inj_pow in H0.
    replace (Z.pos (Pos.size m)) with (Z.pos (Pos.size m) - 1 + 1)%Z in H0 by lia.
    rewrite Z.pow_add_r in H0 by lia. lia.
  - pose proof (Pos.size_gt m) as H.
    assert (Z.pos m < Z.pos (2 ^ Pos.size m))%Z by lia.
    now rewrite Pos2Z.inj_pow in H0.
Qed.

(** Validity, in arithmetic terms. *)
Lemma bounded_arith m e :
  bounded prec emax m e = true ->
  (-1074 <= e <= 971)%Z
  /\ (Z.pos m < 2 ^ 53)%Z
  /\ ((-1074 < e)%Z -> (2 ^ 52 <= Z.pos m)%Z).
Proof.
  intros Hb. destruct (canonical_fexp m e Hb) as [Hc He].
  apply Z.leb_le in He. unfold fexp, SpecFloat.emin, prec, emax in *.
  pose proof (digits2_bounds m) as [Hlo Hhi].
  assert (Hd : (Z.pos (digits2_pos m) <= 53)%Z) by lia.
  split; [lia |]. split.
  - eapply Z.lt_le_trans; [exact Hhi |]. apply Z.pow_le_mono_r; lia.
  - intros He'. assert (Z.pos (digits2_pos m) = 53)%Z by lia.
    rewrite H in Hlo. exact Hlo.
Qed.

(** On canonical mantissas the lexicographic comparison of exponent and
    mantissa is the comparison of the values. *)
Lemma pos_value_compare m1 e1 m2 e2 :
  bounded prec emax m1 e1 = true -> bounded prec emax m2 e2 = true ->
  (Z.pos m1 * 2 ^ (e1 + 1074) ?= Z.pos m2 * 2 ^ (e2 + 1074))%Z
  = match (e1 ?= e2)%Z with
    | Lt => Lt
    | Gt => Gt
    | Eq => Pos.compare_cont Eq m1 m2
    end.
Proof.
  intros H1 H2.
  destruct (bounded_arith m1 e1 H1) as (He1 & Hm1 & Hn1).
  destruct (bounded_arith m2 e2 H2) as (He2 & Hm2 & Hn2).
  assert (Hstep : forall ma ea mb eb,
             (-1074 <= ea)%Z -> (ea < eb)%Z -> (Z.pos ma < 2 ^ 53)%Z ->
             (2 ^ 52 <= Z.pos mb)%Z ->
             (Z.pos ma * 2 ^ (ea + 1074) < Z.pos mb * 2 ^ (eb + 1074))%Z).
  { intros ma ea mb eb Hea Hlt Hma Hmb.
    assert (HA : (0 < 2 ^ (ea + 1074))%Z) by (apply Z.pow_pos_nonneg; lia).
    assert (HB : (2 * 2 ^ (ea + 1074) <= 2 ^ (eb + 1074))%Z).
    { rewrite <- Z.pow_succ_r by lia. apply Z.pow_le_mono_r; lia. }
    change (2 ^ 53)%Z with (2 * 2 ^ 52)%Z in Hma.
    assert (HP : (0 < 2 ^ 52)%Z) by lia.
    generalize dependent (2 ^ 52)%Z. generalize dependent (2 ^ (ea + 1074))%Z.
    generalize dependent (2 ^ (eb + 1074))%Z. intros. nia. }
  destruct (Z.compare_spec e1 e2) as [->|Hlt|Hgt].
  - rewrite <- Zmult_compare_compat_r
      by (apply Z.lt_gt, Z.pow_pos_nonneg; lia).
    reflexivity.
  - apply Z.compare_lt_iff. apply Hstep; lia.
  - apply Z.compare_gt_iff. apply Hstep; lia.
Qed.

(** Comparison of finite numbers is comparison of their integer values. *)
Lemma SFcompare_Fval x y :
  valid_binary x = true -> valid_binary y = true ->
  SFfin x = true -> SFfin y = true ->
  SFcompare x y = Some (Fval x ?= Fval y)%Z.
Proof.
  destruct x as [sx|sx| |sx mx ex], y as [sy|sy| |sy my ey];
    try discriminate; intros Hx Hy _ _; simpl in Hx, Hy.
  - reflexivity.
  - unfold SFcompare, Fval. f_equal. symmetry.
    assert (0 < 2 ^ (ey + 1074))%Z
      by (apply Z.pow_pos_nonneg; pose proof (bounded_arith _ _ Hy); lia).
    destruct sy; simpl cond_Zopp;
      [apply Z.compare_gt_iff | apply Z.compare_lt_iff]; nia.
  - unfold SFcompare, Fval. f_equal. symmetry.
    assert (0 < 2 ^ (ex + 1074))%Z
      by (apply Z.pow_pos_nonneg; pose proof (bounded_arith _ _ Hx); lia).
    destruct sx; simpl cond_Zopp;
      [apply Z.compare_lt_iff | apply Z.compare_gt_iff]; nia.
  - unfold SFcompare, Fval. f_equal.
    assert (0 < 2 ^ (ex + 1074))%Z
      by (apply Z.pow_pos_nonneg; pose proof (bounded_arith _ _ Hx); lia).
    assert (0 < 2 ^ (ey + 1074))%Z
      by (apply Z.pow_pos_nonneg; pose proof (bounded_arith _ _ Hy); lia).
    destruct sx, sy.
    + change (cond_Zopp true (Z.pos mx)) with (- Z.pos mx)%Z.
      change (cond_Zopp true (Z.pos my)) with (- Z.pos my)%Z.
      rewrite !Z.mul_opp_l, Z.compare_opp.
      rewrite (pos_value_compare my ey mx ex Hy Hx).
      rewrite (Z.compare_antisym ex ey), (Pos.compare_cont_antisym mx my Eq).
      destruct (ex ?= ey)%Z; reflexivity.
    + symmetry. apply Z.compare_lt_iff. simpl cond_Zopp. nia.
    + symmetry. apply Z.compare_gt_iff. simpl cond_Zopp. nia.
    + symmetry. apply pos_value_compare; assumption.
Qed.

Lemma leb_V a b :
  SFfin (Prim2SF a) = true -> SFfin (Prim2SF b) = true ->
  (a <=? b) = (V a <=? V b)%Z.
Proof.
  intros Ha Hb. rewrite FloatAxioms.leb_spec. unfold SFleb, V.
  rewrite SFcompare_Fval by auto using Prim2SF_valid.
  unfold Z.leb. destruct (Fval (Prim2SF a) ?= Fval (Prim2SF b))%Z; reflexivity.
Qed.

Lemma ltb_V a b :
  SFfin (Prim2SF a) = true -> SFfin (Prim2SF b) = true ->
  (a <? b) = (V a <? V b)%Z.
Proof.
  intros Ha Hb. rewrite FloatAxioms.ltb_spec. unfold SFltb, V.
  rewrite SFcompare_Fval by auto using Prim2SF_valid.
  unfold Z.ltb. destruct (Fval (Prim2SF a) ?= Fval (Prim2SF b))%Z; reflexivity.
Qed.

(** A number between two finite numbers is finite. *)
Lemma between_fin lo hi x :
  SFfin (Prim2SF lo) = true -> SFfin (Prim2SF hi) = true ->
  between lo hi x -> SFfin (Prim2SF x) = true.
Proof.
  intros Hlo Hhi [H1 H2]. rewrite FloatAxioms.leb_spec in H1, H2.
  unfold SFleb in H1, H2.
  destruct (Prim2SF x) as [s|s| |s m e]; try reflexivity.
  - destruct s.
    + destruct (Prim2SF lo) as [?|?| |? ? ?]; try discriminate; simpl in H1; discriminate.
    + destruct (Prim2SF hi) as [?|?| |? ? ?]; try discriminate; simpl in H2; discriminate.
  - destruct (Prim2SF lo); discriminate.
Qed.

Lemma between_V lo hi x :
  SFfin (Prim2SF lo) = true -> SFfin (Prim2SF hi) = true ->
  between lo hi x <->
  SFfin (Prim2SF x) = true /\ (V lo <= V x <= V hi)%Z.
Proof.
  intros Hlo Hhi. split.
  - intros Hb. pose proof (between_fin lo hi x Hlo Hhi Hb) as Hx.
    destruct Hb as [H1 H2]. rewrite leb_V in H1, H2 by assumption.
    apply Z.leb_le in H1, H2. auto.
  - intros [Hx [H1 H2]]. split; rewrite leb_V by assumption; now apply Z.leb_le.
Qed.

End Order.

(** * Rounding *)

Section Rounding.

Local Open Scope Z_scope.

(** One shift halves the mantissa, keeps the bit shifted out as the round
    bit and folds the former round bit into the sticky bit. *)
Lemma shr_1_spec rec :
  0 <= shr_m rec ->
  shr_m (shr_1 rec) = shr_m rec / 2
  /\ shr_r (shr_1 rec) = Z.odd (shr_m rec)
  /\ shr_s (shr_1 rec) = shr_r rec || shr_s rec.
Proof.
  destruct rec as [m r s]. simpl. intros Hm.
  destruct m as [|[p|p|]|p]; try lia; simpl; repeat split.
  - rewrite Pos2Z.inj_xI. apply (Z.div_unique _ _ _ 1); lia.
  - rewrite Pos2Z.inj_xO. apply (Z.div_unique _ _ _ 0); lia.
Qed.



Lemma shifted_0 M :
  shifted M 0 {| shr_m := M; shr_r := false; shr_s := false |}.
Proof. unfold shifted. simpl. rewrite Z.div_1_r. auto. Qed.

Lemma shifted_step M k rec :
  0 <= M -> 0 <= k -> shifted M k rec -> shifted M (k + 1) (shr_1 rec).
Proof.
  intros HM Hk [Hm Hex].
  assert (Hpow : 2 ^ (k + 1) = 2 ^ k * 2) by (rewrite Z.pow_add_r by lia; lia).
  assert (Hpos : 0 < 2 ^ k) by (apply Z.pow_pos_nonneg; lia).
  assert (Hnn : 0 <= shr_m rec) by (rewrite Hm; apply Z.div_pos; lia).
  destruct (shr_1_spec rec Hnn) as (H1 & H2 & H3).
  split.
  - rewrite H1, Hm, Hpow, Z.div_div by lia. reflexivity.
  - intros Hmod. rewrite Hpow in Hmod.
    assert (Hdiv : M = 2 ^ k * 2 * (M / (2 ^ k * 2))).
    { pose proof (Z.div_mod M (2 ^ k * 2) ltac:(lia)). lia. }
    assert (Hmk : M mod 2 ^ k = 0).
    { rewrite Hdiv. rewrite <- Z.mul_assoc, Z.mul_comm. apply Z.mod_mul. lia. }
    destruct (Hex Hmk) as [Hr Hs].
    rewrite H2, H3, Hr, Hs, Hm. split; [|reflexivity].
    rewrite Hdiv at 1. rewrite <- Z.mul_assoc, Z.mul_comm, Z.div_mul by lia.
    rewrite Z.odd_mul. reflexivity.
Qed.

Lemma shifted_iter M p :
  0 <= M ->
  shifted M (Z.pos p)
    (SpecFloat.iter_pos shr_1 p {| shr_m := M; shr_r := false; shr_s := false |}).
Proof.
  intros HM. rewrite iter_pos_Pos_iter.
  induction p as [|p IH] using Pos.peano_ind.
  - change (Pos.iter shr_1 ?x 1) with (shr_1 x).
    change (Z.pos 1) with (0 + 1).
    apply (shifted_step M 0); [lia | lia | apply shifted_0].
  - rewrite Pos.iter_succ, Pos2Z.inj_succ. apply shifted_step; [lia | lia | exact IH].
Qed.

(** The first shift of the rounding procedure, on an exact input. *)
Lemma shr_fexp_exact_input mz ez :
  let E := fexp prec emax (Z.pos (digits2_pos mz) + ez) in
  ez <= E ->
  exists rec,
    shr_fexp prec emax (Z.pos mz) ez loc_Exact = (rec, E)
    /\ shifted (Z.pos mz) (E - ez) rec.
Proof.
  intros E Hn. unfold shr_fexp, shr, shr_record_of_loc, Zdigits2. fold E.
  destruct (E - ez) as [|p|p] eqn:Hd; try lia.
  - exists {| shr_m := Z.pos mz; shr_r := false; shr_s := false |}.
    split; [f_equal; lia | apply shifted_0].
  - eexists. split; [f_equal; lia |]. apply shifted_iter. lia.
Qed.

Lemma round_nearest_even_spec rec :
  let m' := round_nearest_even (shr_m rec) (loc_of_shr_record rec) in
  (m' = shr_m rec \/ (m' = shr_m rec + 1 /\ (shr_r rec = true \/ shr_s rec = true))).
Proof.
  destruct rec as [m [|] [|]]; simpl; auto.
  destruct (Z.even m); auto.
Qed.

Lemma fexp_eq z : fexp prec emax z = Z.max (z - 53) (-1074).
Proof. reflexivity. Qed.

(** The truncated mantissa has at most 53 bits, and exactly 53 above the
    subnormal range. *)
Lemma truncated_bounds mz ez :
  let E := fexp prec emax (Z.pos (digits2_pos mz) + ez) in
  ez <= E ->
  Z.pos mz / 2 ^ (E - ez) < 2 ^ 53
  /\ (-1074 < E -> 2 ^ 52 <= Z.pos mz / 2 ^ (E - ez)).
Proof.
  intros E Hn. pose proof (digits2_bounds mz) as [Hlo Hhi].
  assert (HE : E = Z.max (Z.pos (digits2_pos mz) + ez - 53) (-1074)) by reflexivity.
  set (d := Z.pos (digits2_pos mz)) in *. set (n := E - ez).
  assert (Hpos : 0 < 2 ^ n) by (apply Z.pow_pos_nonneg; lia).
  split.
  - apply Z.div_lt_upper_bound; [lia |].
    eapply Z.lt_le_trans; [exact Hhi |].
    rewrite <- Z.pow_add_r by lia. apply Z.pow_le_mono_r; lia.
  - intros Hnorm. apply Z.div_le_lower_bound; [lia |].
    eapply Z.le_trans; [|exact Hlo].
    rewrite Z.mul_comm, <- Z.pow_add_r by lia. apply Z.pow_le_mono_r; lia.
Qed.

Lemma digits_le_53 m : 0 < Z.pos m < 2 ^ 53 -> Z.pos (digits2_pos m) <= 53.
Proof.
  intros [_ H]. pose proof (digits2_bounds m) as [Hlo _].
  assert (2 ^ (Z.pos (digits2_pos m) - 1) < 2 ^ 53) by lia.
  apply Z.pow_lt_mono_r_iff in H0; lia.
Qed.

(** The shape of a rounded result: the truncated mantissa or its successor
    (the successor only when bits were lost), renormalised after a carry,
    and infinite only from exponent 972 on. *)
Lemma round_aux_struct s mz ez :
  let E := fexp prec emax (Z.pos (digits2_pos mz) + ez) in
  let m1 := Z.pos mz / 2 ^ (E - ez) in
  let R := binary_round_aux prec emax s (Z.pos mz) ez loc_Exact in
  ez <= E ->
  exists m1',
    (m1' = m1 \/ (m1' = m1 + 1 /\ Z.pos mz mod 2 ^ (E - ez) <> 0))
    /\ ((m1' = 0 /\ R = S754_zero s)
        \/ exists m'' e'',
            Z.pos m'' * 2 ^ (e'' - E) = m1' /\ E <= e''
            /\ ((e'' <= 971 /\ R = S754_finite s m'' e'')
                \/ (971 < e'' /\ R = S754_infinity s /\ 2 ^ 52 <= Z.pos m''))).
Proof.
  intros E m1 R Hn.
  destruct (shr_fexp_exact_input mz ez Hn) as (rec & Hshr & Hm & Hex).
  fold E in Hshr, Hm, Hex. fold m1 in Hm.
  destruct (truncated_bounds mz ez Hn) as [Hlt53 Hge52].
  fold E in Hlt53, Hge52. fold m1 in Hlt53, Hge52.
  assert (Hm1 : 0 <= m1) by (apply Z.div_pos; [lia | apply Z.pow_pos_nonneg; lia]).
  assert (HEmin : -1074 <= E) by (subst E; rewrite fexp_eq; lia).
  pose proof (round_nearest_even_spec rec) as Hrnd. cbv zeta in Hrnd.
  set (m1' := round_nearest_even (shr_m rec) (loc_of_shr_record rec)) in *.
  exists m1'. split.
  { rewrite Hm in Hrnd. destruct Hrnd as [H|[H Hb]]; [left; exact H | right].
    split; [exact H |]. intros Hz. destruct (Hex Hz) as [Hr Hs].
    destruct Hb; congruence. }
  assert (Hrange : 0 <= m1' <= 2 ^ 53) by (rewrite Hm in Hrnd; lia).
  assert (HR : R = let '(mrs'', e'') := shr_fexp prec emax m1' E loc_Exact in
                   match shr_m mrs'' with
                   | 0 => S754_zero s
                   | Z.pos m => if (e'' <=? emax - prec) then S754_finite s m e''
                                else S754_infinity s
                   | Z.neg _ => S754_nan
                   end).
  { subst R. unfold binary_round_aux. rewrite Hshr. reflexivity. }
  destruct m1' as [|p|p] eqn:Hp; [| |lia].
  - left. split; [reflexivity |]. rewrite HR. unfold shr_fexp, shr. simpl Zdigits2.
    rewrite fexp_eq.
    destruct (Z.max (0 + E - 53) (-1074) - E) eqn:Hd; try lia; reflexivity.
  - right. destruct (Z.eq_dec (Z.pos p) (2 ^ 53)) as [Hcarry|Hnc].
    + exists (4503599627370496%positive), (E + 1).
      split; [replace (E + 1 - E) with 1 by lia; rewrite Hcarry; reflexivity |].
      split; [lia |].
      assert (Hp53 : p = 9007199254740992%positive) by lia. subst p.
      rewrite HR. unfold shr_fexp, shr.
      change (Zdigits2 (Z.pos 9007199254740992)) with 54.
      rewrite fexp_eq. replace (Z.max (54 + E - 53) (-1074) - E) with 1 by lia.
      simpl. change (emax - prec) with 971.
      destruct (Z.leb_spec (E + 1) 971); [left | right]; auto. repeat split; lia.
    + exists p, E. rewrite Z.sub_diag, Z.mul_1_r. split; [reflexivity |].
      split; [lia |].
      assert (Hd : Z.pos (digits2_pos p) <= 53) by (apply digits_le_53; lia).
      rewrite HR. unfold shr_fexp, shr. simpl Zdigits2. rewrite fexp_eq.
      destruct (Z.max (Z.pos (digits2_pos p) + E - 53) (-1074) - E) eqn:Hsh;
        try lia; simpl; change (emax - prec) with 971;
        (destruct (Z.leb_spec E 971); [left | right]; auto;
         repeat split; try lia;
         assert (2 ^ 52 <= m1) by (apply Hge52; lia);
         destruct Hrnd as [H'|[H' _]]; rewrite Hm in H'; lia).
Qed.



Lemma pow_split a b : 0 <= a -> 0 <= b -> 2 ^ (a + b) = 2 ^ a * 2 ^ b.
Proof. intros. apply Z.pow_add_r; lia. Qed.

Lemma scale_lt a b A B P :
  0 < A -> 2 * A <= B -> 0 < P -> 0 <= a < 2 * P -> P <= b -> a * A < b * B.
Proof. intros. nia. Qed.

Lemma pow_double_le x y : 0 <= x -> x < y -> 2 * 2 ^ x <= 2 ^ y.
Proof.
  intros. rewrite <- Z.pow_succ_r by lia. apply Z.pow_le_mono_r; lia.
Qed.

Lemma grid_up m k W v :
  0 < W -> m * W < v -> v <= k * W -> (m + 1) * W <= k * W.
Proof. intros. assert (m < k) by nia. nia. Qed.

Lemma grid_down m k W v :
  0 < W -> k * W <= v -> v < (m + 1) * W -> k * W <= m * W.
Proof. intros. assert (k < m + 1) by nia. nia. Qed.

(** Rounding is monotone against representable numbers: a representable
    bound of the exact value, above or below, bounds the rounded value. *)
Lemma round_aux_bounds s mz ez K mg eg :
  let E := fexp prec emax (Z.pos (digits2_pos mz) + ez) in
  let R := binary_round_aux prec emax s (Z.pos mz) ez loc_Exact in
  let v := Z.pos mz * 2 ^ (ez + K) in
  let G := Z.pos mg * 2 ^ (eg + K) in
  ez <= E -> 0 <= ez + K -> 1074 <= K ->
  bounded prec emax mg eg = true ->
  (v <= G -> SFfin R = true /\ uval K R <= G)
  /\ (G <= v -> R = S754_infinity s \/ (SFfin R = true /\ G <= uval K R)).
Proof.
  intros E R v G Hn HK HK' Hg.
  destruct (bounded_arith mg eg Hg) as (Heg & Hmg & _).
  destruct (round_aux_struct s mz ez Hn) as (m1' & Hm1' & HR).
  destruct (truncated_bounds mz ez Hn) as [Hlt53 Hge52].
  fold E in Hm1', HR, Hlt53, Hge52. fold R in HR.
  assert (HEmin : -1074 <= E) by (subst E; rewrite fexp_eq; lia).
  set (n := E - ez) in *. set (m1 := Z.pos mz / 2 ^ n) in *.
  assert (Hpn : 0 < 2 ^ n) by (apply Z.pow_pos_nonneg; lia).
  assert (HA : 0 < 2 ^ (ez + K)) by (apply Z.pow_pos_nonneg; lia).
  assert (HW : 2 ^ (E + K) = 2 ^ n * 2 ^ (ez + K)).
  { rewrite <- pow_split by lia. f_equal. lia. }
  assert (Hdm : Z.pos mz = 2 ^ n * m1 + Z.pos mz mod 2 ^ n)
    by (apply Z.div_mod; lia).
  pose proof (Z.mod_pos_bound (Z.pos mz) (2 ^ n) Hpn) as Hmod.
  assert (Hm1 : 0 <= m1) by (apply Z.div_pos; lia).
  (* v against the grid of step 2^(E+K) *)
  assert (Hv1 : m1 * 2 ^ (E + K) <= v) by (subst v; rewrite HW; nia).
  assert (Hv2 : v < (m1 + 1) * 2 ^ (E + K)) by (subst v; rewrite HW; nia).
  assert (Hv3 : Z.pos mz mod 2 ^ n <> 0 -> m1 * 2 ^ (E + K) < v)
    by (intros; subst v; rewrite HW; nia).
  assert (HWpos : 0 < 2 ^ (E + K)) by (apply Z.pow_pos_nonneg; lia).
  assert (HGpos : 0 < G) by (subst G; apply Z.mul_pos_pos; [lia | apply Z.pow_pos_nonneg; lia]).
  (* G relative to the grid *)
  assert (Hgrid : (exists k, G = k * 2 ^ (E + K))
                  \/ (G < m1 * 2 ^ (E + K))).
  { destruct (Z_le_gt_dec E eg) as [Hle|Hgt].
    - left. exists (Z.pos mg * 2 ^ (eg - E)). subst G.
      rewrite <- Z.mul_assoc, <- pow_split by lia. do 2 f_equal. lia.
    - right. assert (H52 : 2 ^ 52 <= m1) by (apply Hge52; lia).
      subst G. apply (scale_lt _ _ _ _ (2 ^ 52));
        [apply Z.pow_pos_nonneg; lia | apply pow_double_le; lia | lia | | lia].
      change (2 * 2 ^ 52) with (2 ^ 53). lia. }
  (* the value of the result on the grid *)
  assert (Hval : forall m'' e'', Z.pos m'' * 2 ^ (e'' - E) = m1' -> E <= e'' ->
                   Z.pos m'' * 2 ^ (e'' + K) = m1' * 2 ^ (E + K)).
  { intros m'' e'' Hmm Hee. rewrite <- Hmm, <- Z.mul_assoc, <- pow_split by lia.
    do 2 f_equal. lia. }
  assert (Hbig : forall m'' e'', 971 < e'' -> 2 ^ 52 <= Z.pos m'' ->
                   G < Z.pos m'' * 2 ^ (e'' + K)).
  { intros m'' e'' He Hm. subst G. apply (scale_lt _ _ _ _ (2 ^ 52));
      [apply Z.pow_pos_nonneg; lia | apply pow_double_le; lia | lia | | lia].
    change (2 * 2 ^ 52) with (2 ^ 53). lia. }
  split.
  - intros HvG.
    assert (Hle : m1' * 2 ^ (E + K) <= G).
    { destruct Hgrid as [[k Hk]|Hlt]; [|lia].
      destruct Hm1' as [->|[-> Hinex]]; [lia |].
      specialize (Hv3 Hinex). rewrite Hk in *.
      apply (grid_up m1 k _ v); assumption. }
    destruct HR as [[Hz ->]|(m'' & e'' & Hmm & Hee & [[He ->]|(He & -> & Hm52)])].
    + simpl. lia.
    + simpl. rewrite (Hval m'' e'' Hmm Hee). auto.
    + exfalso. specialize (Hbig m'' e'' He Hm52).
      rewrite (Hval m'' e'' Hmm Hee) in Hbig. lia.
  - intros HGv.
    assert (Hle : G <= m1' * 2 ^ (E + K)).
    { assert (Hmono : m1 * 2 ^ (E + K) <= m1' * 2 ^ (E + K)).
      { apply Z.mul_le_mono_nonneg_r; [lia |].
        destruct Hm1' as [->|[-> _]]; lia. }
      destruct Hgrid as [[k Hk]|Hlt]; [|lia].
      rewrite Hk in *. pose proof (grid_down m1 k _ v HWpos HGv Hv2). lia. }
    destruct HR as [[Hz ->]|(m'' & e'' & Hmm & Hee & [[He ->]|(He & -> & Hm52)])].
    + exfalso. rewrite Hz in Hle. lia.
    + right. simpl. rewrite (Hval m'' e'' Hmm Hee). auto.
    + left. reflexivity.
Qed.

End Rounding.

(** * Bounds on sums, differences and products *)

Section OperationBounds.

Local Open Scope Z_scope.

Lemma Fval_abs_uval x :
  SFfin x = true -> Z.abs (Fval x) = uval 1074 x.
Proof.
  destruct x as [s|s| |s m e]; try discriminate; intros _; try reflexivity.
  unfold Fval, uval.
  assert (0 <= 2 ^ (e + 1074)) by (apply Z.pow_nonneg; lia).
  destruct s; simpl cond_Zopp; nia.
Qed.

(** The result of a rounding, as a signed value. *)
Lemma Fval_signed s r :
  match r with
  | S754_zero s' | S754_infinity s' | S754_finite s' _ _ => s' = s
  | S754_nan => True
  end ->
  SFfin r = true ->
  Fval r = cond_Zopp s (uval 1074 r).
Proof.
  destruct r as [s'|s'| |s' m e]; try discriminate; intros Hs _; subst.
  - destruct s; reflexivity.
  - unfold Fval, uval. destruct s; simpl cond_Zopp; lia.
Qed.

(** The exponent of a product of canonical mantissas needs no left shift. *)
Lemma mul_exponent_ok mx ex my ey :
  bounded prec emax mx ex = true -> bounded prec emax my ey = true ->
  ex + ey <= fexp prec emax (Z.pos (digits2_pos (mx * my)) + (ex + ey)).
Proof.
  intros Hx Hy. rewrite fexp_eq.
  destruct (bounded_arith mx ex Hx) as (Hex & Hmx & Hnx).
  destruct (bounded_arith my ey Hy) as (Hey & Hmy & Hny).
  destruct (Z_le_gt_dec (ex + ey) (-1074)) as [Hle|Hgt]; [lia |].
  pose proof (digits2_bounds (mx * my)) as [_ Hhi].
  assert (H52 : 2 ^ 52 <= Z.pos (mx * my)).
  { rewrite Pos2Z.inj_mul.
    destruct (Z_le_gt_dec ex (-1074)).
    - assert (2 ^ 52 <= Z.pos my) by (apply Hny; lia). nia.
    - assert (2 ^ 52 <= Z.pos mx) by (apply Hnx; lia). nia. }
  assert (2 ^ 52 < 2 ^ Z.pos (digits2_pos (mx * my))) by lia.
  apply Z.pow_lt_mono_r_iff in H; lia.
Qed.

(** A representable bound on the magnitude of an exact product bounds the
    rounded product; a product of non-negative numbers is non-negative. *)
Lemma SFmul_bounds x y g :
  valid_binary x = true -> valid_binary y = true -> valid_binary g = true ->
  SFfin x = true -> SFfin y = true -> SFfin g = true ->
  Z.abs (Fval x) * Z.abs (Fval y) <= Fval g * 2 ^ 1074 ->
  SFfin (SF64mul x y) = true
  /\ Z.abs (Fval (SF64mul x y)) <= Fval g
  /\ (0 <= Fval x -> 0 <= Fval y -> 0 <= Fval (SF64mul x y)).
Proof.
  intros Hx Hy Hg Fx Fy Fg Hle.
  assert (HU : 0 < 2 ^ 1074) by (apply Z.pow_pos_nonneg; lia).
  assert (Hg0 : 0 <= Fval g) by (pose proof (Z.abs_nonneg (Fval x));
                                 pose proof (Z.abs_nonneg (Fval y)); nia).
  destruct x as [sx|sx| |sx mx ex]; try discriminate;
    destruct y as [sy|sy| |sy my ey]; try discriminate;
    try (unfold SF64mul, SFmul; simpl; repeat split; lia).
  simpl in Hx, Hy.
  destruct (bounded_arith mx ex Hx) as (Hex & _).
  destruct (bounded_arith my ey Hy) as (Hey & _).
  unfold SF64mul, SFmul.
  set (R := binary_round_aux prec emax (xorb sx sy) (Z.pos (mx * my)) (ex + ey) loc_Exact).
  pose proof (binary_round_aux_sign (xorb sx sy) (Z.pos (mx * my)) (ex + ey) loc_Exact)
    as Hsign. fold R in Hsign.
  assert (Hv : Z.abs (Fval (S754_finite sx mx ex)) * Z.abs (Fval (S754_finite sy my ey))
               = Z.pos (mx * my) * 2 ^ (ex + ey + 2148)).
  { rewrite !Fval_abs_uval by reflexivity. unfold uval.
    replace (ex + ey + 2148) with ((ex + 1074) + (ey + 1074)) by lia.
    rewrite (pow_split (ex + 1074) (ey + 1074)) by lia.
    rewrite Pos2Z.inj_mul. ring. }
  rewrite Hv in Hle.
  assert (Hgpos : 0 < Fval g).
  { assert (0 < Z.pos (mx * my) * 2 ^ (ex + ey + 2148))
      by (apply Z.mul_pos_pos; [lia | apply Z.pow_pos_nonneg; lia]). nia. }
  destruct g as [sg|sg| |sg mg eg]; try discriminate; try (simpl in Hgpos; lia).
  simpl in Hg. destruct (bounded_arith mg eg Hg) as (Heg & _).
  assert (sg = false).
  { destruct sg; [|reflexivity]. unfold Fval in Hgpos. simpl cond_Zopp in Hgpos.
    assert (0 < 2 ^ (eg + 1074)) by (apply Z.pow_pos_nonneg; lia). nia. }
  subst sg.
  destruct (round_aux_bounds (xorb sx sy) (mx * my) (ex + ey) 2148 mg eg
              (mul_exponent_ok mx ex my ey Hx Hy) ltac:(lia) ltac:(lia) Hg)
    as [HU' _].
  fold R in HU'.
  assert (HG : Z.pos mg * 2 ^ (eg + 2148) = Fval (S754_finite false mg eg) * 2 ^ 1074).
  { unfold Fval. simpl cond_Zopp. rewrite <- Z.mul_assoc, <- pow_split by lia.
    do 2 f_equal. lia. }
  rewrite HG in HU'. destruct (HU' Hle) as [HfinR HuR].
  pose proof (round_aux_struct (xorb sx sy) (mx * my) (ex + ey)
                (mul_exponent_ok mx ex my ey Hx Hy)) as Hst.
  cbv zeta in Hst. fold R in Hst.
  assert (HEmin : -1074 <= fexp prec emax (Z.pos (digits2_pos (mx * my)) + (ex + ey)))
    by (rewrite fexp_eq; lia).
  clearbody R.
  assert (HvalidR : uval 2148 R = uval 1074 R * 2 ^ 1074).
  { destruct R as [?|?| |sr mr er]; try reflexivity.
    unfold uval. destruct (Z_le_gt_dec (-1074) er).
    - rewrite <- Z.mul_assoc, <- pow_split by lia. do 2 f_equal. lia.
    - exfalso.
      destruct Hst
        as (m1' & _ & [[_ Hz]|(m'' & e'' & _ & Hee & [[_ Hf]|(_ & Hi & _)])]);
        try discriminate.
      injection Hf as _ _ <-. lia. }
  rewrite HvalidR in HuR.
  assert (Habs : uval 1074 R <= Fval (S754_finite false mg eg)) by nia.
  split; [exact HfinR |].
  rewrite (Fval_signed (xorb sx sy) R Hsign HfinR).
  assert (0 <= uval 1074 R).
  { rewrite <- Fval_abs_uval by exact HfinR. apply Z.abs_nonneg. }
  split.
  - destruct (xorb sx sy); simpl cond_Zopp; lia.
  - intros Hx0 Hy0.
    assert (sx = false).
    { destruct sx; [|reflexivity]. unfold Fval in Hx0. simpl cond_Zopp in Hx0.
      assert (0 < 2 ^ (ex + 1074)) by (apply Z.pow_pos_nonneg; lia). nia. }
    assert (sy = false).
    { destruct sy; [|reflexivity]. unfold Fval in Hy0. simpl cond_Zopp in Hy0.
      assert (0 < 2 ^ (ey + 1074)) by (apply Z.pow_pos_nonneg; lia). nia. }
    subst. simpl. lia.
Qed.

Lemma iter_xO_value m d : Z.pos (Pos.iter xO m d) = Z.pos m * 2 ^ Z.pos d.
Proof.
  induction d as [|d IH] using Pos.peano_ind.
  - simpl. lia.
  - rewrite Pos.iter_succ, Pos2Z.inj_xO, IH, Pos2Z.inj_succ, Z.pow_succ_r by lia.
    ring.
Qed.

Lemma shl_align_spec m e e' :
  let '(mz, ez) := shl_align m e e' in
  ez = Z.min e e'
  /\ Z.pos mz = Z.pos m * 2 ^ (e - ez)
  /\ Z.pos (digits2_pos mz) + ez = Z.pos (digits2_pos m) + e.
Proof.
  unfold shl_align. destruct (e' - e) as [|p|p] eqn:Hd.
  - replace (Z.min e e') with e by lia. rewrite Z.sub_diag. simpl. lia.
  - replace (Z.min e e') with e by lia. rewrite Z.sub_diag. simpl. lia.
  - replace (Z.min e e') with e' by lia.
    replace (e - e') with (Z.pos p) by lia.
    rewrite iter_xO_value, digits2_shl. lia.
Qed.

Lemma binary_round_sign s m e :
  match binary_round prec emax s m e with
  | S754_zero s' | S754_infinity s' | S754_finite s' _ _ => s' = s
  | S754_nan => True
  end.
Proof.
  unfold binary_round. destruct (shl_align _ _ _) as [mz ez].
  apply binary_round_aux_sign.
Qed.

Lemma binary_round_bounds s m e mg eg :
  let R := binary_round prec emax s m e in
  let v := Z.pos m * 2 ^ (e + 1074) in
  let G := Z.pos mg * 2 ^ (eg + 1074) in
  -1074 <= e ->
  bounded prec emax mg eg = true ->
  (v <= G -> SFfin R = true /\ uval 1074 R <= G)
  /\ (G <= v -> R = S754_infinity s \/ (SFfin R = true /\ G <= uval 1074 R)).
Proof.
  intros R v G He Hg. subst R. unfold binary_round.
  pose proof (shl_align_spec m e (fexp prec emax (Z.pos (digits2_pos m) + e))) as Hal.
  destruct (shl_align m e _) as [mz ez]. destruct Hal as (Hez & Hmz & Hdig).
  assert (Hf : -1074 <= fexp prec emax (Z.pos (digits2_pos m) + e))
    by (rewrite fexp_eq; lia).
  assert (Hn : ez <= fexp prec emax (Z.pos (digits2_pos mz) + ez))
    by (rewrite Hdig; lia).
  assert (Hv : Z.pos mz * 2 ^ (ez + 1074) = v).
  { subst v. rewrite Hmz, <- Z.mul_assoc, <- pow_split by lia. do 2 f_equal. lia. }
  pose proof (round_aux_bounds s mz ez 1074 mg eg Hn ltac:(lia) ltac:(lia) Hg) as H.
  cbv zeta in H. rewrite Hv in H. exact H.
Qed.

Lemma Fval_pos_inv g :
  0 < Fval g -> exists m e, g = S754_finite false m e.
Proof.
  destruct g as [s|s| |s m e]; simpl; try lia. intros H.
  destruct s; [|eauto]. simpl in H.
  assert (0 <= 2 ^ (e + 1074)) by (apply Z.pow_nonneg; lia). nia.
Qed.

Lemma Fval_neg_inv g :
  Fval g < 0 -> exists m e, g = S754_finite true m e.
Proof.
  destruct g as [s|s| |s m e]; simpl; try lia. intros H.
  destruct s; [eauto |]. simpl in H.
  assert (0 <= 2 ^ (e + 1074)) by (apply Z.pow_nonneg; lia). nia.
Qed.

(** Representable bounds of an exact signed value bound its rounding. *)
Lemma binary_normalize_bounds M e lo hi :
  -1074 <= e ->
  valid_binary lo = true -> valid_binary hi = true ->
  Fval lo <= M * 2 ^ (e + 1074) <= Fval hi ->
  let R := binary_normalize prec emax M e false in
  SFfin R = true /\ Fval lo <= Fval R <= Fval hi.
Proof.
  intros He Hlo Hhi [H1 H2] R. subst R.
  assert (HA : 0 < 2 ^ (e + 1074)) by (apply Z.pow_pos_nonneg; lia).
  destruct M as [|m|m]; unfold binary_normalize.
  - simpl. split; [reflexivity | lia].
  - pose proof (binary_round_sign false m e) as Hsign.
    assert (Hhipos : 0 < Fval hi) by nia.
    destruct (Fval_pos_inv hi Hhipos) as (mh & eh & ->).
    destruct (binary_round_bounds false m e mh eh He Hhi) as [HU _].
    destruct (HU ltac:(exact H2)) as [Hfin Hle].
    rewrite (Fval_signed false _ Hsign Hfin). simpl cond_Zopp.
    split; [exact Hfin |]. split; [|exact Hle].
    destruct (Z_le_gt_dec (Fval lo) 0) as [Hn|Hp].
    + assert (0 <= uval 1074 (binary_round prec emax false m e)).
      { rewrite <- Fval_abs_uval by exact Hfin. apply Z.abs_nonneg. }
      lia.
    + destruct (Fval_pos_inv lo ltac:(lia)) as (ml & el & ->).
      destruct (binary_round_bounds false m e ml el He Hlo) as [_ HL].
      destruct (HL ltac:(exact H1)) as [Hinf|[_ Hge]]; [|exact Hge].
      rewrite Hinf in Hfin. discriminate.
  - pose proof (binary_round_sign true m e) as Hsign.
    assert (Hloneg : Fval lo < 0) by nia.
    destruct (Fval_neg_inv lo Hloneg) as (ml & el & ->).
    destruct (binary_round_bounds true m e ml el He Hlo) as [HU _].
    assert (Hv : Z.pos m * 2 ^ (e + 1074) <= Z.pos ml * 2 ^ (el + 1074)).
    { unfold Fval in H1. simpl cond_Zopp in H1. nia. }
    destruct (HU Hv) as [Hfin Hle].
    rewrite (Fval_signed true _ Hsign Hfin).
    change (cond_Zopp true ?z) with (- z).
    split; [exact Hfin |]. split.
    + unfold Fval. simpl cond_Zopp. nia.
    + destruct (Z_le_gt_dec 0 (Fval hi)) as [Hn|Hp].
      * assert (0 <= uval 1074 (binary_round prec emax true m e)).
        { rewrite <- Fval_abs_uval by exact Hfin. apply Z.abs_nonneg. }
        lia.
      * destruct (Fval_neg_inv hi ltac:(lia)) as (mh & eh & ->).
        destruct (binary_round_bounds true m e mh eh He Hhi) as [_ HL].
        assert (Hv' : Z.pos mh * 2 ^ (eh + 1074) <= Z.pos m * 2 ^ (e + 1074)).
        { unfold Fval in H2. simpl cond_Zopp in H2. nia. }
        destruct (HL Hv') as [Hinf|[_ Hge]].
        -- rewrite Hinf in Hfin. discriminate.
        -- unfold Fval. simpl cond_Zopp. nia.
Qed.

Lemma aligned_value s m e ez :
  -1074 <= ez -> ez <= e ->
  cond_Zopp s (Z.pos (fst (shl_align m e ez))) * 2 ^ (ez + 1074)
  = Fval (S754_finite s m e).
Proof.
  intros Hez Hle. pose proof (shl_align_spec m e ez) as H.
  destruct (shl_align m e ez) as [mz ez']. destruct H as (He' & Hmz & _).
  simpl fst. unfold Fval. rewrite Hmz.
  replace (Z.min e ez) with ez in He' by lia. subst ez'.
  replace (e + 1074) with ((e - ez) + (ez + 1074)) by lia.
  rewrite (pow_split (e - ez) (ez + 1074)) by lia.
  destruct s; simpl cond_Zopp; ring.
Qed.

(** Representable bounds of an exact sum bound the rounded sum. *)
Lemma SFadd_bounds x y lo hi :
  valid_binary x = true -> valid_binary y = true ->
  valid_binary lo = true -> valid_binary hi = true ->
  SFfin x = true -> SFfin y = true ->
  Fval lo <= Fval x + Fval y <= Fval hi ->
  SFfin (SF64add x y) = true
  /\ Fval lo <= Fval (SF64add x y) <= Fval hi.
Proof.
  intros Hx Hy Hlo Hhi Fx Fy Hb.
  destruct x as [sx|sx| |sx mx ex]; try discriminate;
    destruct y as [sy|sy| |sy my ey]; try discriminate.
  - unfold SF64add, SFadd. destruct sx, sy; simpl in *; split; auto.
  - unfold SF64add, SFadd. split; [reflexivity |].
    change (Fval (S754_zero sx)) with 0 in Hb. lia.
  - unfold SF64add, SFadd. split; [reflexivity |].
    change (Fval (S754_zero sy)) with 0 in Hb. lia.
  - simpl in Hx, Hy.
    destruct (bounded_arith mx ex Hx) as (Hex & _).
    destruct (bounded_arith my ey Hy) as (Hey & _).
    unfold SF64add, SFadd.
    apply binary_normalize_bounds; [lia | assumption | assumption |].
    rewrite Z.mul_add_distr_r, !aligned_value by lia. exact Hb.
Qed.

Lemma cond_Zopp_negb s z : cond_Zopp (negb s) z = - cond_Zopp s z.
Proof. destruct s; simpl; lia. Qed.

(** Representable bounds of an exact difference bound the rounded
    difference. *)
Lemma SFsub_bounds x y lo hi :
  valid_binary x = true -> valid_binary y = true ->
  valid_binary lo = true -> valid_binary hi = true ->
  SFfin x = true -> SFfin y = true ->
  Fval lo <= Fval x - Fval y <= Fval hi ->
  SFfin (SF64sub x y) = true
  /\ Fval lo <= Fval (SF64sub x y) <= Fval hi.
Proof.
  intros Hx Hy Hlo Hhi Fx Fy Hb.
  destruct x as [sx|sx| |sx mx ex]; try discriminate;
    destruct y as [sy|sy| |sy my ey]; try discriminate.
  - unfold SF64sub, SFsub. destruct sx, sy; simpl in *; split; auto.
  - unfold SF64sub, SFsub. split; [reflexivity |].
    change (Fval (S754_zero sx)) with 0 in Hb.
    unfold Fval in *. rewrite cond_Zopp_negb. lia.
  - unfold SF64sub, SFsub. split; [reflexivity |].
    change (Fval (S754_zero sy)) with 0 in Hb. lia.
  - simpl in Hx, Hy.
    destruct (bounded_arith mx ex Hx) as (Hex & _).
    destruct (bounded_arith my ey Hy) as (Hey & _).
    unfold SF64sub, SFsub.
    apply binary_normalize_bounds; [lia | assumption | assumption |].
    rewrite Z.mul_sub_distr_r, !aligned_value by lia. exact Hb.
Qed.

End OperationBounds.

(** * Intervals of numbers *)

Lemma isFinite_fin x : isFinite x = fin x.
Proof.
  unfold isFinite, fin. rewrite FloatAxioms.ltb_spec, FloatAxioms.abs_spec.
  change (Prim2SF infinity) with (S754_infinity false).
  destruct (Prim2SF x) as [s|s| |s m e]; reflexivity.
Qed.

Lemma between_iff lo hi x :
  fin lo = true -> fin hi = true ->
  between lo hi x <-> fin x = true /\ (V lo <= V x <= V hi)%Z.
Proof. apply between_V. Qed.

Ltac split_andb :=
  repeat match goal with
         | H : (_ && _) = true |- _ => apply andb_true_iff in H; destruct H
         end;
  repeat match goal with
         | H : (_ <=? _)%Z = true |- _ => apply Z.leb_le in H
         | H : (_ =? _)%Z = true |- _ => apply Z.eqb_eq in H
         end.

(** Interval arithmetic on numbers; the side conditions compare constants
    and are settled by evaluation. *)
Lemma add_between la ha lb hb lo hi a b :
  fin la && fin ha && fin lb && fin hb && fin lo && fin hi = true ->
  ((V lo <=? V la + V lb) && (V ha + V hb <=? V hi))%Z = true ->
  between la ha a -> between lb hb b -> between lo hi (a + b).
Proof.
  intros Hfin Hside Ha Hb. split_andb.
  apply between_iff in Ha as [Fa Va]; auto.
  apply between_iff in Hb as [Fb Vb]; auto.
  apply between_iff; auto. unfold fin, V. rewrite FloatAxioms.add_spec.
  apply SFadd_bounds; auto using Prim2SF_valid. unfold V in *. lia.
Qed.

Lemma sub_between la ha lb hb lo hi a b :
  fin la && fin ha && fin lb && fin hb && fin lo && fin hi = true ->
  ((V lo <=? V la - V hb) && (V ha - V lb <=? V hi))%Z = true ->
  between la ha a -> between lb hb b -> between lo hi (a - b).
Proof.
  intros Hfin Hside Ha Hb. split_andb.
  apply between_iff in Ha as [Fa Va]; auto.
  apply between_iff in Hb as [Fb Vb]; auto.
  apply between_iff; auto. unfold fin, V. rewrite FloatAxioms.sub_spec.
  apply SFsub_bounds; auto using Prim2SF_valid. unfold V in *. lia.
Qed.

(** The product of two numbers bounded in magnitude. *)
Lemma mul_between_abs ha hb hi a b :
  fin ha && fin hb && fin hi = true ->
  ((V ha * V hb <=? V hi * 2 ^ 1074) && (V (- ha) =? - V ha)
   && (V (- hb) =? - V hb) && (V (- hi) =? - V hi))%Z = true ->
  fin (- ha) && fin (- hb) && fin (- hi) = true ->
  between (- ha) ha a -> between (- hb) hb b -> between (- hi) hi (a * b).
Proof.
  intros Hfin Hside Hfin' Ha Hb. split_andb.
  match goal with H : (V ha * V hb <= _)%Z |- _ => rename H into Hside end.
  apply between_iff in Ha as [Fa Va]; auto.
  apply between_iff in Hb as [Fb Vb]; auto.
  apply between_iff; auto. unfold fin, V. rewrite FloatAxioms.mul_spec.
  destruct (SFmul_bounds (Prim2SF a) (Prim2SF b) (Prim2SF hi)) as (Hf & Habs & _);
    auto using Prim2SF_valid.
  { unfold V in *.
    assert (Z.abs (Fval (Prim2SF a)) <= Fval (Prim2SF ha))%Z by lia.
    assert (Z.abs (Fval (Prim2SF b)) <= Fval (Prim2SF hb))%Z by lia.
    pose proof (Z.abs_nonneg (Fval (Prim2SF a))).
    pose proof (Z.abs_nonneg (Fval (Prim2SF b))).
    eapply Z.le_trans; [|exact Hside].
    apply Z.mul_le_mono_nonneg; lia. }
  split; [exact Hf |]. unfold V in *. lia.
Qed.

(** The product of two non-negative bounded numbers. *)
Lemma mul_between_nonneg ha hb hi a b :
  fin ha && fin hb && fin hi = true ->
  ((V ha * V hb <=? V hi * 2 ^ 1074))%Z = true ->
  between 0 ha a -> between 0 hb b -> between 0 hi (a * b).
Proof.
  intros Hfin Hside Ha Hb. split_andb.
  assert (F0 : fin 0 = true) by reflexivity.
  assert (V0 : V 0 = 0%Z) by reflexivity.
  apply between_iff in Ha as [Fa Va]; auto.
  apply between_iff in Hb as [Fb Vb]; auto.
  apply between_iff; auto. unfold fin, V. rewrite FloatAxioms.mul_spec.
  rewrite V0 in *.
  destruct (SFmul_bounds (Prim2SF a) (Prim2SF b) (Prim2SF hi)) as (Hf & Habs & Hnn);
    auto using Prim2SF_valid.
  { unfold V in *. rewrite !Z.abs_eq by lia.
    eapply Z.le_trans; [|exact Hside].
    apply Z.mul_le_mono_nonneg; lia. }
  split; [exact Hf |]. change (Fval (Prim2SF 0)) with 0%Z.
  unfold V in *. specialize (Hnn ltac:(lia) ltac:(lia)). lia.
Qed.

Lemma fin_not_nan x : fin x = true -> isNaN x = false.
Proof.
  intros Hx. unfold isNaN. rewrite FloatAxioms.eqb_spec. unfold SFeqb.
  rewrite SFcompare_Fval by auto using Prim2SF_valid.
  now rewrite Z.compare_refl.
Qed.

Lemma Math_max_V c v :
  fin c = true -> fin v = true ->
  fin (Math_max c v) = true /\ V (Math_max c v) = Z.max (V c) (V v).
Proof.
  intros Fc Fv. unfold Math_max.
  rewrite (fin_not_nan c Fc), (fin_not_nan v Fv). simpl orb.
  rewrite !ltb_V by assumption.
  destruct (Z.ltb_spec (V c) (V v)); [split; [assumption | lia] |].
  destruct (Z.ltb_spec (V v) (V c)); [split; [assumption | lia] |].
  destruct (isNegZero c); split; auto; lia.
Qed.

Lemma Math_min_V c v :
  fin c = true -> fin v = true ->
  fin (Math_min c v) = true /\ V (Math_min c v) = Z.min (V c) (V v).
Proof.
  intros Fc Fv. unfold Math_min.
  rewrite (fin_not_nan c Fc), (fin_not_nan v Fv). simpl orb.
  rewrite !ltb_V by assumption.
  destruct (Z.ltb_spec (V c) (V v)); [split; [assumption | lia] |].
  destruct (Z.ltb_spec (V v) (V c)); [split; [assumption | lia] |].
  destruct (isNegZero c); split; auto; lia.
Qed.

(** [Math.max(c, v)] lies between [c] and any bound of both. *)
Lemma Math_max_between c l h h' v :
  fin c && fin l && fin h && fin h' = true ->
  ((V c <=? V h') && (V h <=? V h'))%Z = true ->
  between l h v -> between c h' (Math_max c v).
Proof.
  intros Hfin Hside Hv. split_andb.
  apply between_iff in Hv as [Fv Vv]; auto.
  destruct (Math_max_V c v) as [Fm Vm]; auto.
  apply between_iff; auto. split; [assumption | lia].
Qed.

(** [Math.min(c, v)] lies between any lower bound of both and [c]. *)
Lemma Math_min_between c l l' h v :
  fin c && fin l && fin l' && fin h = true ->
  ((V l' <=? V c) && (V l' <=? V l))%Z = true ->
  between l h v -> between l' c (Math_min c v).
Proof.
  intros Hfin Hside Hv. split_andb.
  apply between_iff in Hv as [Fv Vv]; auto.
  destruct (Math_min_V c v) as [Fm Vm]; auto.
  apply between_iff; auto. split; [assumption | lia].
Qed.

(** * Integers and [Math.floor] *)

Section Floor.

Local Open Scope Z_scope.

(** A positive integer below [2^53], rounded at exponent 0, is itself. *)
Lemma binary_round_integer s p :
  Z.pos p < 2 ^ 53 ->
  let R := binary_round prec emax s p 0 in
  SFfin R = true /\ uval 1074 R = Z.pos p * 2 ^ 1074.
Proof.
  intros Hp R. subst R. unfold binary_round.
  pose proof (digits_le_53 p ltac:(lia)) as Hd.
  assert (Hd1 : 1 <= Z.pos (digits2_pos p)) by lia.
  pose proof (shl_align_spec p 0 (fexp prec emax (Z.pos (digits2_pos p) + 0))) as Hal.
  destruct (shl_align p 0 _) as [mz ez]. destruct Hal as (Hez & Hmz & Hdig).
  rewrite fexp_eq in Hez.
  assert (HE : fexp prec emax (Z.pos (digits2_pos mz) + ez) = ez)
    by (rewrite Hdig, fexp_eq; lia).
  pose proof (round_aux_struct s mz ez ltac:(rewrite HE; lia)) as Hst.
  cbv zeta in Hst. rewrite HE, Z.sub_diag, Z.pow_0_r, Z.div_1_r in Hst.
  destruct Hst as (m1' & Hm1' & HR).
  assert (m1' = Z.pos mz).
  { destruct Hm1' as [H|[_ H]]; [exact H |]. rewrite Z.mod_1_r in H. lia. }
  subst m1'.
  assert (Hmz53 : Z.pos mz < 2 ^ 53).
  { rewrite Hmz. replace (0 - ez) with (53 - Z.pos (digits2_pos p)) by lia.
    pose proof (digits2_bounds p) as [_ Hhi].
    assert (0 < 2 ^ (53 - Z.pos (digits2_pos p))) by (apply Z.pow_pos_nonneg; lia).
    replace (2 ^ 53) with (2 ^ Z.pos (digits2_pos p) * 2 ^ (53 - Z.pos (digits2_pos p))).
    - nia.
    - rewrite <- Z.pow_add_r by lia. f_equal. lia. }
  destruct HR as [[Hz _]|(m'' & e'' & Hmm & Hee & [[He ->]|(He & _ & Hm52)])];
    [lia | |].
  - split; [reflexivity |]. unfold uval.
    replace (e'' + 1074) with ((e'' - ez) + (ez + 1074)) by lia.
    rewrite (pow_split (e'' - ez) (ez + 1074)), Z.mul_assoc, Hmm, Hmz by lia.
    rewrite <- Z.mul_assoc, <- pow_split by lia. do 2 f_equal. lia.
  - exfalso.
    assert (2 ^ 1 <= 2 ^ (e'' - ez)) by (apply Z.pow_le_mono_r; lia).
    change (2 ^ 53) with (2 ^ 52 * 2 ^ 1) in Hmz53. nia.
Qed.

(** [of_Z] is exact on integers of magnitude below [2^53]. *)
Lemma of_Z_value z :
  Z.abs z < 2 ^ 53 ->
  fin (of_Z z) = true /\ V (of_Z z) = z * 2 ^ 1074.
Proof.
  intros Hz.
  assert (Hpos : forall p, Z.pos p < 2 ^ 53 ->
             SFfin (Prim2SF (of_uint63 (Uint63.of_Z (Z.pos p)))) = true
             /\ Fval (Prim2SF (of_uint63 (Uint63.of_Z (Z.pos p))))
                = Z.pos p * 2 ^ 1074).
  { intros p Hp. rewrite FloatAxioms.of_uint63_spec.
    change (Uint63Axioms.to_Z (Uint63.of_Z (Z.pos p)))
      with (Uint63.to_Z (Uint63.of_Z (Z.pos p))).
    rewrite Uint63.of_Z_spec.
    rewrite Z.mod_small by (change Uint63.wB with (2 ^ 63); lia).
    unfold binary_normalize.
    destruct (binary_round_integer false p Hp) as [Hf Hv].
    split; [exact Hf |].
    rewrite (Fval_signed false _ (binary_round_sign false p 0) Hf). exact Hv. }
  destruct z as [|p|p]; unfold of_Z, fin, V.
  - split; reflexivity.
  - apply Hpos. exact Hz.
  - rewrite FloatAxioms.opp_spec.
    destruct (Hpos p Hz) as [Hf Hv].
    destruct (Prim2SF (of_uint63 (Uint63.of_Z (Z.pos p)))) as [s|s| |s m e];
      try discriminate; simpl SFopp; split; try reflexivity.
    unfold Fval in *. rewrite cond_Zopp_negb. lia.
Qed.

Lemma opp_V y : fin (- y)%float = fin y /\ V (- y)%float = - V y.
Proof.
  unfold fin, V. rewrite FloatAxioms.opp_spec.
  destruct (Prim2SF y) as [s|s| |s m e]; simpl SFopp; split; try reflexivity.
  unfold Fval. rewrite cond_Zopp_negb. lia.
Qed.

Lemma V_1 : V 1%float = 2 ^ 1074.
Proof. vm_compute. reflexivity. Qed.

(** [Math.floor] returns the integer below: it is at most [x] and less than
    one below it. *)
Lemma Math_floor_spec x :
  fin x = true ->
  fin (Math_floor x) = true
  /\ V (Math_floor x) <= V x < V (Math_floor x) + 2 ^ 1074.
Proof.
  intros Hx. assert (HU : 0 < 2 ^ 1074) by (apply Z.pow_pos_nonneg; lia).
  unfold Math_floor. pose proof (Prim2SF_valid x) as Hval.
  unfold fin, V in Hx |- *.
  destruct (Prim2SF x) as [s|s| |s m e] eqn:E; try discriminate.
  - rewrite E. split; [reflexivity |]. simpl. lia.
  - destruct (Z.leb_spec 0 e) as [He|He].
    + rewrite E. split; [reflexivity | lia].
    + simpl in Hval. destruct (bounded_arith m e Hval) as (Hemin & Hm & _).
      set (k := - e). set (q := Z.shiftr (Z.pos m) k).
      assert (Hq : q = Z.pos m / 2 ^ k) by (apply Z.shiftr_div_pow2; lia).
      assert (HP : 2 <= 2 ^ k).
      { change 2 with (2 ^ 1) at 1. apply Z.pow_le_mono_r; lia. }
      assert (HA : 0 < 2 ^ (e + 1074)) by (apply Z.pow_pos_nonneg; lia).
      assert (HUAP : 2 ^ 1074 = 2 ^ (e + 1074) * 2 ^ k).
      { rewrite <- pow_split by lia. f_equal. lia. }
      assert (Hdm : Z.pos m = 2 ^ k * q + Z.pos m mod 2 ^ k)
        by (rewrite Hq; apply Z.div_mod; lia).
      pose proof (Z.mod_pos_bound (Z.pos m) (2 ^ k) ltac:(lia)) as Hmod.
      assert (Hq0 : 0 <= q) by (rewrite Hq; apply Z.div_pos; lia).
      assert (Hq52 : q < 2 ^ 52).
      { rewrite Hq. apply Z.div_lt_upper_bound; [lia |].
        change (2 ^ 53) with (2 * 2 ^ 52) in Hm. nia. }
      destruct (of_Z_value q ltac:(lia)) as [Fq Vq].
      destruct (of_Z_value (q + 1) ltac:(lia)) as [Fq1 Vq1].
      unfold fin, V in Fq, Vq, Fq1, Vq1.
      rewrite Z.shiftl_mul_pow2 by lia. fold q.
      unfold Fval at 2 3. rewrite HUAP in *.
      generalize dependent (2 ^ (e + 1074)). generalize dependent (2 ^ k).
      intros P HP Hdm Hmod A. intros.
      destruct s.
      * destruct (Z.eqb_spec (q * P) (Z.pos m)) as [Hex|Hnex].
        -- destruct (opp_V (of_Z q)) as [Fo Vo]. unfold fin, V in Fo, Vo.
           rewrite Fo, Vo, Vq. split; [exact Fq |]. simpl cond_Zopp. nia.
        -- destruct (opp_V (of_Z (q + 1))) as [Fo Vo]. unfold fin, V in Fo, Vo.
           rewrite Fo, Vo, Vq1. split; [exact Fq1 |]. simpl cond_Zopp. nia.
      * rewrite Vq. split; [exact Fq |]. simpl cond_Zopp. nia.
Qed.

(** The fractional part [x - Math.floor(x)] of a finite number lies between
    0 and 1. *)
Lemma frac_between x :
  fin x = true -> between 0 1 (x - Math_floor x)%float.
Proof.
  intros Hx. destruct (Math_floor_spec x Hx) as (Ff & Hlo & Hhi).
  apply between_iff; [reflexivity | reflexivity |].
  unfold fin, V in *. rewrite FloatAxioms.sub_spec.
  apply SFsub_bounds; auto using Prim2SF_valid.
  change (Fval (Prim2SF 0)) with 0. fold (V 1). rewrite V_1. lia.
Qed.

Lemma to_int32_range z : - 2 ^ 31 <= to_int32 z < 2 ^ 31.
Proof.
  unfold to_int32. pose proof (Z.mod_pos_bound (z + 2 ^ 31) (2 ^ 32) ltac:(lia)). lia.
Qed.

Lemma hashOf_range seed : - 2 ^ 31 <= hashOf seed < 2 ^ 31.
Proof.
  unfold hashOf.
  assert (H : forall codes h, - 2 ^ 31 <= h < 2 ^ 31 ->
                              - 2 ^ 31 <= fold_left hashStep codes h < 2 ^ 31).
  { induction codes as [|c codes IH]; intros h Hh; simpl; [exact Hh |].
    apply IH. apply to_int32_range. }
  apply H. lia.
Qed.

End Floor.

(** * The equivalent-salary computation *)

Section EquivalentSalary.

Implicit Types (parsed : number) (fd td : CountryData) (r : Rates).
Implicit Types (fromCountry toCountry : SelectableCountry).

(** When every guard passes, the result is the formula of the source. *)
Lemma equivalentSalaryMemo_guards_pass parsed fd td r fromCountry toCountry
    fromIndex toIndex fromRate toRate :
  priceIndex fd = Some fromIndex -> truthy fromIndex = true ->
  priceIndex td = Some toIndex -> truthy toIndex = true ->
  rateOf r (currency fromCountry) = Some fromRate ->
  rateOf r (currency toCountry) = Some toRate ->
  truthy fromRate = true ->
  truthy toRate = true ->
  equivalentSalaryMemo parsed (Some fd) (Some td) (Some r) fromCountry toCountry
  = {| equivalentSalary :=
         numericSalaryOf parsed / fromRate * (toIndex / fromIndex) * toRate;
       equivalentSalaryInEUR :=
         numericSalaryOf parsed / fromRate * (toIndex / fromIndex) |}.
Proof.
  intros Hfd Hfi Htd Hti Hfr Htr Hf Ht. unfold equivalentSalaryMemo.
  rewrite Hfd, Htd. cbn [truthy_opt toNumber].
  rewrite Hfi, Hti, Hfr, Htr, Hf, Ht. reflexivity.
Qed.

Lemma rateOf_EUR r : rateOf r "EUR" = Some 1.
Proof. reflexivity. Qed.

Lemma numericSalaryOf_truthy parsed :
  truthy parsed = true -> numericSalaryOf parsed = parsed.
Proof. intros H. unfold numericSalaryOf. now rewrite H. Qed.

Lemma numericSalaryOf_falsy parsed :
  truthy parsed = false -> numericSalaryOf parsed = 0.
Proof. intros H. unfold numericSalaryOf. now rewrite H. Qed.

Lemma positive_truthy x : (0 <? x) = true -> truthy x = true.
Proof.
  unfold truthy, isNaN. rewrite FloatAxioms.ltb_spec, !FloatAxioms.eqb_spec.
  change (Prim2SF 0) with (S754_zero false).
  destruct (Prim2SF x) as [s|s| |s m e]; try (simpl; discriminate).
  - destruct s; [discriminate | reflexivity].
  - destruct s; [discriminate |]. intros _.
    unfold SFeqb, SFcompare.
    rewrite Z.compare_refl, Pos.compare_cont_refl. reflexivity.
Qed.

(** Any of the guards failing gives the zero result. *)
Lemma equivalentSalaryMemo_guard_fails parsed fcd tcd rs fromCountry toCountry :
  match fcd with Some fd => truthy_opt (priceIndex fd) | None => false end = false
  \/ match tcd with Some td => truthy_opt (priceIndex td) | None => false end = false
  \/ match rs with
     | Some r => truthy_opt (rateOf r (currency fromCountry))
                 && truthy_opt (rateOf r (currency toCountry))
     | None => false
     end = false ->
  equivalentSalaryMemo parsed fcd tcd rs fromCountry toCountry = zeroResult.
Proof.
  unfold equivalentSalaryMemo.
  destruct fcd as [fd|], tcd as [td|], rs as [r|]; try reflexivity.
  destruct (truthy_opt (priceIndex fd)), (truthy_opt (priceIndex td));
    try reflexivity; simpl.
  - intros [H|[H|H]]; try discriminate.
    destruct (rateOf r (currency fromCountry)) as [fr|],
             (rateOf r (currency toCountry)) as [tr|]; try reflexivity.
    simpl in H. destruct (truthy fr), (truthy tr); try discriminate; reflexivity.
Qed.

(** A zero, of either sign, divided by a truthy number is a zero. *)
Lemma zero_quotient fromRate :
  truthy fromRate = true -> exists s, Prim2SF (0 / fromRate) = S754_zero s.
Proof.
  intros Hf. rewrite FloatAxioms.div_spec.
  change (Prim2SF 0) with (S754_zero false).
  destruct (truthy_cases _ Hf) as [[s E]|(s & m & e & E)]; rewrite E;
    cbn; eauto.
Qed.

(** The product of a zero with a number is a zero when the number is finite
    and [NaN] when it is not. *)
Lemma zero_product z s y :
  Prim2SF z = S754_zero s ->
  (isFinite y = true -> exists s', Prim2SF (z * y) = S754_zero s')
  /\ (isFinite y = false -> Prim2SF (z * y) = S754_nan).
Proof.
  intros Hz. rewrite isFinite_fin. unfold fin.
  rewrite FloatAxioms.mul_spec, Hz.
  destruct (Prim2SF y) as [s'|s'| |s' m e]; cbn; split; intros H;
    try discriminate; eauto.
Qed.

Lemma nan_product z y : Prim2SF z = S754_nan -> Prim2SF (z * y) = S754_nan.
Proof. intros Hz. rewrite FloatAxioms.mul_spec, Hz. reflexivity. Qed.

Lemma zero_is_zero z s : Prim2SF z = S754_zero s -> (z =? 0) = true.
Proof.
  intros Hz. rewrite FloatAxioms.eqb_spec, Hz.
  change (Prim2SF 0) with (S754_zero false). reflexivity.
Qed.

Lemma nan_isNaN z : Prim2SF z = S754_nan -> isNaN z = true.
Proof. intros Hz. unfold isNaN. rewrite FloatAxioms.eqb_spec, Hz. reflexivity. Qed.

(** What a salary of zero comes to: zeros as long as the ratio of the
    indices and the target rate are finite, [NaN] from the first factor on
    that is not. *)
Lemma zero_salary_figures fromRate ratio toRate :
  truthy fromRate = true ->
  let inEUR := 0 / fromRate * ratio in
  let inTarget := inEUR * toRate in
  (isFinite ratio = true -> (inEUR =? 0) = true)
  /\ (isFinite ratio = false -> isNaN inEUR = true)
  /\ (isFinite ratio && isFinite toRate = true -> (inTarget =? 0) = true)
  /\ (isFinite ratio && isFinite toRate = false -> isNaN inTarget = true).
Proof.
  intros Hf inEUR inTarget. subst inEUR inTarget.
  destruct (zero_quotient fromRate Hf) as [s Hz].
  destruct (zero_product _ s ratio Hz) as [Hfin Hinf].
  split; [|split; [|split]].
  - intros H. destruct (Hfin H) as [s' E]. exact (zero_is_zero _ _ E).
  - intros H. exact (nan_isNaN _ (Hinf H)).
  - intros H. apply andb_true_iff in H as [Hr Ht].
    destruct (Hfin Hr) as [s' E].
    destruct (proj1 (zero_product _ s' toRate E) Ht) as [s'' E'].
    exact (zero_is_zero _ _ E').
  - intros H. apply nan_isNaN.
    destruct (isFinite ratio) eqn:Hr.
    + destruct (Hfin eq_refl) as [s' E].
      apply (proj2 (zero_product _ s' toRate E)). exact H.
    + apply nan_product, Hinf. reflexivity.
Qed.

End EquivalentSalary.

(** C1. For every positive numeric salary, available from- and to-rates and
    non-zero price indices, the computation returns
    [equivalentSalaryInEUR = (S / fromRate) * (toIndex / fromIndex)] and
    [equivalentSalary = equivalentSalaryInEUR * toRate], where a rate is [1]
    when the currency is EUR.  "Available" and "non-zero" are the tests of the
    source: the rate, respectively the index, is a truthy number. *)
Theorem C1_equivalent_salary_formula
    (parsed : number) (fd td : CountryData) (r : Rates)
    (fromCountry toCountry : SelectableCountry)
    (fromIndex toIndex fromRate toRate : number) :
  (0 <? parsed) = true ->
  priceIndex fd = Some fromIndex -> truthy fromIndex = true ->
  priceIndex td = Some toIndex -> truthy toIndex = true ->
  rateOf r (currency fromCountry) = Some fromRate -> truthy fromRate = true ->
  rateOf r (currency toCountry) = Some toRate -> truthy toRate = true ->
  let res :=
    equivalentSalaryMemo parsed (Some fd) (Some td) (Some r) fromCountry toCountry in
  equivalentSalaryInEUR res = (parsed / fromRate) * (toIndex / fromIndex)
  /\ equivalentSalary res = equivalentSalaryInEUR res * toRate
  /\ (currency fromCountry = "EUR" -> fromRate = 1)
  /\ (currency toCountry = "EUR" -> toRate = 1).
Proof.
  intros Hpos Hfd Hfi Htd Hti Hfr Hf Htr Ht res. subst res.
  rewrite (equivalentSalaryMemo_guards_pass parsed fd td r fromCountry toCountry
             fromIndex toIndex fromRate toRate) by assumption.
  rewrite (numericSalaryOf_truthy parsed (positive_truthy parsed Hpos)).
  cbn [equivalentSalary equivalentSalaryInEUR].
  split; [reflexivity | split; [reflexivity | split]].
  - intros E. rewrite E, rateOf_EUR in Hfr. congruence.
  - intros E. rewrite E, rateOf_EUR in Htr. congruence.
Qed.

(** The scenario of the specification: salary 50000 earned in a country of
    currency PLN and price index 90, compared with a country of currency USD
    and price index 105. *)
Lemma C1_equivalent_salary_formula_witness :
  let rs : Rates := <["PLN" := 4.25]> (<["USD" := 1.17]> ∅) in
  let res :=
    equivalentSalaryMemo 50000
      (Some (sampleData "PL" "PLN" 90 ∅)) (Some (sampleData "US" "USD" 105 ∅))
      (Some rs) (sampleCountry "PL" "PLN") (sampleCountry "US" "USD") in
  equivalentSalaryInEUR res = (50000 / 4.25) * (105 / 90)
  /\ equivalentSalary res = equivalentSalaryInEUR res * 1.17
  /\ (currency (sampleCountry "PL" "PLN") = "EUR" -> 4.25 = 1)
  /\ (currency (sampleCountry "US" "USD") = "EUR" -> 1.17 = 1).
Proof.
  intros rs.
  apply (C1_equivalent_salary_formula 50000
           (sampleData "PL" "PLN" 90 ∅) (sampleData "US" "USD" 105 ∅) rs
           (sampleCountry "PL" "PLN") (sampleCountry "US" "USD") 90 105 4.25 1.17);
    vm_compute; reflexivity.
Defined.

(** C2, as stated, fails for a salary of zero: the computation tests the
    price indices and the rates, never the salary, and multiplies the zero
    through.  Let the field hold ['0'], the countries be Italy (EUR, index
    98) and the United States (USD, index 140), and the fetched body give
    USD a number beyond the binary64 range, which parses to [Infinity]: the
    rate is there and truthy, every guard passes, the figure in EUR is [0]
    and the figure in USD is [0 * Infinity], that is [NaN]. *)
Lemma C2_counterexample_infinite_rate :
  let fetched : Rates := <["USD" := infinity]> ∅ in
  let st := fst (fetchRates "2026-11-02" (Ok (Some fetched))
                   (initialState "2026-10" ∅)) in
  let parsed := parseFloat (handleSalaryChange "0") in
  let res :=
    equivalentSalaryMemo parsed
      (Some (sampleData "IT" "EUR" 98 ∅)) (Some (sampleData "US" "USD" 140 ∅))
      (rates st) (sampleCountry "IT" "EUR") (sampleCountry "US" "USD") in
  (numericSalaryOf parsed <=? 0) = true
  /\ equivalentSalaryInEUR res = 0
  /\ isNaN (equivalentSalary res) = true
  /\ res <> zeroResult.
Proof.
  intros fetched st parsed res. split; [|split; [|split]];
    try (vm_compute; reflexivity).
  intros H. apply (f_equal (fun x => isNaN (equivalentSalary x))) in H.
  vm_compute in H. discriminate.
Qed.

(** C2, amended.  The zero result is returned whenever a country's data or
    price index is missing or falsy, the rates are not loaded, or a rate is
    unavailable.  The salary has no guard of its own.  A numeric salary is
    never negative, the field keeping digits only; when it is zero (what an
    empty or all-zero input parses to) and every guard passes, the figure in
    EUR is a zero if the ratio of the indices is finite and [NaN] if not, and
    the figure in the target currency is a zero if the ratio and the target
    rate are both finite and [NaN] if not. *)
Theorem C2_zero_result
    (parsed : number) (fromCountry toCountry : SelectableCountry) :
  (forall fcd tcd rs,
      (match fcd with Some fd => truthy_opt (priceIndex fd) | None => false end = false
       \/ match tcd with Some td => truthy_opt (priceIndex td) | None => false end
          = false
       \/ match rs with
          | Some r => truthy_opt (rateOf r (currency fromCountry))
                      && truthy_opt (rateOf r (currency toCountry))
          | None => false
          end = false) ->
      equivalentSalaryMemo parsed fcd tcd rs fromCountry toCountry = zeroResult)
  /\ (forall fd td r fromIndex toIndex fromRate toRate,
         truthy parsed = false ->
         priceIndex fd = Some fromIndex -> truthy fromIndex = true ->
         priceIndex td = Some toIndex -> truthy toIndex = true ->
         rateOf r (currency fromCountry) = Some fromRate -> truthy fromRate = true ->
         rateOf r (currency toCountry) = Some toRate -> truthy toRate = true ->
         let res :=
           equivalentSalaryMemo parsed (Some fd) (Some td) (Some r)
             fromCountry toCountry in
         let ratio := toIndex / fromIndex in
         (isFinite ratio = true -> (equivalentSalaryInEUR res =? 0) = true)
         /\ (isFinite ratio = false -> isNaN (equivalentSalaryInEUR res) = true)
         /\ (isFinite ratio && isFinite toRate = true ->
             (equivalentSalary res =? 0) = true)
         /\ (isFinite ratio && isFinite toRate = false ->
             isNaN (equivalentSalary res) = true)).
Proof.
  split.
  - intros fcd tcd rs H. now apply equivalentSalaryMemo_guard_fails.
  - intros fd td r fromIndex toIndex fromRate toRate Hp Hfd Hfi Htd Hti
      Hfr Hf Htr Ht res ratio. subst res ratio.
    rewrite (equivalentSalaryMemo_guards_pass parsed fd td r fromCountry toCountry
               fromIndex toIndex fromRate toRate) by assumption.
    rewrite (numericSalaryOf_falsy parsed Hp).
    cbn [equivalentSalary equivalentSalaryInEUR].
    exact (zero_salary_figures fromRate (toIndex / fromIndex) toRate Hf).
Qed.

Lemma C2_zero_result_witness :
  let rs : Rates := <["PLN" := 4.25]> (<["USD" := 1.17]> ∅) in
  equivalentSalaryMemo 50000 None (Some (sampleData "US" "USD" 105 ∅)) (Some rs)
    (sampleCountry "PL" "PLN") (sampleCountry "US" "USD") = zeroResult
  /\ (equivalentSalary
        (equivalentSalaryMemo 0
           (Some (sampleData "PL" "PLN" 90 ∅)) (Some (sampleData "US" "USD" 105 ∅))
           (Some rs) (sampleCountry "PL" "PLN") (sampleCountry "US" "USD")) =? 0)
     = true.
Proof.
  intros rs. split.
  - apply (proj1 (C2_zero_result 50000 (sampleCountry "PL" "PLN")
                    (sampleCountry "US" "USD"))).
    left. reflexivity.
  - apply (proj2 (C2_zero_result 0 (sampleCountry "PL" "PLN")
                    (sampleCountry "US" "USD"))
             (sampleData "PL" "PLN" 90 ∅) (sampleData "US" "USD" 105 ∅) rs
             90 105 4.25 1.17);
      vm_compute; reflexivity.
Defined.

(** C3, as stated, fails: dividing by a rate and multiplying by it again
    rounds twice.  A salary of 50000 in a country whose currency stands at
    1.17 comes back as 49999.99999999999. *)
Lemma C3_counterexample_rounding :
  let d := sampleData "US" "USD" 140 ∅ in
  let c := sampleCountry "US" "USD" in
  let rs : Rates := <["USD" := 1.17]> ∅ in
  let res := equivalentSalaryMemo 50000 (Some d) (Some d) (Some rs) c c in
  equivalentSalary res = 0x1.869ffffffffffp+15
  /\ (equivalentSalary res =? 50000) = false
  /\ equivalentSalary res <> 50000.
Proof.
  intros d c rs res. split; [|split]; try (vm_compute; reflexivity).
  intros H. apply (f_equal (fun x => x =? 50000)) in H.
  vm_compute in H. discriminate.
Qed.

(** C3, amended.  From a currency to itself at one finite non-zero price
    index, the figure in the reference currency is [S / rate] and the figure
    in the target currency is [(S / rate) * rate]; both are [S] itself when
    the currency is EUR, whose rate is [1]. *)
Theorem C3_same_currency_same_index
    (parsed : number) (fd td : CountryData) (r : Rates)
    (country : SelectableCountry) (priceIdx rate : number) :
  priceIndex fd = Some priceIdx -> priceIndex td = Some priceIdx ->
  truthy priceIdx = true -> isFinite priceIdx = true ->
  rateOf r (currency country) = Some rate -> truthy rate = true ->
  let S := numericSalaryOf parsed in
  let res := equivalentSalaryMemo parsed (Some fd) (Some td) (Some r) country country in
  equivalentSalaryInEUR res = S / rate
  /\ equivalentSalary res = S / rate * rate
  /\ (currency country = "EUR" ->
      equivalentSalaryInEUR res = S /\ equivalentSalary res = S).
Proof.
  intros Hfd Htd Hi Hfin Hr Ht S res. subst S res.
  rewrite (equivalentSalaryMemo_guards_pass parsed fd td r country country
             priceIdx priceIdx rate rate) by assumption.
  cbn [equivalentSalary equivalentSalaryInEUR].
  rewrite (div_self _ Hi Hfin), mul_1_r.
  split; [reflexivity | split; [reflexivity |]].
  intros E. rewrite E, rateOf_EUR in Hr. injection Hr as <-.
  now rewrite div_1_r, mul_1_r.
Qed.

Lemma C3_same_currency_same_index_witness :
  let d := sampleData "DE" "EUR" 106 ∅ in
  let c := sampleCountry "DE" "EUR" in
  let res := equivalentSalaryMemo 50000 (Some d) (Some d) (Some ∅) c c in
  equivalentSalaryInEUR res = 50000 / 1
  /\ equivalentSalary res = 50000 / 1 * 1
  /\ (currency c = "EUR" ->
      equivalentSalaryInEUR res = 50000 /\ equivalentSalary res = 50000).
Proof.
  intros d c.
  apply (C3_same_currency_same_index 50000 d d ∅ c 106 1); vm_compute; reflexivity.
Defined.

(** * The category comparator *)

(** C4. Every category gets one entry, in order and under its own id; the
    aggregate ['total'] category is compared on the overall price indices and
    the others on their category prices.  With both indices present and the
    source index not equal to zero, [percentageDiff] is
    [(toIndex / fromIndex - 1) * 100]; with an index missing or a source index
    equal to zero it is [0]. *)
Theorem C4_category_comparator
    (CATEGORIES : list ComparisonCategory) (fd td : CountryData) :
  priceLevelData CATEGORIES (Some fd) (Some td)
  = map (priceLevelEntry fd td) CATEGORIES
  /\ forall category,
      let entry := priceLevelEntry fd td category in
      categoryId entry = id category
      /\ (id category = "total" ->
          categoryIndex fd category = priceIndex fd
          /\ categoryIndex td category = priceIndex td)
      /\ (id category <> "total" ->
          categoryIndex fd category = categoryPrices fd !! id category
          /\ categoryIndex td category = categoryPrices td !! id category)
      /\ (forall fromIndex toIndex,
             categoryIndex fd category = Some fromIndex ->
             categoryIndex td category = Some toIndex ->
             (fromIndex =? 0) = false ->
             percentageDiff entry = (toIndex / fromIndex - 1) * 100)
      /\ (categoryIndex fd category = None
          \/ categoryIndex td category = None
          \/ (exists fromIndex,
                 categoryIndex fd category = Some fromIndex
                 /\ (fromIndex =? 0) = true) ->
          percentageDiff entry = 0).
Proof.
  split; [reflexivity |].
  intros category entry. subst entry. unfold priceLevelEntry, categoryIndex.
  destruct (String.eqb_spec (id category) "total") as [Et|Et].
  - split.
    { destruct (priceIndex fd) as [fi|], (priceIndex td) as [ti|]; try reflexivity.
      destruct (fi =? 0); reflexivity. }
    split; [auto |]. split; [contradiction |]. split.
    + intros fi ti -> -> Hnz. rewrite Hnz. reflexivity.
    + intros [->|[->|(fi & -> & Hz)]].
      * reflexivity.
      * destruct (priceIndex fd); reflexivity.
      * destruct (priceIndex td); [rewrite Hz|]; reflexivity.
  - split.
    { destruct (categoryPrices fd !! id category) as [fi|],
               (categoryPrices td !! id category) as [ti|]; try reflexivity.
      destruct (fi =? 0); reflexivity. }
    split; [intros E; contradiction |]. split; [auto |]. split.
    + intros fi ti -> -> Hnz. rewrite Hnz. reflexivity.
    + intros [->|[->|(fi & -> & Hz)]].
      * reflexivity.
      * destruct (categoryPrices fd !! id category); reflexivity.
      * destruct (categoryPrices td !! id category); [rewrite Hz|]; reflexivity.
Qed.

Lemma C4_category_comparator_witness :
  let cats := [ {| id := "total"; cat_name := "Total" |};
                {| id := "housing"; cat_name := "Housing" |};
                {| id := "food"; cat_name := "Food" |} ] in
  let fd := sampleData "IT" "EUR" 98 (<["housing" := 0]> (<["food" := 90]> ∅)) in
  let td := sampleData "DE" "EUR" 106 (<["housing" := 110]> (<["food" := 99]> ∅)) in
  map percentageDiff (priceLevelData cats (Some fd) (Some td))
  = [ (106 / 98 - 1) * 100; 0; (99 / 90 - 1) * 100 ].
Proof.
  intros cats fd td.
  destruct (C4_category_comparator cats fd td) as [-> Hcat].
  cbn [map cats].
  destruct (Hcat {| id := "total"; cat_name := "Total" |}) as (_ & _ & _ & Ht & _).
  destruct (Hcat {| id := "housing"; cat_name := "Housing" |}) as (_ & _ & _ & _ & Hh).
  destruct (Hcat {| id := "food"; cat_name := "Food" |}) as (_ & _ & _ & Hf & _).
  rewrite (Ht 98 106), (Hf 90 99), Hh; try (vm_compute; reflexivity).
  right. right. exists 0. vm_compute. split; reflexivity.
Defined.

(** * The exchange-rate loader *)

Section FetchRates.

Implicit Types (st : AppState) (today : string) (response : Response).

Lemma freshSnapshot_today today ls r :
  ls !! RATES_CACHE_KEY = Some (RatesItem today (Some r)) ->
  freshSnapshot today ls = Some r.
Proof.
  intros H. unfold freshSnapshot. rewrite H, String.eqb_refl. reflexivity.
Qed.

Lemma freshSnapshot_absent today ls :
  ls !! RATES_CACHE_KEY = None -> freshSnapshot today ls = None.
Proof. intros H. unfold freshSnapshot. now rewrite H. Qed.

Lemma freshSnapshot_stale today ls date rs :
  ls !! RATES_CACHE_KEY = Some (RatesItem date rs) -> date <> today ->
  freshSnapshot today ls = None.
Proof.
  intros H Hne. unfold freshSnapshot. rewrite H.
  destruct rs; [|reflexivity].
  destruct (String.eqb_spec date today); [contradiction | reflexivity].
Qed.

(** A failed fetch, and a fetch whose snapshot cannot be written, leave
    [rates] and [localStorage] as they were and raise [ratesError]. *)
Lemma fetchRates_failure today response st :
  freshSnapshot today (localStorage st) = None ->
  (forall data_rates, response <> Ok data_rates) ->
  let st' := fst (fetchRates today response st) in
  rates st' = rates st /\ ratesError st' = true
  /\ localStorage st' = localStorage st.
Proof.
  intros Hfresh Hfail. unfold fetchRates. rewrite Hfresh.
  destruct response; try (cbn; auto). now destruct (Hfail data_rates).
Qed.

Lemma jsonRates_lookup (r : Rates) cur : jsonRates r !! cur = r !! cur ≫= jsonNumber.
Proof. apply lookup_omap. Qed.

(** A table of finite rates goes through JSON unchanged. *)
Lemma jsonRates_finite (r : Rates) :
  (forall cur x, r !! cur = Some x -> isFinite x = true /\ isNegZero x = false) ->
  jsonRates r = r.
Proof.
  intros H. apply map_eq. intros cur. rewrite jsonRates_lookup.
  destruct (r !! cur) as [x|] eqn:E; [|reflexivity].
  destruct (H cur x E) as [Hfin Hz]. cbn. unfold jsonNumber.
  now rewrite Hfin, Hz.
Qed.

Lemma freshSnapshot_inv today ls r :
  freshSnapshot today ls = Some r ->
  ls !! RATES_CACHE_KEY = Some (RatesItem today (Some r)).
Proof.
  unfold freshSnapshot.
  destruct (ls !! RATES_CACHE_KEY) as [[|date [r'|]|monthKey d]|]; try discriminate.
  destruct (String.eqb_spec date today) as [->|]; [|discriminate].
  now intros [= ->].
Qed.

End FetchRates.

(** C5. A persisted snapshot dated today is applied as it is, without a
    network call and without touching [localStorage].  With no snapshot, or
    one dated another day, the network is called once; the fetched rates get
    the entry [EUR: 1], are persisted under today's date, and only then
    applied.  What is persisted is what JSON carries: every finite rate, the
    entry of EUR among them.  Where the request fails, or
    [localStorage.setItem] throws on the snapshot, the [catch] takes over
    before [setRates]: nothing is persisted, the rates stay as they were and
    the error flag is raised.  So on every call, whatever its outcome, rates
    that are applied stand in [localStorage] under today's date. *)
Theorem C5_fetchRates_cache_discipline
    (today : string) (response : Response) (st : AppState) :
  (forall r,
      localStorage st !! RATES_CACHE_KEY = Some (RatesItem today (Some r)) ->
      let st' := fst (fetchRates today response st) in
      let trace := snd (fetchRates today response st) in
      rates st' = Some r
      /\ ratesLastUpdated st' = Some today
      /\ isLoadingRates st' = false
      /\ localStorage st' = localStorage st
      /\ trace = [RatesApplied r]
      /\ count isNetworkCall trace = 0%nat)
  /\ ((localStorage st !! RATES_CACHE_KEY = None
       \/ exists date rs,
            localStorage st !! RATES_CACHE_KEY = Some (RatesItem date rs)
            /\ date <> today) ->
      let st' := fst (fetchRates today response st) in
      let trace := snd (fetchRates today response st) in
      count isNetworkCall trace = 1%nat
      /\ (forall data_rates,
             response = Ok data_rates ->
             let newRates : Rates := <["EUR" := 1]> (default ∅ data_rates) in
             let item := RatesItem today (Some (jsonRates newRates)) in
             trace = [NetworkCall RATES_URL; StorageWrite RATES_CACHE_KEY item;
                      RatesApplied newRates]
             /\ newRates !! "EUR" = Some 1
             /\ (forall cur, cur <> "EUR" ->
                             newRates !! cur = default ∅ data_rates !! cur)
             /\ localStorage st' !! RATES_CACHE_KEY = Some item
             /\ (forall cur x, newRates !! cur = Some x ->
                               jsonRates newRates !! cur = jsonNumber x)
             /\ jsonRates newRates !! "EUR" = Some 1
             /\ rates st' = Some newRates
             /\ ratesLastUpdated st' = Some today
             /\ ratesError st' = false)
      /\ ((forall data_rates, response <> Ok data_rates) ->
          trace = [NetworkCall RATES_URL]
          /\ localStorage st' = localStorage st
          /\ rates st' = rates st
          /\ ratesLastUpdated st' = ratesLastUpdated st
          /\ ratesError st' = true))
  /\ (forall r,
         In (RatesApplied r) (snd (fetchRates today response st)) ->
         let st' := fst (fetchRates today response st) in
         rates st' = Some r
         /\ (localStorage st' !! RATES_CACHE_KEY = Some (RatesItem today (Some r))
             \/ localStorage st' !! RATES_CACHE_KEY
                = Some (RatesItem today (Some (jsonRates r))))).
Proof.
  split; [|split].
  - intros r Hls st' trace. subst st' trace. unfold fetchRates.
    rewrite (freshSnapshot_today today _ r Hls). cbn. auto 10.
  - intros Hold st' trace. subst st' trace.
    assert (Hfresh : freshSnapshot today (localStorage st) = None).
    { destruct Hold as [H|(date & rs & H & Hne)];
        eauto using freshSnapshot_absent, freshSnapshot_stale. }
    unfold fetchRates. rewrite Hfresh. split; [|split].
    + destruct response; reflexivity.
    + intros data_rates ->. cbn -[jsonRates].
      split; [reflexivity |].
      split; [apply lookup_insert_eq |].
      split; [intros cur Hne; now apply lookup_insert_ne |].
      split; [apply lookup_insert_eq |].
      split; [intros cur x Hx; rewrite jsonRates_lookup, Hx; reflexivity |].
      split; [rewrite jsonRates_lookup, lookup_insert_eq; reflexivity |]. auto.
    + intros Hfail. destruct response; cbn; auto 6.
      now destruct (Hfail data_rates).
  - intros r. unfold fetchRates.
    destruct (freshSnapshot today (localStorage st)) as [r0|] eqn:Hfresh.
    + cbn. intros [[= <-]|[]]. split; [reflexivity |].
      left. apply freshSnapshot_inv, Hfresh.
    + destruct response; cbn -[jsonRates];
        try (intros [H|[]]; discriminate).
      intros [H|[H|[[= <-]|[]]]]; try discriminate.
      split; [reflexivity | right; apply lookup_insert_eq].
Qed.

Lemma C5_fetchRates_cache_discipline_witness :
  let kept : Rates := <["USD" := 1.17]> (<["EUR" := 1]> ∅) in
  let fetched : Rates := <["USD" := 1.18]> ∅ in
  let st1 := initialState "2026-10"
               (<[RATES_CACHE_KEY := RatesItem "2026-11-02" (Some kept)]> ∅) in
  let st2 := initialState "2026-10"
               (<[RATES_CACHE_KEY := RatesItem "2026-11-01" (Some kept)]> ∅) in
  snd (fetchRates "2026-11-02" (Ok (Some fetched)) st1) = [RatesApplied kept]
  /\ count isNetworkCall (snd (fetchRates "2026-11-02" (Ok (Some fetched)) st2))
     = 1%nat
  /\ rates (fst (fetchRates "2026-11-02" (OkWriteFails (Some fetched)) st2)) = None
  /\ rates (fst (fetchRates "2026-11-02" (Ok (Some fetched)) st2))
     = Some (<["EUR" := 1]> fetched).
Proof.
  intros kept fetched st1 st2.
  assert (Hstale : localStorage st2 !! RATES_CACHE_KEY = None
                   \/ exists date rs,
                        localStorage st2 !! RATES_CACHE_KEY = Some (RatesItem date rs)
                        /\ date <> "2026-11-02").
  { right. exists "2026-11-01", (Some kept). split; [reflexivity | discriminate]. }
  split; [|split; [|split]].
  - apply (proj1 (C5_fetchRates_cache_discipline "2026-11-02" (Ok (Some fetched)) st1)
             kept).
    reflexivity.
  - apply (proj1 (proj2 (C5_fetchRates_cache_discipline "2026-11-02"
                           (Ok (Some fetched)) st2))).
    exact Hstale.
  - destruct (proj1 (proj2 (C5_fetchRates_cache_discipline "2026-11-02"
                              (OkWriteFails (Some fetched)) st2)) Hstale)
      as (_ & _ & Hfail).
    destruct Hfail as (_ & _ & Hr & _); [discriminate | exact Hr].
  - apply (proj2 (proj2 (C5_fetchRates_cache_discipline "2026-11-02"
                           (Ok (Some fetched)) st2))
             (<["EUR" := 1]> fetched)).
    right. right. left. reflexivity.
Defined.

(** C6 at its failing input: a snapshot dated yesterday is persisted, the
    fetch fails.  The flag is raised, but the snapshot is not taken up:
    [rates] stays [null], and the comparison falls back to the zero result. *)
Lemma C6_failed_fetch_leaves_stale_snapshot_unused :
  let stale := RatesItem "2026-11-01" (Some (<["USD" := 1.17]> ∅)) in
  let st := initialState "2026-10" (<[RATES_CACHE_KEY := stale]> ∅) in
  let st' := fst (fetchRates "2026-11-02" NetworkFailure st) in
  let us := sampleData "US" "USD" 140 ∅ in
  let de := sampleData "DE" "EUR" 106 ∅ in
  ratesError st' = true
  /\ localStorage st' !! RATES_CACHE_KEY = Some stale
  /\ rates st' = None
  /\ equivalentSalaryMemo 50000 (Some de) (Some us) (rates st')
       (sampleCountry "DE" "EUR") (sampleCountry "US" "USD") = zeroResult.
Proof.
  intros stale st st' us de.
  assert (Hfresh : freshSnapshot "2026-11-02" (localStorage st) = None).
  { apply (freshSnapshot_stale _ _ "2026-11-01" (Some (<["USD" := 1.17]> ∅)));
      [apply lookup_insert_eq | discriminate]. }
  destruct (fetchRates_failure "2026-11-02" NetworkFailure st Hfresh)
    as (Hr & He & Hl); [discriminate |].
  fold st' in Hr, He, Hl. rewrite Hr, He, Hl.
  split; [reflexivity |]. split; [apply lookup_insert_eq |].
  split; reflexivity.
Qed.

(** * Ranges of the simulated indicators *)

Section Ranges.

Variable Math_sin : number -> number.
Hypothesis Hsin : sinInRange Math_sin.

(** The pseudo-random number lies between 0 and 1. *)
Lemma pseudoRandom_between seed : between 0 1 (pseudoRandom Math_sin seed).
Proof.
  unfold pseudoRandom. apply frac_between.
  assert (Hh : fin (of_Z (hashOf seed)) = true).
  { apply of_Z_value. pose proof (hashOf_range seed). lia. }
  assert (Hx : between (-10000) 10000 (Math_sin (of_Z (hashOf seed)) * 10000)).
  { apply (mul_between_abs 1 10000 10000);
      [vm_compute; reflexivity | vm_compute; reflexivity | vm_compute; reflexivity | |].
    - apply Hsin, Hh.
    - split; reflexivity. }
  apply (between_fin (-10000) 10000); [reflexivity | reflexivity | exact Hx].
Qed.

(** [getVar] stays within its range. *)
Lemma getVar_between seed salt range dbl :
  fin range && fin dbl && fin (- range) = true ->
  ((V 1 * V range <=? V range * 2 ^ 1074) && (V range * V 2 <=? V dbl * 2 ^ 1074)
   && (0 <=? V range) && (V dbl - V range <=? V range))%Z = true ->
  between (- range) range (getVar Math_sin seed salt range).
Proof.
  intros Hfin Hside. unfold getVar.
  apply andb_true_iff in Hfin as [Hfin Fn]. apply andb_true_iff in Hfin as [Fr Fd].
  apply andb_true_iff in Hside as [Hside Hs4].
  apply andb_true_iff in Hside as [Hside Hs3].
  apply andb_true_iff in Hside as [Hs1 Hs2].
  assert (F1 : fin 1 = true) by reflexivity.
  assert (F2 : fin 2 = true) by reflexivity.
  assert (F0 : fin 0 = true) by reflexivity.
  assert (Hstep1 : between 0 range (pseudoRandom Math_sin (seed +:+ salt) * range)).
  { apply (mul_between_nonneg 1 range range).
    - now rewrite F1, Fr.
    - exact Hs1.
    - apply pseudoRandom_between.
    - apply between_iff; auto. split; [assumption |].
      apply Z.leb_le in Hs3. change (V 0) with 0%Z. lia. }
  assert (Hstep2 : between 0 dbl (pseudoRandom Math_sin (seed +:+ salt) * range * 2)).
  { apply (mul_between_nonneg range 2 dbl).
    - now rewrite Fr, F2, Fd.
    - exact Hs2.
    - exact Hstep1.
    - split; reflexivity. }
  apply (sub_between 0 dbl range range).
  - now rewrite F0, Fd, Fr, Fn.
  - rewrite Hs4, andb_true_r. apply Z.leb_le.
    destruct (opp_V range) as [_ Ho]. rewrite Ho. change (V 0) with 0%Z. lia.
  - exact Hstep2.
  - apply between_iff; auto. split; [assumption | lia].
Qed.

End Ranges.

Ltac side := vm_compute; reflexivity.
Ltac const_between := split; reflexivity.

(** C7. For every country code, known to the table of profiles or not, and
    whatever the categories, every quality-of-life indicator the generator
    produces lies in a fixed range: the unemployment rate in [2, 14], life
    expectancy in [70, 85], the safety index in [40, 90], the health-care
    index in [40, 90], the pollution index in [20, 90] and the
    property-price-to-income ratio in [5, 14].  The host's [Math.sin] is
    taken to return a number between [-1] and [1] on finite arguments. *)
Theorem C7_quality_of_life_in_range
    (Math_sin : number -> number) (CATEGORIES : list ComparisonCategory)
    (country : SelectableCountry) :
  sinInRange Math_sin ->
  let q := g_qualityOfLife (generateSimulatedCountryData Math_sin CATEGORIES country) in
  between 2 14 (value (unemploymentRate q))
  /\ between 70 85 (value (lifeExpectancy q))
  /\ between 40 90 (value (safetyIndex q))
  /\ between 40 90 (value (healthCareIndex q))
  /\ between 20 90 (value (pollutionIndex q))
  /\ between 5 14 (value (propertyPriceToIncomeRatio q)).
Proof.
  intros Hsin q. subst q. cbn [generateSimulatedCountryData g_qualityOfLife
    unemploymentRate lifeExpectancy safetyIndex healthCareIndex pollutionIndex
    propertyPriceToIncomeRatio value].
  set (seed := code country).
  set (idx := toNumber (index (profileOf seed))).
  assert (G4 : forall salt, between (-4) 4 (getVar Math_sin seed salt 4))
    by (intros; apply (getVar_between Math_sin Hsin seed salt 4 8); side).
  assert (G10 : forall salt, between (-10) 10 (getVar Math_sin seed salt 10))
    by (intros; apply (getVar_between Math_sin Hsin seed salt 10 20); side).
  assert (G15 : forall salt, between (-15) 15 (getVar Math_sin seed salt 15))
    by (intros; apply (getVar_between Math_sin Hsin seed salt 15 30); side).
  split; [|split; [|split; [|split; [|split]]]].
  - apply (Math_max_between 2 1 14 14); [side | side |].
    apply (add_between 1 9 0 5 1 14); [side | side | |].
    + apply (add_between 5 5 (-4) 4 1 9); [side | side | const_between | apply G4].
    + destruct (idx <? 70); const_between.
  - apply (Math_min_between 85 70 70 85); [side | side |].
    apply (Math_max_between 70 72 85 85); [side | side |].
    apply (add_between 74 82 (-2) 3 72 85); [side | side | |].
    + apply (add_between 78 78 (-4) 4 74 82); [side | side | const_between | apply G4].
    + destruct (100 <? idx); const_between.
  - apply (Math_min_between 90 40 40 90); [side | side |].
    apply (Math_max_between 40 50 90 90); [side | side |].
    apply (add_between 50 80 0 10 50 90); [side | side | |].
    + apply (add_between 65 65 (-15) 15 50 80); [side | side | const_between | apply G15].
    + destruct (120 <? idx); const_between.
  - apply (Math_min_between 90 40 40 90); [side | side |].
    apply (Math_max_between 40 53 86 90); [side | side |].
    apply (add_between 58 78 (-5) 8 53 86); [side | side | |].
    + apply (add_between 68 68 (-10) 10 58 78); [side | side | const_between | apply G10].
    + destruct (100 <? idx); const_between.
  - apply (Math_min_between 90 20 20 90); [side | side |].
    apply (Math_max_between 20 15 65 90); [side | side |].
    apply (sub_between 25 55 (-10) 10 15 65); [side | side | |].
    + apply (add_between 40 40 (-15) 15 25 55); [side | side | const_between | apply G15].
    + destruct (100 <? idx); const_between.
  - apply (Math_max_between 5 6 14 14); [side | side |].
    apply (add_between 10 10 (-4) 4 6 14); [side | side | const_between | apply G4].
Qed.

Lemma C7_quality_of_life_in_range_witness :
  let square : number -> number := fun y => if y <? 0 then -1 else 1 in
  let q := g_qualityOfLife
             (generateSimulatedCountryData square [] (sampleCountry "XX" "EUR")) in
  between 2 14 (value (unemploymentRate q))
  /\ between 70 85 (value (lifeExpectancy q))
  /\ between 40 90 (value (safetyIndex q))
  /\ between 40 90 (value (healthCareIndex q))
  /\ between 20 90 (value (pollutionIndex q))
  /\ between 5 14 (value (propertyPriceToIncomeRatio q)).
Proof.
  intros square.
  apply (C7_quality_of_life_in_range square [] (sampleCountry "XX" "EUR")).
  intros y _. unfold square. destruct (y <? 0); split; reflexivity.
Defined.

(** * The country-data loader *)

Section CountryLoader.

Variable Math_sin : number -> number.
Variable CATEGORIES : list ComparisonCategory.
Variable SELECTABLE_COUNTRIES : list SelectableCountry.

Local Abbreviation begin := (fetchCountryData_begin SELECTABLE_COUNTRIES).
Local Abbreviation resume := (fetchCountryData_resume Math_sin CATEGORIES).
Local Abbreviation generate := (generateSimulatedCountryData Math_sin CATEGORIES).

Lemma stripPrefix_spec p key c :
  stripPrefix p key = Some c <-> key = p +:+ c.
Proof.
  revert key. induction p as [|a p IH]; intros key.
  - change (Some key = Some c <-> key = c). split; congruence.
  - change (String a p +:+ c) with (String a (p +:+ c)).
    destruct key as [|b key]; [split; discriminate |]. simpl.
    destruct (Ascii.eqb_spec a b) as [->|Hne].
    + rewrite IH. split; congruence.
    + split; [discriminate | congruence].
Qed.

Lemma stripPrefix_append p c : stripPrefix p (p +:+ c) = Some c.
Proof. now apply stripPrefix_spec. Qed.

Lemma append_inj_r p c1 c2 : p +:+ c1 = p +:+ c2 -> c1 = c2.
Proof.
  induction p as [|a p IH]; intros H; [exact H |].
  change (String a (p +:+ c1) = String a (p +:+ c2)) in H.
  injection H; auto.
Qed.

(** What the initialiser takes over from [localStorage], entry by entry. *)
Lemma initCache_lookup currentMonthKey ls c :
  initCache currentMonthKey ls !! c
  = match ls !! (DATA_KEY_PREFIX +:+ c) with
    | Some (DataItem monthKey (Some d)) =>
        if String.eqb monthKey currentMonthKey then Some d else None
    | _ => None
    end.
Proof.
  unfold initCache. revert c.
  apply (map_fold_weak_ind
           (fun r m => forall c,
                r !! c = match m !! (DATA_KEY_PREFIX +:+ c) with
                         | Some (DataItem monthKey (Some d)) =>
                             if String.eqb monthKey currentMonthKey
                             then Some d else None
                         | _ => None
                         end)).
  - intros c. now rewrite !lookup_empty.
  - intros i x m r Hi IH c.
    destruct (stripPrefix DATA_KEY_PREFIX i) as [c0|] eqn:Hstrip.
    + apply stripPrefix_spec in Hstrip. subst i.
      destruct (decide (c = c0)) as [->|Hne].
      * rewrite lookup_insert_eq.
        destruct x as [|date rs|monthKey [d|]];
          try (rewrite IH, Hi; reflexivity).
        destruct (String.eqb monthKey currentMonthKey);
          [apply lookup_insert_eq | rewrite IH, Hi; reflexivity].
      * rewrite (lookup_insert_ne m) by (intros E; apply append_inj_r in E; auto).
        destruct x as [|date rs|monthKey [d|]]; try apply IH.
        destruct (String.eqb monthKey currentMonthKey); [|apply IH].
        rewrite lookup_insert_ne by auto. apply IH.
    + rewrite lookup_insert_ne; [destruct x; apply IH |].
      intros ->. rewrite stripPrefix_append in Hstrip. discriminate.
Qed.


Lemma begin_unguarded currentMonthKey c st country :
  cacheRef st !! c = None -> c ∉ fetchingRef st ->
  List.find (fun x => String.eqb (code x) c) SELECTABLE_COUNTRIES = Some country ->
  exists st1,
    begin currentMonthKey c st
    = (st1,
       Some {| p_countryCode := c; p_country := country;
               p_monthKey := currentMonthKey |},
       [Generate c])
    /\ c ∈ fetchingRef st1
    /\ cacheRef st1 = cacheRef st
    /\ countryDataCache st1 = countryDataCache st
    /\ localStorage st1 = localStorage st.
Proof.
  intros Hc Hf Hfind. unfold fetchCountryData_begin.
  rewrite bool_decide_eq_false_2 by (rewrite Hc; intros [? ?]; discriminate).
  rewrite (bool_decide_eq_false_2 _ Hf), Hfind. cbn.
  eexists. split; [reflexivity |]. cbn. repeat split. set_solver.
Qed.

(** A suspended call, whatever state it started from, is determined by
    the code and the month. *)
Lemma begin_pending currentMonthKey c st st1 p ev :
  begin currentMonthKey c st = (st1, Some p, ev) ->
  exists country,
    List.find (fun x => String.eqb (code x) c) SELECTABLE_COUNTRIES = Some country
    /\ p = {| p_countryCode := c; p_country := country;
              p_monthKey := currentMonthKey |}
    /\ ev = [Generate c]
    /\ cacheRef st !! c = None /\ c ∉ fetchingRef st.
Proof.
  unfold fetchCountryData_begin.
  destruct (bool_decide (is_Some (cacheRef st !! c))) eqn:Hc;
    [discriminate |].
  destruct (bool_decide (c ∈ fetchingRef st)) eqn:Hf; [discriminate |].
  destruct (List.find _ _) as [country|]; [|discriminate].
  cbn. intros [= <- <- <-]. exists country.
  apply bool_decide_eq_false_1 in Hc, Hf.
  repeat split; auto.
  destruct (cacheRef st !! c) eqn:E; [|reflexivity].
  exfalso. apply Hc. eauto.
Qed.

(** The generated part depends on the country through its code alone. *)
Lemma generate_code_only country1 country2 :
  code country1 = code country2 -> generate country1 = generate country2.
Proof.
  intros H. unfold generateSimulatedCountryData. now rewrite H.
Qed.

Lemma to_int32_mod a b :
  (a mod 2 ^ 32 = b mod 2 ^ 32)%Z -> to_int32 a = to_int32 b.
Proof.
  intros H. unfold to_int32.
  rewrite (Z.add_mod a), (Z.add_mod b), H by lia. reflexivity.
Qed.

Lemma to_int32_eqm a : (to_int32 a mod 2 ^ 32 = a mod 2 ^ 32)%Z.
Proof.
  unfold to_int32.
  rewrite Zminus_mod, Zmod_mod, <- Zminus_mod.
  f_equal. lia.
Qed.

Lemma hashStep_poly h P c :
  h = to_int32 P -> hashStep h c = to_int32 (31 * P + c).
Proof.
  intros ->. unfold hashStep. apply to_int32_mod.
  rewrite Z.add_mod, Zminus_mod, !to_int32_eqm by lia.
  rewrite (Z.mul_mod (to_int32 P)), to_int32_eqm by lia.
  rewrite <- Z.mul_mod, <- Zminus_mod, <- Z.add_mod by lia.
  f_equal. lia.
Qed.

(** The hash is the rolling polynomial hash, wrapped to 32 bits. *)
Lemma hashOf_polyHash seed :
  hashOf seed = to_int32 (polyHash (charCodes seed)).
Proof.
  unfold hashOf, polyHash.
  assert (H : forall codes h P,
             h = to_int32 P ->
             fold_left hashStep codes h
             = to_int32 (fold_left (fun h c => (31 * h + c)%Z) codes P)).
  { induction codes as [|c codes IH]; intros h P Hh; simpl; [assumption |].
    apply IH. now apply hashStep_poly. }
  apply H. reflexivity.
Qed.


Lemma outstanding_single c p :
  length (List.filter (isFor c) [p])
  = (if String.eqb (p_countryCode p) c then 1 else 0)%nat.
Proof. simpl. unfold isFor. destruct (String.eqb _ _); reflexivity. Qed.

Lemma takeFirst_spec c ps p rest :
  takeFirst c ps = Some (p, rest) ->
  p_countryCode p = c
  /\ forall c', length (List.filter (isFor c') ps)
                = (length (List.filter (isFor c') rest)
                   + (if String.eqb c c' then 1 else 0))%nat.
Proof.
  revert p rest. induction ps as [|q ps IH]; intros p rest; simpl; [discriminate |].
  destruct (isFor c q) eqn:Hq.
  - intros [= <- <-]. apply String.eqb_eq in Hq. split; [exact Hq |].
    intros c'. unfold isFor at 1. rewrite Hq.
    destruct (String.eqb c c'); simpl; lia.
  - destruct (takeFirst c ps) as [[q' rest']|]; [|discriminate].
    intros [= <- <-]. destruct (IH q' rest' eq_refl) as [Hc Hlen].
    split; [exact Hc |]. intros c'. simpl. specialize (Hlen c').
    destruct (isFor c' q); simpl; lia.
Qed.


Lemma marker_insert (c c0 : string) (F : gset string) :
  c0 ∉ F ->
  (if bool_decide (c ∈ {[c0]} ∪ F) then 1 else 0)%nat
  = ((if bool_decide (c ∈ F) then 1 else 0) + (if String.eqb c0 c then 1 else 0))%nat.
Proof.
  intros Hf. destruct (String.eqb_spec c0 c) as [->|Hne].
  - assert (Hin : c ∈ {[c]} ∪ F) by (apply elem_of_union_l, elem_of_singleton_2; reflexivity).
    rewrite (bool_decide_eq_true_2 _ Hin), (bool_decide_eq_false_2 _ Hf). reflexivity.
  - destruct (bool_decide (c ∈ F)) eqn:E.
    + apply bool_decide_eq_true_1 in E.
      assert (Hin : c ∈ {[c0]} ∪ F) by (apply elem_of_union_r, E).
      rewrite (bool_decide_eq_true_2 _ Hin). reflexivity.
    + apply bool_decide_eq_false_1 in E.
      assert (Hout : c ∉ {[c0]} ∪ F).
      { intros [H%elem_of_singleton_1|H]%elem_of_union; [congruence | exact (E H)]. }
      rewrite (bool_decide_eq_false_2 _ Hout). reflexivity.
Qed.

Lemma marker_delete (c c0 : string) (F : gset string) :
  ((if bool_decide (c ∈ F ∖ {[c0]}) then 1 else 0)
   + (if String.eqb c0 c then (if bool_decide (c ∈ F) then 1 else 0) else 0))%nat
  = (if bool_decide (c ∈ F) then 1 else 0)%nat.
Proof.
  destruct (String.eqb_spec c0 c) as [->|Hne].
  - assert (Hout : c ∉ F ∖ {[c]}).
    { intros [_ H]%elem_of_difference. apply H, elem_of_singleton_2. reflexivity. }
    rewrite (bool_decide_eq_false_2 _ Hout). reflexivity.
  - destruct (bool_decide (c ∈ F)) eqn:E.
    + apply bool_decide_eq_true_1 in E.
      assert (Hin : c ∈ F ∖ {[c0]}).
      { apply elem_of_difference. split; [exact E |].
        intros H%elem_of_singleton_1. congruence. }
      rewrite (bool_decide_eq_true_2 _ Hin). reflexivity.
    + apply bool_decide_eq_false_1 in E.
      assert (Hout : c ∉ F ∖ {[c0]}) by (intros [H _]%elem_of_difference; exact (E H)).
      rewrite (bool_decide_eq_false_2 _ Hout). reflexivity.
Qed.











End CountryLoader.

(** C8. Generation is a function of the country code.  Two calls of
    [fetchCountryData] for one code in one month, from whatever states they
    start, suspend on the same request and write the very same items; the
    generated part is the same for any two countries of one code; and the
    pseudo-random number is a function of the seed alone: the polynomial hash
    [31 * h + c] wrapped to 32 bits, its sine times 10000, and the fractional
    part of that. *)
Theorem C8_generation_is_deterministic
    (Math_sin : number -> number) (CATEGORIES : list ComparisonCategory)
    (SELECTABLE_COUNTRIES : list SelectableCountry) :
  (forall currentMonthKey c st1 st2 st1' st2' p1 p2 ev1 ev2,
      fetchCountryData_begin SELECTABLE_COUNTRIES currentMonthKey c st1
      = (st1', Some p1, ev1) ->
      fetchCountryData_begin SELECTABLE_COUNTRIES currentMonthKey c st2
      = (st2', Some p2, ev2) ->
      p1 = p2
      /\ snd (fetchCountryData_resume Math_sin CATEGORIES p1 st1')
         = snd (fetchCountryData_resume Math_sin CATEGORIES p2 st2'))
  /\ (forall country1 country2,
         code country1 = code country2 ->
         generateSimulatedCountryData Math_sin CATEGORIES country1
         = generateSimulatedCountryData Math_sin CATEGORIES country2)
  /\ (forall seed,
         pseudoRandom Math_sin seed
         = let hash := to_int32 (polyHash (charCodes seed)) in
           let x := Math_sin (of_Z hash) * 10000 in
           x - Math_floor x).
Proof.
  split; [|split].
  - intros mk c st1 st2 st1' st2' p1 p2 ev1 ev2 H1 H2.
    apply begin_pending in H1 as (country1 & Hf1 & -> & _).
    apply begin_pending in H2 as (country2 & Hf2 & -> & _).
    rewrite Hf1 in Hf2. injection Hf2 as <-. split; reflexivity.
  - apply generate_code_only.
  - intros seed. unfold pseudoRandom. now rewrite hashOf_polyHash.
Qed.

Lemma C8_generation_is_deterministic_witness :
  let it := sampleCountry "IT" "EUR" in
  let cats := [ {| id := "total"; cat_name := "Total" |};
                {| id := "housing"; cat_name := "Housing" |} ] in
  let sin0 : number -> number := fun _ => 0.5 in
  let st1 := initialState "2026-10" ∅ in
  let st2 := initialState "2026-10"
               (<[RATES_CACHE_KEY := RatesItem "2026-11-02" (Some ∅)]> ∅) in
  generateSimulatedCountryData sin0 cats it
  = generateSimulatedCountryData sin0 cats (sampleCountry "IT" "ITL")
  /\ forall st1' st2' p1 p2 ev1 ev2,
      fetchCountryData_begin [it] "2026-10" "IT" st1 = (st1', Some p1, ev1) ->
      fetchCountryData_begin [it] "2026-10" "IT" st2 = (st2', Some p2, ev2) ->
      p1 = p2.
Proof.
  intros it cats sin0 st1 st2.
  destruct (C8_generation_is_deterministic sin0 cats [it]) as (Hrun & Hgen & _).
  split.
  - apply Hgen. reflexivity.
  - intros st1' st2' p1 p2 ev1 ev2 H1 H2.
    exact (proj1 (Hrun "2026-10" "IT" st1 st2 st1' st2' p1 p2 ev1 ev2 H1 H2)).
Defined.




(** C10. The month enters the persisted item as its tag and nothing else.
    Two calls of [fetchCountryData] for one code in any two months cache the
    same data and persist it under the two tags; and when a new month finds
    the item of an earlier month, the initialiser passes it by and the next
    request writes the data it held once more. *)
Theorem C10_data_independent_of_month
    (Math_sin : number -> number) (CATEGORIES : list ComparisonCategory)
    (SELECTABLE_COUNTRIES : list SelectableCountry)
    (month1 month2 c : string) (st1 st2 st1' st2' : AppState)
    (p1 p2 : Pending) (ev1 ev2 : list Event) :
  fetchCountryData_begin SELECTABLE_COUNTRIES month1 c st1 = (st1', Some p1, ev1) ->
  fetchCountryData_begin SELECTABLE_COUNTRIES month2 c st2 = (st2', Some p2, ev2) ->
  let done1 := fst (fetchCountryData_resume Math_sin CATEGORIES p1 st1') in
  let done2 := fst (fetchCountryData_resume Math_sin CATEGORIES p2 st2') in
  let key := DATA_KEY_PREFIX +:+ c in
  exists d,
    countryDataCache done1 !! c = Some d
    /\ countryDataCache done2 !! c = Some d
    /\ localStorage done1 !! key = Some (DataItem month1 (Some d))
    /\ localStorage done2 !! key = Some (DataItem month2 (Some d))
    /\ (month1 <> month2 ->
        let fresh := initialState month2 (localStorage done1) in
        countryDataCache fresh !! c = None
        /\ exists again p,
            fetchCountryData_begin SELECTABLE_COUNTRIES month2 c fresh
            = (again, Some p, [Generate c])
            /\ localStorage
                 (fst (fetchCountryData_resume Math_sin CATEGORIES p again)) !! key
               = Some (DataItem month2 (Some d))).
Proof.
  intros H1 H2 done1 done2 key.
  apply begin_pending in H1 as (country1 & Hf1 & -> & _).
  apply begin_pending in H2 as (country2 & Hf2 & -> & _).
  pose proof Hf1 as Hfind. rewrite Hf1 in Hf2. injection Hf2 as <-.
  exists (fullData (generateSimulatedCountryData Math_sin CATEGORIES country1) country1).
  subst done1 done2 key. cbn -[String.append].
  rewrite !lookup_insert_eq. do 4 (split; [reflexivity |]).
  intros Hne.
  set (d := fullData (generateSimulatedCountryData Math_sin CATEGORIES country1)
              country1).
  set (ls := <[DATA_KEY_PREFIX +:+ c := DataItem month1 (Some d)]> (localStorage st1')).
  assert (Hnone : initCache month2 ls !! c = None).
  { subst ls. rewrite initCache_lookup, lookup_insert_eq.
    destruct (String.eqb_spec month1 month2); [contradiction | reflexivity]. }
  split; [exact Hnone |].
  destruct (begin_unguarded SELECTABLE_COUNTRIES month2 c (initialState month2 ls)
              country1) as (again & Hbegin & _); auto.
  { apply not_elem_of_empty. }
  exists again, {| p_countryCode := c; p_country := country1; p_monthKey := month2 |}.
  split; [exact Hbegin |]. cbn -[String.append]. apply lookup_insert_eq.
Qed.

Lemma C10_data_independent_of_month_witness :
  let it := sampleCountry "IT" "EUR" in
  let cats := [ {| id := "total"; cat_name := "Total" |};
                {| id := "housing"; cat_name := "Housing" |} ] in
  let sin0 : number -> number := fun _ => 0.5 in
  let start1 := initialState "2026-9" ∅ in
  let start2 := initialState "2026-10" ∅ in
  let p1 := {| p_countryCode := "IT"; p_country := it; p_monthKey := "2026-9" |} in
  let p2 := {| p_countryCode := "IT"; p_country := it; p_monthKey := "2026-10" |} in
  exists st1' st2' d,
    countryDataCache (fst (fetchCountryData_resume sin0 cats p1 st1')) !! "IT" = Some d
    /\ countryDataCache (fst (fetchCountryData_resume sin0 cats p2 st2')) !! "IT" = Some d.
Proof.
  intros it cats sin0 start1 start2 p1 p2.
  destruct (begin_unguarded [it] "2026-9" "IT" start1 it) as (st1' & H1 & _);
    [reflexivity | apply not_elem_of_empty | reflexivity |].
  destruct (begin_unguarded [it] "2026-10" "IT" start2 it) as (st2' & H2 & _);
    [reflexivity | apply not_elem_of_empty | reflexivity |].
  destruct (C10_data_independent_of_month sin0 cats [it] "2026-9" "2026-10" "IT"
              start1 start2 st1' st2' p1 p2 _ _ H1 H2) as (d & Hd1 & Hd2 & _).
  exists st1', st2', d. split; assumption.
Defined.

(** * The loader under every schedule *)

Section Schedules.

Variable Math_sin : number -> number.
Variable CATEGORIES : list ComparisonCategory.
Variable SELECTABLE_COUNTRIES : list SelectableCountry.

Local Abbreviation do_move := (move Math_sin CATEGORIES SELECTABLE_COUNTRIES).
Local Abbreviation do_play := (play Math_sin CATEGORIES SELECTABLE_COUNTRIES).
Local Abbreviation reach := (reachable Math_sin CATEGORIES SELECTABLE_COUNTRIES).
Local Abbreviation generated := (generatedFor Math_sin CATEGORIES SELECTABLE_COUNTRIES).

Lemma takeFirst_Forall (P : Pending -> Prop) c ps p rest :
  takeFirst c ps = Some (p, rest) -> Forall P ps -> P p /\ Forall P rest.
Proof.
  revert p rest. induction ps as [|q ps IH]; intros p rest; simpl; [discriminate |].
  intros Ht Hall. apply Forall_cons in Hall as [Hq Hps].
  destruct (isFor c q).
  - injection Ht as <- <-. auto.
  - destruct (takeFirst c ps) as [[q' rest']|]; [|discriminate].
    injection Ht as <- <-. destruct (IH q' rest' eq_refl Hps) as [Hp Hrest].
    split; [exact Hp |]. apply Forall_cons. auto.
Qed.

(** What a request does to the system: nothing, or one more suspended call. *)
Lemma request_cases sys mk c0 :
  step Math_sin CATEGORIES SELECTABLE_COUNTRIES sys (Request mk c0) = sys
  \/ (exists country,
      findCountry SELECTABLE_COUNTRIES c0 = Some country
      /\ cacheRef (app sys) !! c0 = None /\ (c0 ∉ fetchingRef (app sys))
      /\ step Math_sin CATEGORIES SELECTABLE_COUNTRIES sys (Request mk c0)
         = {| app :=
                {| rates := rates (app sys);
                   ratesLastUpdated := ratesLastUpdated (app sys);
                   isLoadingRates := isLoadingRates (app sys);
                   ratesError := ratesError (app sys);
                   countryDataCache := countryDataCache (app sys);
                   cacheRef := cacheRef (app sys);
                   fetchingRef := {[c0]} ∪ fetchingRef (app sys);
                   isLoadingData := <[c0 := true]> (isLoadingData (app sys));
                   dataError := <[c0 := None]> (dataError (app sys));
                   localStorage := localStorage (app sys) |};
              suspended := suspended sys
                           ++ [{| p_countryCode := c0; p_country := country;
                                  p_monthKey := mk |}];
              log := log sys ++ [Generate c0] |}).
Proof.
  unfold step, fetchCountryData_begin, findCountry.
  destruct (bool_decide (is_Some (cacheRef (app sys) !! c0))) eqn:Hc.
  { left. destruct sys; cbn. now rewrite !app_nil_r. }
  destruct (bool_decide (c0 ∈ fetchingRef (app sys))) eqn:Hf.
  { left. destruct sys; cbn. now rewrite !app_nil_r. }
  cbn [orb].
  destruct (List.find _ SELECTABLE_COUNTRIES) as [country|] eqn:Hfind.
  - right. exists country. split; [reflexivity |].
    apply bool_decide_eq_false_1 in Hc. apply bool_decide_eq_false_1 in Hf.
    split; [|split; [exact Hf | reflexivity]].
    destruct (cacheRef (app sys) !! c0) eqn:E; [|reflexivity].
    exfalso. apply Hc. eauto.
  - left. destruct sys; cbn. now rewrite !app_nil_r.
Qed.

Lemma elem_of_marker_insert (c c0 : string) (F : gset string) :
  c ∈ {[c0]} ∪ F <-> c = c0 \/ c ∈ F.
Proof. rewrite elem_of_union, elem_of_singleton. reflexivity. Qed.

Lemma elem_of_marker_delete (c c0 : string) (F : gset string) :
  c ∈ F ∖ {[c0]} <-> c ∈ F /\ c <> c0.
Proof. rewrite elem_of_difference, elem_of_singleton. reflexivity. Qed.

Lemma reachable_request init sys mk c0 :
  reach init sys ->
  reach init (step Math_sin CATEGORIES SELECTABLE_COUNTRIES sys (Request mk c0)).
Proof.
  intros [Hwf Hinv].
  destruct (request_cases sys mk c0) as [->|(country & Hfind & Hc & Hf & ->)];
    [split; assumption |].
  split.
  - cbn [suspended]. apply Forall_app. split; [exact Hwf |].
    apply Forall_cons. split; [exact Hfind | apply Forall_nil; exact I].
  - intros c. destruct (Hinv c) as (H1 & H2 & H3).
    unfold outstanding in *. cbn [app suspended fetchingRef isLoadingData
                                  countryDataCache cacheRef].
    split; [|split].
    + rewrite List.filter_app, length_app, outstanding_single. cbn [p_countryCode].
      rewrite (marker_insert c c0 _ Hf). lia.
    + rewrite elem_of_marker_insert.
      destruct (decide (c = c0)) as [->|Hne].
      * rewrite lookup_insert_eq. tauto.
      * rewrite lookup_insert_ne by congruence. rewrite H2. tauto.
    + destruct (init !! c) as [d|] eqn:Hi.
      * destruct H3 as (Ha & Hb & Hc').
        split; [exact Ha |]. split; [exact Hb |].
        rewrite elem_of_marker_insert. intros [->|Hin]; [congruence | auto].
      * exact H3.
Qed.

Lemma reachable_refresh init sys :
  reach init sys ->
  reach init (step Math_sin CATEGORIES SELECTABLE_COUNTRIES sys RefreshMirror).
Proof.
  intros [Hwf Hinv]. split; [exact Hwf |].
  intros c. destruct (Hinv c) as (H1 & H2 & H3).
  unfold outstanding in *. cbn. split; [exact H1 |]. split; [exact H2 |].
  destruct (init !! c) as [d|].
  - destruct H3 as (Ha & Hb & Hc'). auto.
  - destruct H3 as [Ha Hb]. split; [exact Ha | right; reflexivity].
Qed.

(** A suspended call can only be for a code that was not restored from
    storage. *)
Lemma taken_not_restored init sys c0 p rest :
  reach init sys ->
  takeFirst c0 (suspended sys) = Some (p, rest) ->
  p_countryCode p = c0
  /\ findCountry SELECTABLE_COUNTRIES c0 = Some (p_country p)
  /\ c0 ∈ fetchingRef (app sys)
  /\ init !! c0 = None
  /\ Forall (fun p => findCountry SELECTABLE_COUNTRIES (p_countryCode p)
                      = Some (p_country p)) rest.
Proof.
  intros [Hwf Hinv] Ht.
  destruct (takeFirst_spec _ _ _ _ Ht) as [Hp Hlen].
  destruct (takeFirst_Forall _ _ _ _ _ Ht Hwf) as [Hfind Hrest].
  destruct (Hinv c0) as (H1 & _ & H3).
  unfold outstanding in H1. rewrite (Hlen c0), String.eqb_refl in H1.
  assert (Hin : c0 ∈ fetchingRef (app sys)).
  { destruct (bool_decide (c0 ∈ fetchingRef (app sys))) eqn:E;
      [apply bool_decide_eq_true_1 in E; exact E | lia]. }
  split; [exact Hp |]. split; [rewrite <- Hp; exact Hfind |].
  split; [exact Hin |]. split; [|exact Hrest].
  destruct (init !! c0); [|reflexivity]. destruct H3 as (_ & _ & Hout). contradiction.
Qed.

Lemma reachable_complete init sys c0 :
  reach init sys ->
  reach init (step Math_sin CATEGORIES SELECTABLE_COUNTRIES sys (Complete c0)).
Proof.
  intros Hr. pose proof Hr as [Hwf Hinv]. unfold step.
  destruct (takeFirst c0 (suspended sys)) as [[p rest]|] eqn:Ht; [|exact Hr].
  destruct (taken_not_restored _ _ _ _ _ Hr Ht) as (Hp & Hfind & Hin & Hinit & Hrest).
  destruct (takeFirst_spec _ _ _ _ Ht) as [_ Hlen].
  unfold fetchCountryData_resume. rewrite Hp.
  split; [exact Hrest |].
  intros c. destruct (Hinv c) as (H1 & H2 & H3).
  unfold outstanding in *.
  cbn [app suspended fetchingRef isLoadingData countryDataCache cacheRef].
  split; [|split].
  - specialize (Hlen c). rewrite Hlen in H1.
    pose proof (marker_delete c c0 (fetchingRef (app sys))) as Hm.
    destruct (String.eqb c0 c), (bool_decide (c ∈ fetchingRef (app sys)));
      cbv iota in *; lia.
  - rewrite elem_of_marker_delete.
    destruct (decide (c = c0)) as [->|Hne].
    + rewrite lookup_insert_eq. split; [discriminate | tauto].
    + rewrite lookup_insert_ne by congruence. rewrite H2. tauto.
  - destruct (decide (c = c0)) as [->|Hne].
    + rewrite Hinit in *. rewrite lookup_insert_eq.
      assert (Hgen : generated c0
                     = Some (fullData (generateSimulatedCountryData Math_sin
                                         CATEGORIES (p_country p)) (p_country p))).
      { unfold generatedFor. rewrite Hfind. reflexivity. }
      destruct H3 as [Ha Hb]. split; [right; symmetry; exact Hgen |].
      destruct Hb as [Hb|Hb]; [left; exact Hb |].
      destruct Ha as [Ha|Ha].
      * left. rewrite Hb. exact Ha.
      * right. rewrite Hb, Ha. exact Hgen.
    + rewrite lookup_insert_ne by congruence.
      destruct (init !! c) as [d|]; [|exact H3].
      destruct H3 as (Ha & Hb & Hc'). split; [exact Ha |]. split; [exact Hb |].
      rewrite elem_of_marker_delete. tauto.
Qed.

Lemma reachable_fail init sys c0 :
  reach init sys -> reach init (do_move sys (CompleteFailing c0)).
Proof.
  intros Hr. pose proof Hr as [Hwf Hinv]. unfold move.
  destruct (takeFirst c0 (suspended sys)) as [[p rest]|] eqn:Ht; [|exact Hr].
  destruct (taken_not_restored _ _ _ _ _ Hr Ht) as (Hp & Hfind & Hin & Hinit & Hrest).
  destruct (takeFirst_spec _ _ _ _ Ht) as [_ Hlen].
  unfold fetchCountryData_fail. rewrite Hp.
  split; [exact Hrest |].
  intros c. destruct (Hinv c) as (H1 & H2 & H3).
  unfold outstanding in *.
  cbn [app suspended fetchingRef isLoadingData countryDataCache cacheRef].
  split; [|split].
  - specialize (Hlen c). rewrite Hlen in H1.
    pose proof (marker_delete c c0 (fetchingRef (app sys))) as Hm.
    destruct (String.eqb c0 c), (bool_decide (c ∈ fetchingRef (app sys)));
      cbv iota in *; lia.
  - rewrite elem_of_marker_delete.
    destruct (decide (c = c0)) as [->|Hne].
    + rewrite lookup_insert_eq. split; [discriminate | tauto].
    + rewrite lookup_insert_ne by congruence. rewrite H2. tauto.
  - destruct (init !! c) as [d|]; [|exact H3].
    destruct H3 as (Ha & Hb & Hc'). split; [exact Ha |]. split; [exact Hb |].
    rewrite elem_of_marker_delete. tauto.
Qed.

Lemma reachable_move init sys mv :
  reach init sys -> reach init (do_move sys mv).
Proof.
  destruct mv as [[mk c0|c0|]|c0].
  - apply reachable_request.
  - apply reachable_complete.
  - apply reachable_refresh.
  - apply reachable_fail.
Qed.

Lemma reachable_play init moves sys :
  reach init sys -> reach init (do_play moves sys).
Proof.
  revert sys. induction moves as [|mv moves IH]; intros sys H; simpl; [exact H |].
  apply IH, reachable_move, H.
Qed.

Lemma reachable_starting currentMonthKey ls :
  reach (initCache currentMonthKey ls) (starting currentMonthKey ls).
Proof.
  split; [apply Forall_nil; exact I |].
  intros c. unfold outstanding. cbn.
  rewrite bool_decide_eq_false_2 by apply not_elem_of_empty.
  split; [reflexivity |]. split.
  - rewrite lookup_empty. split; [discriminate |].
    intros H. exfalso. revert H. apply not_elem_of_empty.
  - destruct (initCache currentMonthKey ls !! c) eqn:E.
    + split; [reflexivity |]. split; [reflexivity | apply not_elem_of_empty].
    + split; left; reflexivity.
Qed.

Lemma play_cons mv moves sys :
  do_play (mv :: moves) sys = do_play moves (do_move sys mv).
Proof. reflexivity. Qed.

Lemma play_app moves1 moves2 sys :
  do_play (moves1 ++ moves2) sys = do_play moves2 (do_play moves1 sys).
Proof. apply fold_left_app. Qed.

Lemma move_keeps_cached sys mv c :
  is_Some (countryDataCache (app sys) !! c) ->
  is_Some (countryDataCache (app (do_move sys mv)) !! c).
Proof.
  intros Hc. destruct mv as [[mk c0|c0|]|c0]; unfold move.
  - destruct (request_cases sys mk c0) as [->|(country & _ & _ & _ & ->)]; exact Hc.
  - unfold step. destruct (takeFirst c0 (suspended sys)) as [[p rest]|]; [|exact Hc].
    cbn. destruct (decide (c = p_countryCode p)) as [->|Hne].
    + rewrite lookup_insert_eq. eauto.
    + rewrite lookup_insert_ne by congruence. exact Hc.
  - exact Hc.
  - destruct (takeFirst c0 (suspended sys)) as [[p rest]|]; exact Hc.
Qed.

Lemma play_keeps_cached moves sys c :
  is_Some (countryDataCache (app sys) !! c) ->
  is_Some (countryDataCache (app (do_play moves sys)) !! c).
Proof.
  revert sys. induction moves as [|mv moves IH]; intros sys H; simpl; [exact H |].
  apply IH, move_keeps_cached, H.
Qed.

Lemma takeFirst_some c ps :
  (0 < length (List.filter (isFor c) ps))%nat ->
  exists p rest, takeFirst c ps = Some (p, rest).
Proof.
  induction ps as [|q ps IH]; simpl; [lia |].
  destruct (isFor c q); [eauto |].
  intros H. destruct (IH H) as (p & rest & ->). eauto.
Qed.

Lemma takeFirst_none c ps :
  takeFirst c ps = None -> length (List.filter (isFor c) ps) = 0%nat.
Proof.
  induction ps as [|q ps IH]; simpl; [reflexivity |].
  destruct (isFor c q); [discriminate |].
  destruct (takeFirst c ps) as [[? ?]|]; [discriminate | auto].
Qed.

(** A request for a selectable country leaves its code covered. *)
Lemma request_covers init sys mk c country :
  reach init sys ->
  findCountry SELECTABLE_COUNTRIES c = Some country ->
  covered c (do_move sys (Do (Request mk c))).
Proof.
  intros [Hwf Hinv] Hfind. unfold move, step, fetchCountryData_begin.
  destruct (Hinv c) as (H1 & _ & H3).
  destruct (bool_decide (is_Some (cacheRef (app sys) !! c))) eqn:Hc.
  { apply bool_decide_eq_true_1 in Hc. left. cbn.
    destruct Hc as [d Hd]. destruct (init !! c).
    - destruct H3 as (Ha & _). eauto.
    - destruct H3 as [_ [Hb|Hb]]; [congruence |]. rewrite <- Hb. eauto. }
  destruct (bool_decide (c ∈ fetchingRef (app sys))) eqn:Hf.
  { right. unfold outstanding in *. cbn. rewrite app_nil_r, H1. lia. }
  cbn [orb]. unfold findCountry in Hfind. rewrite Hfind.
  right. unfold outstanding. cbn [suspended].
  rewrite List.filter_app, length_app, outstanding_single. cbn [p_countryCode].
  rewrite String.eqb_refl. lia.
Qed.

(** A covered code stays covered under every move but the failure of its
    own call. *)
Lemma move_keeps_covered sys mv c :
  failsFor c mv = false -> covered c sys -> covered c (do_move sys mv).
Proof.
  intros Hnf [Hc|Ho]; [left; apply move_keeps_cached, Hc |].
  destruct mv as [[mk c0|c0|]|c0]; unfold move.
  - right. destruct (request_cases sys mk c0) as [->|(country & _ & _ & _ & ->)];
      [exact Ho |].
    unfold outstanding in *. cbn [suspended].
    rewrite List.filter_app, length_app. lia.
  - unfold step. destruct (takeFirst c0 (suspended sys)) as [[p rest]|] eqn:Ht;
      [|right; exact Ho].
    destruct (takeFirst_spec _ _ _ _ Ht) as [Hp Hlen].
    destruct (String.eqb_spec c0 c) as [->|Hne].
    + left. cbn. rewrite Hp, lookup_insert_eq. eauto.
    + right. unfold outstanding in *. cbn [suspended fst snd].
      unfold fetchCountryData_resume. cbn [suspended].
      specialize (Hlen c). apply String.eqb_neq in Hne. rewrite Hne in Hlen. lia.
  - right. exact Ho.
  - destruct (takeFirst c0 (suspended sys)) as [[p rest]|] eqn:Ht;
      [|right; exact Ho].
    destruct (takeFirst_spec _ _ _ _ Ht) as [Hp Hlen].
    right. unfold outstanding in *. unfold fetchCountryData_fail. cbn [suspended].
    specialize (Hlen c). cbn in Hnf. rewrite Hnf in Hlen. lia.
Qed.

Lemma play_keeps_covered moves sys c :
  existsb (failsFor c) moves = false -> covered c sys ->
  covered c (do_play moves sys).
Proof.
  revert sys. induction moves as [|mv moves IH]; intros sys Hnf H; simpl; [exact H |].
  simpl in Hnf. apply orb_false_iff in Hnf as [Hmv Hrest].
  apply IH; [exact Hrest |]. apply move_keeps_covered; assumption.
Qed.

(** The completion of a covered code caches it. *)
Lemma complete_caches sys c :
  covered c sys ->
  is_Some (countryDataCache (app (do_move sys (Do (Complete c)))) !! c).
Proof.
  intros [Hc|Ho]; [apply move_keeps_cached, Hc |].
  unfold move, step. destruct (takeFirst_some c (suspended sys) Ho) as (p & rest & Ht).
  rewrite Ht. destruct (takeFirst_spec _ _ _ _ Ht) as [Hp _].
  cbn. rewrite Hp, lookup_insert_eq. eauto.
Qed.

Lemma persisted_move m sys mv :
  inMonth m mv -> persisted m sys -> persisted m (do_move sys mv).
Proof.
  intros Hm [Hmonths Hinv]. destruct mv as [[mk c0|c0|]|c0]; unfold move.
  - cbn in Hm. subst mk.
    destruct (request_cases sys m c0) as [->|(country & _ & _ & _ & ->)];
      [split; assumption |].
    split; [|exact Hinv]. cbn [suspended]. apply Forall_app. split; [exact Hmonths |].
    apply Forall_cons. split; [reflexivity | apply Forall_nil; exact I].
  - unfold step. destruct (takeFirst c0 (suspended sys)) as [[p rest]|] eqn:Ht;
      [|split; assumption].
    destruct (takeFirst_Forall _ _ _ _ _ Ht Hmonths) as [Hp Hrest].
    unfold fetchCountryData_resume. split; [exact Hrest |].
    intros c. cbn [app localStorage countryDataCache].
    rewrite initCache_lookup.
    destruct (decide (c = p_countryCode p)) as [->|Hne].
    + rewrite !lookup_insert_eq, Hp, String.eqb_refl. reflexivity.
    + rewrite !lookup_insert_ne.
      * rewrite <- initCache_lookup. apply Hinv.
      * congruence.
      * intros E. apply append_inj_r in E. congruence.
  - split; [exact Hmonths | exact Hinv].
  - destruct (takeFirst c0 (suspended sys)) as [[p rest]|] eqn:Ht;
      [|split; assumption].
    destruct (takeFirst_Forall _ _ _ _ _ Ht Hmonths) as [Hp Hrest].
    split; [exact Hrest | exact Hinv].
Qed.

Lemma persisted_play m moves sys :
  Forall (inMonth m) moves -> persisted m sys -> persisted m (do_play moves sys).
Proof.
  revert sys. induction moves as [|mv moves IH]; intros sys Hall H; simpl; [exact H |].
  apply Forall_cons in Hall as [Hmv Hrest].
  apply IH; [exact Hrest |]. apply persisted_move; assumption.
Qed.

Lemma persisted_starting m ls : persisted m (starting m ls).
Proof. split; [apply Forall_nil; exact I | reflexivity]. Qed.

(** The test of the loop is the guard of [fetchCountryData] over again. *)
Lemma request_when_test_fails sys mk country :
  loadAllCountries_test country sys = false ->
  do_move sys (Do (Request mk (code country))) = sys.
Proof.
  unfold loadAllCountries_test, move, step, fetchCountryData_begin.
  intros Ht. apply andb_false_iff in Ht.
  assert (Hg : bool_decide (is_Some (cacheRef (app sys) !! code country))
               || bool_decide (code country ∈ fetchingRef (app sys)) = true).
  { destruct Ht as [Ht|Ht]; apply negb_false_iff in Ht; rewrite Ht;
      [reflexivity | apply orb_true_r]. }
  rewrite Hg. destruct sys; cbn. now rewrite !app_nil_r.
Qed.

Lemma noFailure_failsFor mv c : noFailure mv = true -> failsFor c mv = false.
Proof. destruct mv; [reflexivity | discriminate]. Qed.

Lemma noFailure_all moves c :
  forallb noFailure moves = true -> existsb (failsFor c) moves = false.
Proof.
  induction moves as [|mv moves IH]; simpl; [reflexivity |].
  intros [Hmv Hrest]%andb_true_iff.
  rewrite (noFailure_failsFor mv c Hmv). auto.
Qed.

(** After the loop every country it went over is covered. *)
Lemma loop_covers init mk countries :
  forall pauses sys (P : string -> Prop),
    Forall (fun country => is_Some (findCountry SELECTABLE_COUNTRIES (code country)))
           countries ->
    forallb (forallb noFailure) pauses = true ->
    reach init sys ->
    (forall c, P c -> covered c sys) ->
    let sys' := loadAllCountries Math_sin CATEGORIES SELECTABLE_COUNTRIES mk
                  countries pauses sys in
    reach init sys'
    /\ (forall c, P c -> covered c sys')
    /\ Forall (fun country => covered (code country) sys') countries.
Proof.
  induction countries as [|country rest IH]; intros pauses sys P Hsel Hnf Hr HP.
  { cbn. split; [exact Hr |]. split; [exact HP | apply Forall_nil; exact I]. }
  apply Forall_cons in Hsel as [[found Hfound] Hsel].
  cbn [loadAllCountries].
  pose proof (request_covers init sys mk (code country) found Hr Hfound) as Hcov.
  destruct (loadAllCountries_test country sys) eqn:Ht.
  - set (sys1 := do_play (hd [] pauses)
                   (do_move sys (Do (Request mk (code country))))).
    assert (Hpause : forallb noFailure (hd [] pauses) = true).
    { destruct pauses as [|pause more]; [reflexivity |].
      cbn in Hnf. apply andb_true_iff in Hnf as [H _]. exact H. }
    assert (Hmore : forallb (forallb noFailure) (tail pauses) = true).
    { destruct pauses as [|pause more]; [reflexivity |].
      cbn in Hnf. apply andb_true_iff in Hnf as [_ H]. exact H. }
    assert (Hkeep : forall c, covered c (do_move sys (Do (Request mk (code country))))
                              -> covered c sys1).
    { intros c. apply play_keeps_covered, noFailure_all, Hpause. }
    destruct (IH (tail pauses) sys1 (fun c => P c \/ c = code country) Hsel Hmore)
      as (Hr' & HP' & Hrest).
    + apply reachable_play, reachable_move, Hr.
    + intros c [Hc | ->]; apply Hkeep; [|exact Hcov].
      apply move_keeps_covered; [reflexivity | apply HP, Hc].
    + split; [exact Hr' |]. split; [intros c Hc; apply HP'; left; exact Hc |].
      apply Forall_cons. split; [apply HP'; right; reflexivity | exact Hrest].
  - rewrite (request_when_test_fails sys mk country Ht) in Hcov.
    destruct (IH pauses sys (fun c => P c \/ c = code country) Hsel Hnf Hr)
      as (Hr' & HP' & Hrest).
    + intros c [Hc | ->]; [apply HP, Hc | exact Hcov].
    + split; [exact Hr' |]. split; [intros c Hc; apply HP'; left; exact Hc |].
      apply Forall_cons. split; [apply HP'; right; reflexivity | exact Hrest].
Qed.

(** Completing the calls of covered codes caches them all. *)
Lemma completions_cache codes :
  forall sys,
    Forall (fun c => covered c sys) codes ->
    Forall (fun c =>
              is_Some (countryDataCache
                         (app (do_play (map (fun c => Do (Complete c)) codes) sys)) !! c))
           codes.
Proof.
  induction codes as [|c0 rest IH]; intros sys Hall; [apply Forall_nil; exact I |].
  apply Forall_cons in Hall as [H0 Hrest]. cbn [map]. rewrite play_cons.
  apply Forall_cons. split.
  - apply play_keeps_cached, complete_caches, H0.
  - apply IH. eapply Forall_impl; [exact Hrest |].
    intros c Hc. apply move_keeps_covered; [reflexivity | exact Hc].
Qed.

Lemma findCountry_member country :
  country ∈ SELECTABLE_COUNTRIES ->
  is_Some (findCountry SELECTABLE_COUNTRIES (code country)).
Proof.
  unfold findCountry. induction SELECTABLE_COUNTRIES as [|x l IH]; intros Hin.
  - apply elem_of_nil in Hin. contradiction.
  - simpl. destruct (String.eqb_spec (code x) (code country)); [eauto |].
    apply elem_of_cons in Hin as [->|Hin]; [congruence | auto].
Qed.

Lemma findCountry_code c country :
  findCountry SELECTABLE_COUNTRIES c = Some country ->
  code country = c /\ country ∈ SELECTABLE_COUNTRIES.
Proof.
  unfold findCountry. intros H. apply List.find_some in H as [Hin Heq].
  apply String.eqb_eq in Heq. split; [exact Heq |].
  apply list_elem_of_In, Hin.
Qed.

End Schedules.

Lemma statusLine_loading st c :
  statusLine st c = Loading <-> isLoadingData st !! c = Some true.
Proof.
  unfold statusLine.
  destruct (isLoadingData st !! c) as [[|]|]; cbn;
    (split; [|first [reflexivity | discriminate]]); try reflexivity;
    destruct (dataError st !! c) as [[message|]|];
    try destruct (nonEmpty message);
    destruct (countryDataCache st !! c); discriminate.
Qed.

(** X9. Under every schedule of requests, completions (successful or
    failing) and refreshes of the mirror, started from any storage, the line
    under a selector reads 'Loading...' for a code exactly while a call for
    that code is suspended, and at most one call per code is suspended at a
    time. *)
Theorem loading_line_tracks_suspended_call
    (Math_sin : number -> number) (CATEGORIES : list ComparisonCategory)
    (SELECTABLE_COUNTRIES : list SelectableCountry)
    (m : string) (ls : gmap string StorageItem) (moves : list Move) (c : string) :
  let sys := play Math_sin CATEGORIES SELECTABLE_COUNTRIES moves (starting m ls) in
  (statusLine (app sys) c = Loading <-> outstanding c sys = 1%nat)
  /\ (outstanding c sys <= 1)%nat.
Proof.
  intros sys. rewrite statusLine_loading.
  destruct (reachable_play Math_sin CATEGORIES SELECTABLE_COUNTRIES _ moves _
              (reachable_starting Math_sin CATEGORIES SELECTABLE_COUNTRIES m ls))
    as [_ Hinv].
  destruct (Hinv c) as (H1 & H2 & _). fold sys in H1, H2. rewrite H2, H1.
  destruct (bool_decide (c ∈ fetchingRef (app sys))) eqn:E.
  - apply bool_decide_eq_true_1 in E. split; [tauto | lia].
  - apply bool_decide_eq_false_1 in E.
    split; [split; [contradiction | discriminate] | lia].
Qed.

(** X10. Whatever the schedule, an entry of the cache is either the
    entry the initialiser restored from storage for that code, or the data
    generated for the selectable country of that code; a code that is neither
    in storage nor selectable never enters the cache. *)
Theorem cached_data_is_restored_or_generated
    (Math_sin : number -> number) (CATEGORIES : list ComparisonCategory)
    (SELECTABLE_COUNTRIES : list SelectableCountry)
    (m : string) (ls : gmap string StorageItem) (moves : list Move)
    (c : string) (d : CountryData) :
  let sys := play Math_sin CATEGORIES SELECTABLE_COUNTRIES moves (starting m ls) in
  countryDataCache (app sys) !! c = Some d ->
  initCache m ls !! c = Some d
  \/ (exists country,
        findCountry SELECTABLE_COUNTRIES c = Some country
        /\ code country = c
        /\ d = fullData (generateSimulatedCountryData Math_sin CATEGORIES country)
                 country).
Proof.
  intros sys Hd.
  destruct (reachable_play Math_sin CATEGORIES SELECTABLE_COUNTRIES _ moves _
              (reachable_starting Math_sin CATEGORIES SELECTABLE_COUNTRIES m ls))
    as [_ Hinv].
  destruct (Hinv c) as (_ & _ & H3). fold sys in H3.
  destruct (initCache m ls !! c) as [d0|].
  - left. destruct H3 as (Ha & _). congruence.
  - right. destruct H3 as [[Ha|Ha] _]; [congruence |].
    unfold generatedFor in Ha.
    destruct (findCountry SELECTABLE_COUNTRIES c) as [country|] eqn:Hfind;
      [|congruence].
    exists country. split; [reflexivity |].
    split; [apply (findCountry_code _ _ _ Hfind) | congruence].
Qed.

Lemma cached_data_is_restored_or_generated_witness :
  let it := sampleCountry "IT" "EUR" in
  let sin0 : number -> number := fun _ => 0.5 in
  let d := fullData (generateSimulatedCountryData sin0 [] it) it in
  initCache "2026-10" ∅ !! "IT" = Some d
  \/ (exists country,
        findCountry [it] "IT" = Some country
        /\ code country = "IT"
        /\ d = fullData (generateSimulatedCountryData sin0 [] country) country).
Proof.
  intros it sin0 d.
  apply (cached_data_is_restored_or_generated sin0 [] [it] "2026-10" ∅
           [Do (Request "2026-10" "IT"); Do (Complete "IT")] "IT" d).
  reflexivity.
Defined.

(** X11. Once the cache holds an entry for a code, it holds that very
    entry after any further moves: a later generation for the code, if one
    happens, writes the same data. *)
Theorem cached_entry_never_changes
    (Math_sin : number -> number) (CATEGORIES : list ComparisonCategory)
    (SELECTABLE_COUNTRIES : list SelectableCountry)
    (m : string) (ls : gmap string StorageItem) (moves more : list Move)
    (c : string) (d : CountryData) :
  let sys := play Math_sin CATEGORIES SELECTABLE_COUNTRIES moves (starting m ls) in
  countryDataCache (app sys) !! c = Some d ->
  countryDataCache
    (app (play Math_sin CATEGORIES SELECTABLE_COUNTRIES more sys)) !! c = Some d.
Proof.
  intros sys Hd.
  pose proof (reachable_play Math_sin CATEGORIES SELECTABLE_COUNTRIES _ moves _
                (reachable_starting Math_sin CATEGORIES SELECTABLE_COUNTRIES m ls))
    as Hr.
  fold sys in Hr.
  pose proof (reachable_play Math_sin CATEGORIES SELECTABLE_COUNTRIES _ more _ Hr)
    as [_ Hinv'].
  destruct Hr as [_ Hinv].
  destruct (Hinv c) as (_ & _ & H3). destruct (Hinv' c) as (_ & _ & H3').
  destruct (initCache m ls !! c) as [d0|].
  - destruct H3 as (Ha & _). destruct H3' as (Ha' & _). congruence.
  - destruct H3 as [[Ha|Ha] _]; [congruence |].
    destruct H3' as [[Ha'|Ha'] _]; [|congruence].
    exfalso.
    assert (Hs : is_Some (countryDataCache (app sys) !! c)) by eauto.
    apply (play_keeps_cached Math_sin CATEGORIES SELECTABLE_COUNTRIES more) in Hs.
    rewrite Ha' in Hs. destruct Hs; discriminate.
Qed.

Lemma cached_entry_never_changes_witness :
  let it := sampleCountry "IT" "EUR" in
  let sin0 : number -> number := fun _ => 0.5 in
  let d := fullData (generateSimulatedCountryData sin0 [] it) it in
  let sys := play sin0 [] [it] [Do (Request "2026-10" "IT"); Do (Complete "IT")]
               (starting "2026-10" ∅) in
  countryDataCache
    (app (play sin0 [] [it] [Do (Request "2026-11" "IT"); Do (Complete "IT")] sys))
    !! "IT" = Some d.
Proof.
  intros it sin0 d sys.
  apply (cached_entry_never_changes sin0 [] [it] "2026-10" ∅
           [Do (Request "2026-10" "IT"); Do (Complete "IT")]
           [Do (Request "2026-11" "IT"); Do (Complete "IT")] "IT" d).
  reflexivity.
Defined.

(** X12. The mirror the guard reads never runs ahead of the cache: an
    entry of [cacheRef] is the entry of [countryDataCache] for that code, so a
    request is stopped for the cache's sake only when the cache does hold the
    data. *)
Theorem mirror_holds_cached_entries
    (Math_sin : number -> number) (CATEGORIES : list ComparisonCategory)
    (SELECTABLE_COUNTRIES : list SelectableCountry)
    (m : string) (ls : gmap string StorageItem) (moves : list Move)
    (c : string) (d : CountryData) :
  let sys := play Math_sin CATEGORIES SELECTABLE_COUNTRIES moves (starting m ls) in
  cacheRef (app sys) !! c = Some d ->
  countryDataCache (app sys) !! c = Some d.
Proof.
  intros sys Hd.
  destruct (reachable_play Math_sin CATEGORIES SELECTABLE_COUNTRIES _ moves _
              (reachable_starting Math_sin CATEGORIES SELECTABLE_COUNTRIES m ls))
    as [_ Hinv].
  destruct (Hinv c) as (_ & _ & H3). fold sys in H3.
  destruct (initCache m ls !! c) as [d0|].
  - destruct H3 as (Ha & Hb & _). congruence.
  - destruct H3 as [_ [Hb|Hb]]; congruence.
Qed.

Lemma mirror_holds_cached_entries_witness :
  let it := sampleCountry "IT" "EUR" in
  let sin0 : number -> number := fun _ => 0.5 in
  let d := fullData (generateSimulatedCountryData sin0 [] it) it in
  let sys := play sin0 [] [it]
               [Do (Request "2026-10" "IT"); Do (Complete "IT"); Do RefreshMirror]
               (starting "2026-10" ∅) in
  countryDataCache (app sys) !! "IT" = Some d.
Proof.
  intros it sin0 d sys.
  apply (mirror_holds_cached_entries sin0 [] [it] "2026-10" ∅
           [Do (Request "2026-10" "IT"); Do (Complete "IT"); Do RefreshMirror]
           "IT" d).
  reflexivity.
Defined.

(** X13. While every request is made in the month [m], the cache in
    memory is exactly what the initialiser would restore from [localStorage]
    in that month: a reload loses nothing and brings nothing back that the
    cache did not hold. *)
Theorem reload_restores_the_cache
    (Math_sin : number -> number) (CATEGORIES : list ComparisonCategory)
    (SELECTABLE_COUNTRIES : list SelectableCountry)
    (m : string) (ls : gmap string StorageItem) (moves : list Move) :
  Forall (inMonth m) moves ->
  let sys := play Math_sin CATEGORIES SELECTABLE_COUNTRIES moves (starting m ls) in
  initCache m (localStorage (app sys)) = countryDataCache (app sys).
Proof.
  intros Hall sys. apply map_eq. intros c.
  destruct (persisted_play Math_sin CATEGORIES SELECTABLE_COUNTRIES m moves _ Hall
              (persisted_starting m ls)) as [_ H].
  apply H.
Qed.

Lemma reload_restores_the_cache_witness :
  let it := sampleCountry "IT" "EUR" in
  let sin0 : number -> number := fun _ => 0.5 in
  let sys := play sin0 [] [it] [Do (Request "2026-10" "IT"); Do (Complete "IT")]
               (starting "2026-10" ∅) in
  initCache "2026-10" (localStorage (app sys)) = countryDataCache (app sys).
Proof.
  intros it sin0 sys.
  apply (reload_restores_the_cache sin0 [] [it] "2026-10" ∅
           [Do (Request "2026-10" "IT"); Do (Complete "IT")]).
  repeat constructor.
Defined.

(** X14. A request for a selectable country followed, after any moves that
    do not fail the call, by its completion leaves the country's data in the
    cache, and no later move takes it out. *)
Theorem requested_then_completed_is_cached
    (Math_sin : number -> number) (CATEGORIES : list ComparisonCategory)
    (SELECTABLE_COUNTRIES : list SelectableCountry)
    (m : string) (ls : gmap string StorageItem) (pre mid post : list Move)
    (mk c : string) (country : SelectableCountry) :
  findCountry SELECTABLE_COUNTRIES c = Some country ->
  existsb (failsFor c) mid = false ->
  let sys := play Math_sin CATEGORIES SELECTABLE_COUNTRIES
               (pre ++ Do (Request mk c) :: mid ++ Do (Complete c) :: post)
               (starting m ls) in
  is_Some (countryDataCache (app sys) !! c).
Proof.
  intros Hfind Hnf sys. subst sys.
  rewrite play_app, play_cons, play_app, play_cons.
  apply play_keeps_cached, complete_caches, play_keeps_covered; [exact Hnf |].
  apply (request_covers _ _ _ (initCache m ls) _ mk c country); [|exact Hfind].
  apply reachable_play, reachable_starting.
Qed.

Lemma requested_then_completed_is_cached_witness :
  let it := sampleCountry "IT" "EUR" in
  let de := sampleCountry "DE" "EUR" in
  let sin0 : number -> number := fun _ => 0.5 in
  is_Some
    (countryDataCache
       (app (play sin0 [] [it; de]
               ([Do (Request "2026-10" "DE")]
                ++ Do (Request "2026-10" "IT")
                   :: [CompleteFailing "DE"; Do RefreshMirror]
                   ++ Do (Complete "IT") :: [Do (Request "2026-10" "IT")])
               (starting "2026-10" ∅))) !! "IT").
Proof.
  intros it de sin0.
  apply (requested_then_completed_is_cached sin0 [] [it; de] "2026-10" ∅
           [Do (Request "2026-10" "DE")]
           [CompleteFailing "DE"; Do RefreshMirror]
           [Do (Request "2026-10" "IT")] "2026-10" "IT" it);
    reflexivity.
Defined.

(** X16. The background walk of [loadAllCountries], started in any state
    the loader can be in and with anything but a failing write happening
    during its pauses, leaves every selectable country cached or on its way;
    once the calls it left suspended complete, the cache holds every
    selectable country. *)
Theorem loadAllCountries_caches_every_country
    (Math_sin : number -> number) (CATEGORIES : list ComparisonCategory)
    (SELECTABLE_COUNTRIES : list SelectableCountry)
    (m mk : string) (ls : gmap string StorageItem)
    (before : list Move) (pauses : list (list Move)) :
  forallb (forallb noFailure) pauses = true ->
  let sys0 := play Math_sin CATEGORIES SELECTABLE_COUNTRIES before (starting m ls) in
  let sys1 := loadAllCountries Math_sin CATEGORIES SELECTABLE_COUNTRIES mk
                SELECTABLE_COUNTRIES pauses sys0 in
  let sys2 := play Math_sin CATEGORIES SELECTABLE_COUNTRIES
                (map (fun c => Do (Complete c))
                     (map code SELECTABLE_COUNTRIES)) sys1 in
  forall country,
    country ∈ SELECTABLE_COUNTRIES ->
    covered (code country) sys1
    /\ is_Some (countryDataCache (app sys2) !! code country).
Proof.
  intros Hnf sys0 sys1 sys2.
  destruct (loop_covers Math_sin CATEGORIES SELECTABLE_COUNTRIES (initCache m ls) mk
              SELECTABLE_COUNTRIES pauses sys0 (fun _ => False))
    as (_ & _ & Hcov).
  - apply Forall_forall. intros country Hin. apply findCountry_member, Hin.
  - exact Hnf.
  - apply reachable_play, reachable_starting.
  - intros c [].
  - fold sys1 in Hcov.
    assert (Hcodes : Forall (fun c => covered c sys1) (map code SELECTABLE_COUNTRIES)).
    { apply Forall_fmap. exact Hcov. }
    apply completions_cache with (Math_sin := Math_sin) (CATEGORIES := CATEGORIES)
                                 (SELECTABLE_COUNTRIES := SELECTABLE_COUNTRIES)
      in Hcodes.
    fold sys2 in Hcodes.
    intros country Hin. split.
    + rewrite Forall_forall in Hcov. apply Hcov, Hin.
    + rewrite Forall_forall in Hcodes. apply Hcodes.
      apply list_elem_of_fmap. exists country. auto.
Qed.

Lemma loadAllCountries_caches_every_country_witness :
  let it := sampleCountry "IT" "EUR" in
  let de := sampleCountry "DE" "EUR" in
  let sin0 : number -> number := fun _ => 0.5 in
  let sys0 := play sin0 [] [it; de] [Do (Request "2026-10" "IT")] (starting "2026-10" ∅) in
  let sys1 := loadAllCountries sin0 [] [it; de] "2026-10" [it; de]
                [[Do (Complete "IT")]] sys0 in
  let sys2 := play sin0 [] [it; de]
                (map (fun c => Do (Complete c)) (map code [it; de])) sys1 in
  covered "DE" sys1 /\ is_Some (countryDataCache (app sys2) !! "DE").
Proof.
  intros it de sin0 sys0 sys1 sys2.
  apply (loadAllCountries_caches_every_country sin0 [] [it; de] "2026-10" "2026-10" ∅
           [Do (Request "2026-10" "IT")] [[Do (Complete "IT")]] eq_refl de).
  apply elem_of_cons. right. apply elem_of_cons. left. reflexivity.
Defined.

(** The test the loop of [loadAllCountries] makes before it calls
    [fetchCountryData] is the guard of [fetchCountryData] itself: calling it
    without the test would change nothing. *)
Lemma loadAllCountries_test_repeats_the_guard
    (Math_sin : number -> number) (CATEGORIES : list ComparisonCategory)
    (SELECTABLE_COUNTRIES : list SelectableCountry)
    (mk : string) (country : SelectableCountry) (sys : System) :
  (if loadAllCountries_test country sys
   then move Math_sin CATEGORIES SELECTABLE_COUNTRIES sys (Do (Request mk (code country)))
   else sys)
  = move Math_sin CATEGORIES SELECTABLE_COUNTRIES sys (Do (Request mk (code country))).
Proof.
  destruct (loadAllCountries_test country sys) eqn:Ht; [reflexivity |].
  symmetry. apply request_when_test_fails, Ht.
Qed.

(** * The loaders side by side *)

Lemma rates_key_is_no_data_key c : RATES_CACHE_KEY <> DATA_KEY_PREFIX +:+ c.
Proof. discriminate. Qed.

Lemma freshSnapshot_insert_data today ls c item :
  freshSnapshot today (<[DATA_KEY_PREFIX +:+ c := item]> ls) = freshSnapshot today ls.
Proof.
  unfold freshSnapshot. rewrite lookup_insert_ne; [reflexivity |].
  intros E. symmetry in E. revert E. apply rates_key_is_no_data_key.
Qed.

(** X15. When the write of a generated entry is refused, nothing is
    cached or persisted, the marker is taken off and the line under the
    selector reads 'Failed to load data.'; the failure does not stick: the
    next request for the code, unless the mirror holds it, starts a new
    generation, clears the error and shows 'Loading...' again. *)
Theorem failed_call_can_be_retried
    (SELECTABLE_COUNTRIES : list SelectableCountry)
    (mk c : string) (country : SelectableCountry) (p : Pending) (st : AppState) :
  p_countryCode p = c ->
  findCountry SELECTABLE_COUNTRIES c = Some country ->
  cacheRef st !! c = None ->
  let st1 := fst (fetchCountryData_fail p st) in
  countryDataCache st1 = countryDataCache st
  /\ localStorage st1 = localStorage st
  /\ (c ∉ fetchingRef st1)
  /\ statusLine st1 c = Failed "Failed to load data."
  /\ exists st2,
      fetchCountryData_begin SELECTABLE_COUNTRIES mk c st1
      = (st2, Some {| p_countryCode := c; p_country := country; p_monthKey := mk |},
         [Generate c])
      /\ dataError st2 !! c = Some None
      /\ statusLine st2 c = Loading.
Proof.
  intros Hp Hfind Hc st1. subst st1. unfold fetchCountryData_fail. rewrite Hp.
  cbn [fst countryDataCache localStorage fetchingRef].
  split; [reflexivity |]. split; [reflexivity |].
  assert (Hout : c ∉ fetchingRef st ∖ {[c]}).
  { intros [_ H]%elem_of_difference. apply H, elem_of_singleton_2. reflexivity. }
  split; [exact Hout |]. split.
  { unfold statusLine. cbn [isLoadingData dataError].
    rewrite !lookup_insert_eq. reflexivity. }
  unfold fetchCountryData_begin. cbn [cacheRef fetchingRef].
  rewrite bool_decide_eq_false_2 by (rewrite Hc; intros [? ?]; discriminate).
  rewrite (bool_decide_eq_false_2 _ Hout). cbn [orb].
  unfold findCountry in Hfind. rewrite Hfind.
  eexists. split; [reflexivity |].
  split; [cbn; apply lookup_insert_eq |].
  apply statusLine_loading. cbn. apply lookup_insert_eq.
Qed.

Lemma failed_call_can_be_retried_witness :
  let it := sampleCountry "IT" "EUR" in
  let p := {| p_countryCode := "IT"; p_country := it; p_monthKey := "2026-10" |} in
  let st1 := fst (fetchCountryData_fail p (initialState "2026-10" ∅)) in
  statusLine st1 "IT" = Failed "Failed to load data.".
Proof.
  intros it p st1.
  destruct (failed_call_can_be_retried [it] "2026-10" "IT" it p
              (initialState "2026-10" ∅)) as (_ & _ & _ & H & _);
    [reflexivity | reflexivity | reflexivity | exact H].
Defined.

(** X6. What a successful fetch persists serves the rest of the day:
    any later run of [fetchRates] on that day over that storage, a reload
    included, applies the rates that were fetched as JSON carries them,
    with [EUR] at 1, without a network call and whatever the network would
    have answered; these are the very rates that were fetched when all of
    them are finite.  When the write of the snapshot is refused, the fetched
    rates are lost: nothing is applied or persisted, the error flag is
    raised, and every later run that day over that storage calls the network
    again. *)
Theorem fetched_rates_serve_the_day
    (today : string) (data_rates : option Rates) (response : Response)
    (st st' : AppState) :
  freshSnapshot today (localStorage st) = None ->
  let newRates : Rates := <["EUR" := 1]> (default ∅ data_rates) in
  let stored := fst (fetchRates today (Ok data_rates) st) in
  let refused := fst (fetchRates today (OkWriteFails data_rates) st) in
  (localStorage st' = localStorage stored ->
   rates stored = Some newRates
   /\ rates (fst (fetchRates today response st')) = Some (jsonRates newRates)
   /\ ratesLastUpdated (fst (fetchRates today response st')) = Some today
   /\ snd (fetchRates today response st') = [RatesApplied (jsonRates newRates)]
   /\ localStorage (fst (fetchRates today response st')) = localStorage st'
   /\ jsonRates newRates !! "EUR" = Some 1
   /\ ((forall cur x, newRates !! cur = Some x ->
                      isFinite x = true /\ isNegZero x = false) ->
       jsonRates newRates = newRates))
  /\ (localStorage st' = localStorage refused ->
      rates refused = rates st
      /\ ratesError refused = true
      /\ localStorage refused = localStorage st
      /\ count isNetworkCall (snd (fetchRates today response st')) = 1%nat).
Proof.
  intros Hfresh newRates stored refused.
  assert (Hs : localStorage stored
               = <[RATES_CACHE_KEY := RatesItem today (Some (jsonRates newRates))]>
                   (localStorage st)
               /\ rates stored = Some newRates).
  { subst stored. unfold fetchRates. rewrite Hfresh. split; reflexivity. }
  assert (Hr : localStorage refused = localStorage st
               /\ rates refused = rates st /\ ratesError refused = true).
  { subst refused. unfold fetchRates. rewrite Hfresh. repeat split. }
  destruct Hs as [Ls Rs]. destruct Hr as (Lr & Rr & Er).
  split.
  - intros Hls. rewrite Ls in Hls. split; [exact Rs |].
    assert (Hnow : freshSnapshot today (localStorage st') = Some (jsonRates newRates)).
    { unfold freshSnapshot. rewrite Hls, lookup_insert_eq, String.eqb_refl.
      reflexivity. }
    unfold fetchRates. rewrite Hnow. cbn -[jsonRates].
    do 4 (split; [reflexivity |]).
    split; [|apply jsonRates_finite].
    subst newRates. rewrite jsonRates_lookup, lookup_insert_eq. reflexivity.
  - intros Hls. rewrite Lr in Hls.
    split; [exact Rr |]. split; [exact Er |]. split; [exact Lr |].
    unfold fetchRates. rewrite Hls, Hfresh. destruct response; reflexivity.
Qed.

Lemma fetched_rates_serve_the_day_witness :
  let fetched : Rates := <["USD" := 1.18]> ∅ in
  let st := initialState "2026-10" ∅ in
  let st1 := fst (fetchRates "2026-11-02" (Ok (Some fetched)) st) in
  let st2 := fst (fetchRates "2026-11-02" (OkWriteFails (Some fetched)) st) in
  snd (fetchRates "2026-11-02" NetworkFailure (initialState "2026-10" (localStorage st1)))
  = [RatesApplied (jsonRates (<["EUR" := 1]> fetched))]
  /\ jsonRates (<["EUR" := 1]> fetched) = <["EUR" := 1]> fetched
  /\ count isNetworkCall
       (snd (fetchRates "2026-11-02" NetworkFailure
               (initialState "2026-10" (localStorage st2))))
     = 1%nat.
Proof.
  intros fetched st st1 st2.
  destruct (fetched_rates_serve_the_day "2026-11-02" (Some fetched) NetworkFailure st
              (initialState "2026-10" (localStorage st1)) eq_refl) as [Hkept _].
  destruct (fetched_rates_serve_the_day "2026-11-02" (Some fetched) NetworkFailure st
              (initialState "2026-10" (localStorage st2)) eq_refl) as [_ Hlost].
  destruct (Hkept eq_refl) as (_ & _ & _ & Hev & _ & _ & Hsame).
  destruct (Hlost eq_refl) as (_ & _ & _ & Hnet).
  split; [exact Hev |]. split; [|exact Hnet].
  apply Hsame. intros cur x.
  destruct (decide (cur = "EUR")) as [->|Hne].
  - rewrite lookup_insert_eq. intros [= <-]. split; reflexivity.
  - rewrite lookup_insert_ne by congruence.
    destruct (decide (cur = "USD")) as [->|Hne'].
    + cbn. unfold fetched. rewrite lookup_insert_eq. intros [= <-]. split; reflexivity.
    + cbn. unfold fetched. rewrite lookup_insert_ne, lookup_empty by congruence.
      discriminate.
Defined.

Lemma fetchRates_events today response st st' :
  freshSnapshot today (localStorage st) = freshSnapshot today (localStorage st') ->
  snd (fetchRates today response st) = snd (fetchRates today response st').
Proof.
  intros H. unfold fetchRates. rewrite H.
  destruct (freshSnapshot today (localStorage st')); [reflexivity |].
  destruct response; reflexivity.
Qed.

Lemma fetchRates_leaves_loader today response st :
  cacheRef (fst (fetchRates today response st)) = cacheRef st
  /\ fetchingRef (fst (fetchRates today response st)) = fetchingRef st.
Proof.
  unfold fetchRates.
  destruct (freshSnapshot today (localStorage st)); [split; reflexivity |].
  destruct response; split; reflexivity.
Qed.

(** X8. The two loaders keep out of each other's way.  A move of the
    country loader neither reads nor changes what [fetchRates] reads, and
    [fetchRates] neither reads nor changes what the country loader reads:
    run in either order they leave the same state, the same suspended calls
    and the same events on each side; and the snapshot of the rates never
    enters the cache of country data. *)
Theorem loaders_do_not_interfere
    (Math_sin : number -> number) (CATEGORIES : list ComparisonCategory)
    (SELECTABLE_COUNTRIES : list SelectableCountry)
    (today : string) (response : Response) (sys : System) (mv : Move)
    (m : string) (item : StorageItem) :
  let withRates (s : System) : System :=
    {| app := fst (fetchRates today response (app s));
       suspended := suspended s;
       log := log s |} in
  let moved := move Math_sin CATEGORIES SELECTABLE_COUNTRIES sys mv in
  let moved' := move Math_sin CATEGORIES SELECTABLE_COUNTRIES (withRates sys) mv in
  app moved' = app (withRates moved)
  /\ suspended moved' = suspended moved
  /\ log moved' = log moved
  /\ snd (fetchRates today response (app moved))
     = snd (fetchRates today response (app sys))
  /\ initCache m (<[RATES_CACHE_KEY := item]> (localStorage (app sys)))
     = initCache m (delete RATES_CACHE_KEY (localStorage (app sys))).
Proof.
  intros withRates moved moved'.
  assert (Hcache : initCache m (<[RATES_CACHE_KEY := item]> (localStorage (app sys)))
                   = initCache m (delete RATES_CACHE_KEY (localStorage (app sys)))).
  { apply map_eq. intros c. rewrite !initCache_lookup.
    rewrite lookup_insert_ne, lookup_delete_ne; [reflexivity | |];
      apply rates_key_is_no_data_key. }
  split; [|split; [|split; [|split; [|exact Hcache]]]]; subst moved moved' withRates;
    destruct mv as [[mk c0|c0|]|c0]; unfold move, step; cbn [app suspended log];
    try reflexivity.
  - (* state, request *)
    unfold fetchCountryData_begin.
    destruct (fetchRates_leaves_loader today response (app sys)) as [-> ->].
    destruct (bool_decide (is_Some (cacheRef (app sys) !! c0))
              || bool_decide (c0 ∈ fetchingRef (app sys))); [reflexivity |].
    destruct (List.find _ SELECTABLE_COUNTRIES) as [country|]; [|reflexivity].
    cbn [app]. unfold fetchRates. cbn [localStorage].
    destruct (freshSnapshot today (localStorage (app sys))); [reflexivity |].
    destruct response; reflexivity.
  - (* state, completion *)
    destruct (takeFirst c0 (suspended sys)) as [[p rest]|]; [|reflexivity].
    unfold fetchCountryData_resume. cbn [app].
    unfold fetchRates. cbn [localStorage]. rewrite freshSnapshot_insert_data.
    destruct (freshSnapshot today (localStorage (app sys))); [reflexivity |].
    destruct response; try reflexivity. cbn.
    f_equal. apply insert_insert_ne. apply not_eq_sym, rates_key_is_no_data_key.
  - (* state, refresh *)
    unfold fetchRates, syncCacheRef. cbn [localStorage].
    destruct (freshSnapshot today (localStorage (app sys))); [reflexivity |].
    destruct response; reflexivity.
  - (* state, failing completion *)
    destruct (takeFirst c0 (suspended sys)) as [[p rest]|]; [|reflexivity].
    unfold fetchCountryData_fail. cbn [app].
    unfold fetchRates. cbn [localStorage].
    destruct (freshSnapshot today (localStorage (app sys))); [reflexivity |].
    destruct response; reflexivity.
  - (* suspended calls, request *)
    unfold fetchCountryData_begin.
    destruct (fetchRates_leaves_loader today response (app sys)) as [-> ->].
    destruct (bool_decide (is_Some (cacheRef (app sys) !! c0))
              || bool_decide (c0 ∈ fetchingRef (app sys))); [reflexivity |].
    destruct (List.find _ SELECTABLE_COUNTRIES); reflexivity.
  - destruct (takeFirst c0 (suspended sys)) as [[p rest]|]; reflexivity.
  - destruct (takeFirst c0 (suspended sys)) as [[p rest]|]; reflexivity.
  - (* events of the loader, request *)
    unfold fetchCountryData_begin.
    destruct (fetchRates_leaves_loader today response (app sys)) as [-> ->].
    destruct (bool_decide (is_Some (cacheRef (app sys) !! c0))
              || bool_decide (c0 ∈ fetchingRef (app sys))); [reflexivity |].
    destruct (List.find _ SELECTABLE_COUNTRIES); reflexivity.
  - destruct (takeFirst c0 (suspended sys)) as [[p rest]|]; reflexivity.
  - destruct (takeFirst c0 (suspended sys)) as [[p rest]|]; reflexivity.
  - (* events of the rates, request *)
    apply fetchRates_events. unfold fetchCountryData_begin.
    destruct (_ || _); [reflexivity |].
    destruct (List.find _ SELECTABLE_COUNTRIES); reflexivity.
  - apply fetchRates_events.
    destruct (takeFirst c0 (suspended sys)) as [[p rest]|]; [|reflexivity].
    unfold fetchCountryData_resume. cbn [app localStorage].
    apply freshSnapshot_insert_data.
  - apply fetchRates_events. reflexivity.
  - apply fetchRates_events.
    destruct (takeFirst c0 (suspended sys)) as [[p rest]|]; reflexivity.
Qed.

(** X7. After the run of [fetchRates] on mount the text in front of the
    displayed rate, when there is one, is 'Live rate:': with the error flag
    raised no rates are loaded, so no rate is displayed, and neither
    'Using cached rates:' nor 'Fetching live rates...' is ever shown beside a
    rate. *)
Theorem rate_label_after_mount
    (today : string) (response : Response) (m : string)
    (ls : gmap string StorageItem) (fromCountry toCountry : option SelectableCountry) :
  let st := fst (fetchRates today response (initialState m ls)) in
  (ratesError st = true -> exchangeRateMemo (rates st) fromCountry toCountry = None)
  /\ rateLabel (initialState m ls) fromCountry toCountry = None
  /\ (rateLabel st fromCountry toCountry = None
      \/ rateLabel st fromCountry toCountry = Some "Live rate:").
Proof.
  intros st. subst st. unfold fetchRates. cbn [localStorage initialState].
  split; [|split; [reflexivity |]].
  - destruct (freshSnapshot today ls); [discriminate |].
    destruct response; cbn; try reflexivity. discriminate.
  - unfold rateLabel.
    destruct (freshSnapshot today ls).
    + cbn [fst rates isLoadingRates ratesError].
      destruct (exchangeRateMemo _ _ _); auto.
    + destruct response; cbn [fst rates isLoadingRates ratesError];
        try (left; reflexivity).
      destruct (exchangeRateMemo _ _ _); auto.
Qed.

Lemma rate_label_after_mount_witness :
  let st := fst (fetchRates "2026-11-02" NetworkFailure (initialState "2026-10" ∅)) in
  exchangeRateMemo (rates st) (Some (sampleCountry "IT" "EUR"))
    (Some (sampleCountry "US" "USD")) = None.
Proof.
  intros st.
  apply (proj1 (rate_label_after_mount "2026-11-02" NetworkFailure "2026-10" ∅
                  (Some (sampleCountry "IT" "EUR")) (Some (sampleCountry "US" "USD")))).
  reflexivity.
Defined.

(** * The comparison figures *)

Lemma rateOf_insert_EUR r x cur : rateOf (<["EUR" := x]> r) cur = rateOf r cur.
Proof.
  unfold rateOf. destruct (String.eqb_spec cur "EUR") as [->|Hne]; [reflexivity |].
  apply lookup_insert_ne. congruence.
Qed.

Lemma rateOf_delete_EUR r cur : rateOf (delete "EUR" r) cur = rateOf r cur.
Proof.
  unfold rateOf. destruct (String.eqb_spec cur "EUR") as [->|Hne]; [reflexivity |].
  apply lookup_delete_ne. congruence.
Qed.

(** X17. The computations never read the entry [EUR] of the rates: the
    reference currency counts as 1 whatever the table holds for it, or
    whether it holds anything.  The equivalent salary and the displayed
    exchange rate are the same with the entry set to any number or taken
    out. *)
Theorem EUR_entry_is_never_read
    (parsed x : number) (fromCountryData toCountryData : option CountryData)
    (r : Rates) (fromCountry toCountry : SelectableCountry)
    (fromSelected toSelected : option SelectableCountry) :
  equivalentSalaryMemo parsed fromCountryData toCountryData
    (Some (<["EUR" := x]> r)) fromCountry toCountry
  = equivalentSalaryMemo parsed fromCountryData toCountryData (Some r)
      fromCountry toCountry
  /\ equivalentSalaryMemo parsed fromCountryData toCountryData
       (Some (delete "EUR" r)) fromCountry toCountry
     = equivalentSalaryMemo parsed fromCountryData toCountryData (Some r)
         fromCountry toCountry
  /\ exchangeRateMemo (Some (<["EUR" := x]> r)) fromSelected toSelected
     = exchangeRateMemo (Some r) fromSelected toSelected
  /\ exchangeRateMemo (Some (delete "EUR" r)) fromSelected toSelected
     = exchangeRateMemo (Some r) fromSelected toSelected.
Proof.
  unfold equivalentSalaryMemo, exchangeRateMemo.
  rewrite !rateOf_insert_EUR, !rateOf_delete_EUR.
  repeat split; destruct fromSelected, toSelected;
    rewrite ?rateOf_insert_EUR, ?rateOf_delete_EUR; reflexivity.
Qed.

(** X18. From a country of the reference currency to a country of
    another currency at the same finite, non-zero price index, the comparison
    is a pure conversion: the figure in EUR is the salary itself, with no
    rounding at all, the equivalent salary is the salary times the rate of the
    target currency, and that rate is the exchange rate displayed. *)
Theorem from_EUR_at_equal_index_is_conversion
    (parsed toRate priceIdx : number) (fd td : CountryData) (r : Rates)
    (fromCountry toCountry : SelectableCountry) :
  currency fromCountry = "EUR" ->
  currency toCountry <> "EUR" ->
  r !! currency toCountry = Some toRate ->
  truthy toRate = true ->
  priceIndex fd = Some priceIdx ->
  priceIndex td = Some priceIdx ->
  truthy priceIdx = true ->
  isFinite priceIdx = true ->
  equivalentSalaryMemo parsed (Some fd) (Some td) (Some r) fromCountry toCountry
  = {| equivalentSalary := numericSalaryOf parsed * toRate;
       equivalentSalaryInEUR := numericSalaryOf parsed |}
  /\ exchangeRateMemo (Some r) (Some fromCountry) (Some toCountry) = Some toRate.
Proof.
  intros Hf Ht Hr Htr Hfd Htd Hti Hfi.
  assert (Hto : rateOf r (currency toCountry) = Some toRate).
  { unfold rateOf. apply String.eqb_neq in Ht. now rewrite Ht. }
  assert (Hfrom : rateOf r (currency fromCountry) = Some 1).
  { rewrite Hf. apply rateOf_EUR. }
  split.
  - rewrite (equivalentSalaryMemo_guards_pass parsed fd td r fromCountry toCountry
               priceIdx priceIdx 1 toRate); try assumption; try reflexivity.
    rewrite (div_self _ Hti Hfi), div_1_r, mul_1_r. reflexivity.
  - unfold exchangeRateMemo. rewrite Hfrom, Hto, Htr, Hf.
    apply String.eqb_neq in Ht. rewrite String.eqb_sym, Ht.
    cbn. now rewrite div_1_r.
Qed.

Lemma from_EUR_at_equal_index_is_conversion_witness :
  let r : Rates := <["USD" := 1.17]> ∅ in
  let fd := sampleData "SK" "EUR" 75 ∅ in
  let td := sampleData "US" "USD" 75 ∅ in
  equivalentSalaryMemo 50000 (Some fd) (Some td) (Some r)
    (sampleCountry "SK" "EUR") (sampleCountry "US" "USD")
  = {| equivalentSalary := numericSalaryOf 50000 * 1.17;
       equivalentSalaryInEUR := numericSalaryOf 50000 |}.
Proof.
  intros r fd td.
  apply (from_EUR_at_equal_index_is_conversion 50000 1.17 75 fd td r
           (sampleCountry "SK" "EUR") (sampleCountry "US" "USD"));
    first [reflexivity | discriminate].
Defined.

(** X19. Two equal finite indices compare to exactly 0 per cent, without
    a rounding residue; so two countries at one price level, and a country
    against itself, show 0 in that category. *)
Theorem equal_indices_compare_to_zero
    (fd td : CountryData) (category : ComparisonCategory) (x : number) :
  categoryIndex fd category = Some x ->
  categoryIndex td category = Some x ->
  isFinite x = true ->
  percentageDiff (priceLevelEntry fd td category) = 0.
Proof.
  intros Hf Ht Hfin. unfold priceLevelEntry. rewrite Hf, Ht.
  destruct (x =? 0) eqn:Hz; [reflexivity |].
  cbn [percentageDiff]. rewrite div_self; [reflexivity | | exact Hfin].
  unfold truthy, isNaN. rewrite Hz.
  destruct (isFinite_cases x Hfin) as [[s Hs]|(s & m & e & Hs)].
  - exfalso. rewrite FloatAxioms.eqb_spec, Hs in Hz. destruct s; discriminate.
  - rewrite FloatAxioms.eqb_spec, Hs. cbn.
    unfold SFeqb, SFcompare. destruct s; rewrite Z.compare_refl, Pos.compare_refl;
      reflexivity.
Qed.

Lemma equal_indices_compare_to_zero_witness :
  let sk := sampleData "SK" "EUR" 75 (<["food" := 71]> ∅) in
  let lv := sampleData "LV" "EUR" 75 (<["food" := 71]> ∅) in
  percentageDiff (priceLevelEntry sk lv {| id := "food"; cat_name := "Food" |}) = 0.
Proof.
  intros sk lv.
  apply (equal_indices_compare_to_zero sk lv {| id := "food"; cat_name := "Food" |} 71);
    reflexivity.
Defined.

(** * The salary field, the selectors and the cards *)



(** X24. Starting from Italy and Germany, and whatever countries are
    picked in the two selectors in whatever order, the two selected codes are
    never the same: picking on one side the country of the other side swaps
    the two. *)
Theorem selected_countries_differ (picks : list Pick) :
  let s := fold_left pick picks initialSelection in
  fromCountryCode s <> toCountryCode s.
Proof.
  intros s. subst s.
  assert (H : forall s, fromCountryCode s <> toCountryCode s ->
                        fromCountryCode (fold_left pick picks s)
                        <> toCountryCode (fold_left pick picks s)).
  { induction picks as [|p picks IH]; intros s Hs; [exact Hs |].
    simpl. apply IH. destruct p as [c|c]; cbn.
    - destruct (String.eqb_spec (code c) (toCountryCode s)); congruence.
    - destruct (String.eqb_spec (code c) (fromCountryCode s)); congruence. }
  apply H. discriminate.
Qed.

Lemma find_first_of_id (CATEGORIES : list ComparisonCategory) category :
  category ∈ CATEGORIES ->
  exists first,
    List.find (fun c => String.eqb (id c) (id category)) CATEGORIES = Some first
    /\ id first = id category
    /\ (NoDup (map id CATEGORIES) -> first = category).
Proof.
  induction CATEGORIES as [|x l IH]; intros Hin.
  - apply elem_of_nil in Hin. contradiction.
  - simpl. destruct (String.eqb_spec (id x) (id category)) as [E|E].
    + exists x. split; [reflexivity |]. split; [exact E |].
      intros Hnd. apply elem_of_cons in Hin as [->|Hin]; [reflexivity |].
      exfalso. cbn in Hnd. apply NoDup_cons in Hnd as [Hx _]. apply Hx.
      rewrite E. apply list_elem_of_fmap. exists category. auto.
    + apply elem_of_cons in Hin as [->|Hin]; [congruence |].
      destruct (IH Hin) as (first & Hf & Hid & Hnd).
      exists first. split; [exact Hf |]. split; [exact Hid |].
      intros H. cbn in H. apply NoDup_cons in H as [_ H]. auto.
Qed.

(** X25. With the data of both countries present, every entry of the
    comparison finds its category, so there are as many cards as categories
    and the [null] branch is never taken; the card of an entry shows the
    first category that carries the entry's id, which is the entry's own
    category when the ids are distinct. *)
Theorem every_entry_gets_its_card
    (CATEGORIES : list ComparisonCategory) (fd td : CountryData) :
  let cards := comparisonCards CATEGORIES
                 (priceLevelData CATEGORIES (Some fd) (Some td)) in
  length cards = length CATEGORIES
  /\ Forall (fun card => is_Some card) cards
  /\ (NoDup (map id CATEGORIES) ->
      cards = map (fun category =>
                     Some (category, percentageDiff (priceLevelEntry fd td category)))
                  CATEGORIES).
Proof.
  intros cards. subst cards. unfold comparisonCards, priceLevelData.
  rewrite List.map_map.
  assert (Hid : forall category, categoryId (priceLevelEntry fd td category) = id category).
  { intros category. unfold priceLevelEntry.
    destruct (categoryIndex fd category), (categoryIndex td category);
      try reflexivity. destruct (_ =? 0); reflexivity. }
  split; [apply length_map |]. split.
  - apply Forall_forall. intros card Hin.
    apply list_elem_of_fmap in Hin as (category & -> & Hin).
    rewrite Hid. destruct (find_first_of_id CATEGORIES category Hin) as (first & -> & _).
    eauto.
  - intros Hnd. apply List.map_ext_in. intros category Hin.
    apply list_elem_of_In in Hin.
    rewrite Hid. destruct (find_first_of_id CATEGORIES category Hin) as (first & -> & _ & E).
    now rewrite (E Hnd).
Qed.

Lemma every_entry_gets_its_card_witness :
  let cats := [ {| id := "total"; cat_name := "Total" |};
                {| id := "food"; cat_name := "Food" |} ] in
  let fd := sampleData "IT" "EUR" 98 (<["food" := 90]> ∅) in
  let td := sampleData "DE" "EUR" 106 (<["food" := 99]> ∅) in
  comparisonCards cats (priceLevelData cats (Some fd) (Some td))
  = map (fun category =>
           Some (category, percentageDiff (priceLevelEntry fd td category))) cats.
Proof.
  intros cats fd td.
  apply (proj2 (proj2 (every_entry_gets_its_card cats fd td))).
  apply NoDup_cons. split; [|apply NoDup_singleton].
  intros H. apply list_elem_of_singleton in H. discriminate.
Defined.

(** * The rows of data sources *)

Lemma arrayFromSet_from (l acc : list string) :
  NoDup acc ->
  let out := fold_left (fun acc x => if bool_decide (x ∈ acc) then acc else acc ++ [x])
               l acc in
  NoDup out /\ (forall x, x ∈ out <-> x ∈ acc \/ x ∈ l)
  /\ exists more, out = acc ++ more.
Proof.
  revert acc. induction l as [|y l IH]; intros acc Hnd; cbn.
  - split; [exact Hnd |]. split; [|exists []; now rewrite app_nil_r].
    intros x. rewrite elem_of_nil. tauto.
  - destruct (bool_decide (y ∈ acc)) eqn:E.
    + apply bool_decide_eq_true_1 in E.
      destruct (IH acc Hnd) as (H1 & H2 & H3). split; [exact H1 |].
      split; [|exact H3]. intros x. rewrite H2, elem_of_cons.
      split; [tauto |]. intros [H|[->|H]]; auto.
    + apply bool_decide_eq_false_1 in E.
      destruct (IH (acc ++ [y])) as (H1 & H2 & more & H3).
      { apply NoDup_app. split; [exact Hnd |]. split; [|apply NoDup_singleton].
        intros x Hx Hy. apply list_elem_of_singleton in Hy. subst x. exact (E Hx). }
      split; [exact H1 |]. split.
      * intros x. rewrite H2, elem_of_app, list_elem_of_singleton, elem_of_cons. tauto.
      * exists (y :: more). rewrite H3, <- app_assoc. reflexivity.
Qed.

(** X26. In the row of quality-of-life sources every source named by an
    indicator of either country is listed, nothing else is, and no name is
    listed twice.  In the row of economic sources the second country's source
    is left out exactly when it has the name of the first's, and the link
    shown is then the first country's. *)
Theorem source_rows_list_each_name_once (fd td : CountryData) :
  NoDup (qolSources fd td)
  /\ (forall sourceName,
         sourceName ∈ qolSources fd td
         <-> exists d, d ∈ qolValues (qualityOfLife fd) ++ qolValues (qualityOfLife td)
                       /\ source d = sourceName)
  /\ economicSources fd td
     = let link d :=
         {| link_name := economicDataSource (metadata d);
            link_url := getSafeSourceUrl (economicDataSource (metadata d))
                          (dataSourceUrl (metadata d)) |} in
       if String.eqb (economicDataSource (metadata fd))
                     (economicDataSource (metadata td))
       then [link fd] else [link fd; link td].
Proof.
  unfold qolSources, arrayFromSet.
  destruct (arrayFromSet_from
              (map source (qolValues (qualityOfLife fd))
               ++ map source (qolValues (qualityOfLife td))) [])
    as (H1 & H2 & _); [apply NoDup_nil; exact I |].
  split; [exact H1 |]. split.
  - intros n. rewrite H2, elem_of_nil, <- map_app, list_elem_of_fmap.
    split.
    + intros [[]|(d & -> & Hd)]. eauto.
    + intros (d & Hd & <-). right. eauto.
  - unfold economicSources, uniqueSources. cbn.
    rewrite String.eqb_refl. cbn.
    rewrite bool_decide_eq_true_2 by reflexivity.
    destruct (String.eqb _ _); cbn.
    + rewrite bool_decide_eq_false_2 by discriminate. reflexivity.
    + rewrite String.eqb_refl. cbn.
      rewrite bool_decide_eq_true_2 by reflexivity. reflexivity.
Qed.

Lemma toLowerChar_idem c : toLowerChar (toLowerChar c) = toLowerChar c.
Proof.
  destruct c as [[] [] [] [] [] [] [] []]; reflexivity.
Qed.

Lemma toLowerCase_idem s : toLowerCase (toLowerCase s) = toLowerCase s.
Proof.
  induction s as [|c s IH]; [reflexivity |]. simpl. now rewrite toLowerChar_idem, IH.
Qed.

Lemma nonEmpty_toLowerCase s : nonEmpty (toLowerCase s) = nonEmpty s.
Proof. destruct s; reflexivity. Qed.

(** X27. The links of the sources are chosen without regard to case: a
    name and its lower-case form get the same link, in both rows. *)
Theorem source_links_ignore_case (sourceName : string) (url : option string) :
  getQoLUrl (toLowerCase sourceName) = getQoLUrl sourceName
  /\ getSafeSourceUrl (toLowerCase sourceName) url = getSafeSourceUrl sourceName url.
Proof.
  unfold getQoLUrl, getSafeSourceUrl.
  now rewrite nonEmpty_toLowerCase, toLowerCase_idem.
Qed.

(** X4. For the data generated for any two countries, known to the
    table of profiles or not: every name in the row of quality-of-life
    sources carries a link, 'Numbeo' is always among them; and in the row of
    economic sources the link of a country is the address the generator put
    into its metadata, present exactly for the source 'Eurostat'. *)
Theorem generated_sources_are_linked
    (Math_sin : number -> number) (CATEGORIES : list ComparisonCategory)
    (fromCountry toCountry : SelectableCountry) :
  let generated country :=
    fullData (generateSimulatedCountryData Math_sin CATEGORIES country) country in
  let fd := generated fromCountry in
  let td := generated toCountry in
  Forall (fun link => is_Some (link_url link)) (qolLinks fd td)
  /\ "Numbeo" ∈ qolSources fd td
  /\ (forall d,
         d = fd \/ d = td ->
         getSafeSourceUrl (economicDataSource (metadata d)) (dataSourceUrl (metadata d))
         = dataSourceUrl (metadata d)
         /\ (is_Some (dataSourceUrl (metadata d))
             <-> economicDataSource (metadata d) = "Eurostat")).
Proof.
  intros generated fd td. subst fd td generated.
  unfold qolLinks, qolSources, qolValues, fullData, generateSimulatedCountryData.
  cbn [qualityOfLife g_qualityOfLife metadata g_metadata unemploymentRate
       lifeExpectancy safetyIndex healthCareIndex pollutionIndex
       propertyPriceToIncomeRatio source map app economicDataSource dataSourceUrl].
  set (euFrom := regionIs (profileOf (code fromCountry)) EU
                 || includes EU_LIKE (code fromCountry)).
  set (euTo := regionIs (profileOf (code toCountry)) EU
               || includes EU_LIKE (code toCountry)).
  split; [|split].
  - destruct euFrom, euTo; vm_compute; repeat constructor; eauto.
  - destruct euFrom, euTo; vm_compute; repeat constructor.
  - intros d [-> | ->]; cbn [metadata economicDataSource dataSourceUrl].
    + destruct euFrom.
      * split; [reflexivity |]. split; [reflexivity | eauto].
      * destruct (String.eqb (code fromCountry) "US");
          (split; [reflexivity |]; split; [intros [? ?]|]; discriminate).
    + destruct euTo.
      * split; [reflexivity |]. split; [reflexivity | eauto].
      * destruct (String.eqb (code toCountry) "US");
          (split; [reflexivity |]; split; [intros [? ?]|]; discriminate).
Qed.

Lemma generated_sources_are_linked_witness :
  let us := sampleCountry "US" "USD" in
  let d := fullData (generateSimulatedCountryData (fun _ => 0.5) [] us) us in
  getSafeSourceUrl (economicDataSource (metadata d)) (dataSourceUrl (metadata d))
  = dataSourceUrl (metadata d)
  /\ (is_Some (dataSourceUrl (metadata d))
      <-> economicDataSource (metadata d) = "Eurostat").
Proof.
  intros us d.
  apply (proj2 (proj2 (generated_sources_are_linked (fun _ => 0.5) []
                         us (sampleCountry "DE" "EUR"))) d).
  left. reflexivity.
Defined.

(** * What the loaders leave alone *)

Lemma move_keeps_other_keys
    (Math_sin : number -> number) (CATEGORIES : list ComparisonCategory)
    (SELECTABLE_COUNTRIES : list SelectableCountry) sys mv key :
  (forall c, key <> DATA_KEY_PREFIX +:+ c) ->
  localStorage (app (move Math_sin CATEGORIES SELECTABLE_COUNTRIES sys mv)) !! key
  = localStorage (app sys) !! key.
Proof.
  intros Hkey. destruct mv as [[mk c0|c0|]|c0]; unfold move.
  - destruct (request_cases Math_sin CATEGORIES SELECTABLE_COUNTRIES sys mk c0)
      as [->|(country & _ & _ & _ & ->)]; reflexivity.
  - unfold step. destruct (takeFirst c0 (suspended sys)) as [[p rest]|]; [|reflexivity].
    cbn. apply lookup_insert_ne. apply not_eq_sym, Hkey.
  - reflexivity.
  - destruct (takeFirst c0 (suspended sys)) as [[p rest]|]; reflexivity.
Qed.

(** X28. The loaders write to [localStorage] under their own keys only.
    Under every schedule the country loader leaves every item whose key is
    not ['ppc_data_'] followed by a code as it found it, the snapshot of the
    rates included; and [fetchRates] leaves every item but the snapshot as it
    found it. *)
Theorem loaders_write_under_their_own_keys
    (Math_sin : number -> number) (CATEGORIES : list ComparisonCategory)
    (SELECTABLE_COUNTRIES : list SelectableCountry)
    (moves : list Move) (sys : System) (today : string) (response : Response)
    (st : AppState) (key : string) :
  ((forall c, key <> DATA_KEY_PREFIX +:+ c) ->
   localStorage (app (play Math_sin CATEGORIES SELECTABLE_COUNTRIES moves sys)) !! key
   = localStorage (app sys) !! key)
  /\ localStorage (app (play Math_sin CATEGORIES SELECTABLE_COUNTRIES moves sys))
       !! RATES_CACHE_KEY
     = localStorage (app sys) !! RATES_CACHE_KEY
  /\ (key <> RATES_CACHE_KEY ->
      localStorage (fst (fetchRates today response st)) !! key
      = localStorage st !! key).
Proof.
  assert (Hplay : forall key, (forall c, key <> DATA_KEY_PREFIX +:+ c) ->
            localStorage (app (play Math_sin CATEGORIES SELECTABLE_COUNTRIES moves sys))
              !! key
            = localStorage (app sys) !! key).
  { intros k Hk. revert sys. induction moves as [|mv l IH]; intros sys; [reflexivity |].
    cbn [play fold_left]. unfold play in IH. rewrite IH.
    apply move_keeps_other_keys, Hk. }
  split; [apply Hplay |]. split; [apply Hplay, rates_key_is_no_data_key |].
  intros Hne. unfold fetchRates.
  destruct (freshSnapshot today (localStorage st)); [reflexivity |].
  destruct response; try reflexivity.
  cbn. apply lookup_insert_ne. congruence.
Qed.

Lemma loaders_write_under_their_own_keys_witness :
  let it := sampleCountry "IT" "EUR" in
  let ls : gmap string StorageItem := <["theme" := Unparsable]> ∅ in
  let sys := play (fun _ => 0.5) [] [it]
               [Do (Request "2026-10" "IT"); Do (Complete "IT")]
               (starting "2026-10" ls) in
  localStorage (app sys) !! "theme" = Some Unparsable
  /\ localStorage (fst (fetchRates "2026-11-02" (Ok None) (app sys))) !! "theme"
     = Some Unparsable.
Proof.
  intros it ls sys.
  destruct (loaders_write_under_their_own_keys (fun _ => 0.5) [] [it]
              [Do (Request "2026-10" "IT"); Do (Complete "IT")]
              (starting "2026-10" ls) "2026-11-02" (Ok None) (app sys) "theme")
    as (H1 & _ & H2).
  subst sys.
  split.
  - rewrite H1; [reflexivity | discriminate].
  - rewrite H2 by discriminate. rewrite H1; [reflexivity | discriminate].
Defined.

(** * Parsing the salary *)

Section Parsing.

Local Open Scope Z_scope.

(** A rounded result is a canonical number. *)
Lemma round_aux_valid s mz ez :
  ez <= fexp prec emax (Z.pos (digits2_pos mz) + ez) ->
  valid_binary (binary_round_aux prec emax s (Z.pos mz) ez loc_Exact) = true.
Proof.
  intros Hn.
  set (E := fexp prec emax (Z.pos (digits2_pos mz) + ez)) in *.
  set (m1 := Z.pos mz / 2 ^ (E - ez)).
  destruct (shr_fexp_exact_input mz ez Hn) as (rec & Hshr & Hm & Hex).
  fold E in Hshr, Hm, Hex. fold m1 in Hm.
  destruct (truncated_bounds mz ez Hn) as [Hlt53 Hge52].
  fold E in Hlt53, Hge52. fold m1 in Hlt53, Hge52.
  assert (Hm1 : 0 <= m1) by (apply Z.div_pos; [lia | apply Z.pow_pos_nonneg; lia]).
  assert (HEmin : -1074 <= E) by (subst E; rewrite fexp_eq; lia).
  pose proof (round_nearest_even_spec rec) as Hrnd. cbv zeta in Hrnd.
  set (m1' := round_nearest_even (shr_m rec) (loc_of_shr_record rec)) in *.
  assert (Hrange : 0 <= m1' <= 2 ^ 53) by (rewrite Hm in Hrnd; lia).
  unfold binary_round_aux. rewrite Hshr. fold m1'.
  destruct m1' as [|p|p] eqn:Hp; [| |lia].
  - unfold shr_fexp, shr. simpl Zdigits2. rewrite fexp_eq.
    destruct (Z.max (0 + E - 53) (-1074) - E) eqn:Hd; try lia; reflexivity.
  - destruct (Z.eq_dec (Z.pos p) (2 ^ 53)) as [Hcarry|Hnc].
    + assert (Hp53 : p = 9007199254740992%positive) by lia. subst p.
      unfold shr_fexp, shr.
      change (Zdigits2 (Z.pos 9007199254740992)) with 54.
      rewrite fexp_eq. replace (Z.max (54 + E - 53) (-1074) - E) with 1 by lia.
      simpl. change (emax - prec) with 971.
      destruct (Z.leb_spec (E + 1) 971); [|reflexivity].
      unfold valid_binary, bounded, canonical_mantissa.
      change (Z.pos (digits2_pos 4503599627370496)) with 53.
      rewrite fexp_eq. change (emax - prec) with 971.
      apply andb_true_iff. split; [|apply Z.leb_le; lia].
      apply Z.eqb_eq. lia.
    + assert (Hd : Z.pos (digits2_pos p) <= 53) by (apply digits_le_53; lia).
      assert (Hdig : -1074 < E -> Z.pos (digits2_pos p) = 53).
      { intros HE. assert (2 ^ 52 <= m1) by (apply Hge52; exact HE).
        assert (2 ^ 52 <= Z.pos p)
          by (destruct Hrnd as [H'|[H' _]]; rewrite Hm in H'; lia).
        pose proof (digits2_bounds p) as [_ Hhi].
        assert (52 < Z.pos (digits2_pos p)); [|lia].
        apply (Z.pow_lt_mono_r_iff 2); lia. }
      unfold shr_fexp, shr. simpl Zdigits2. rewrite fexp_eq.
      destruct (Z.max (Z.pos (digits2_pos p) + E - 53) (-1074) - E) eqn:Hsh;
        try lia; simpl; change (emax - prec) with 971.
      destruct (Z.leb_spec E 971); [|reflexivity].
      unfold valid_binary, bounded, canonical_mantissa.
      rewrite fexp_eq. change (emax - prec) with 971.
      apply andb_true_iff. split; [|apply Z.leb_le; lia].
      apply Z.eqb_eq. lia.
Qed.

Lemma binary_round_valid s m e :
  -1074 <= e -> valid_binary (binary_round prec emax s m e) = true.
Proof.
  intros He. unfold binary_round.
  pose proof (shl_align_spec m e (fexp prec emax (Z.pos (digits2_pos m) + e))) as Hal.
  destruct (shl_align m e _) as [mz ez]. destruct Hal as (Hez & Hmz & Hdig).
  apply round_aux_valid. rewrite Hdig. lia.
Qed.

Lemma binary_normalize_valid M e :
  -1074 <= e -> valid_binary (binary_normalize prec emax M e false) = true.
Proof.
  intros He. destruct M as [|m|m]; unfold binary_normalize;
    [reflexivity | |]; apply binary_round_valid, He.
Qed.

Lemma isDigit_value c : isDigit c = true -> 0 <= charCode c - 48 <= 9.
Proof. unfold isDigit. intros [H1 H2]%andb_true_iff. lia. Qed.

Lemma decimal_fold s acc :
  onlyDigits s = true -> 0 <= acc ->
  let v := fold_left (fun acc c => 10 * acc + (c - 48)) (charCodes s) acc in
  acc <= v /\ (0 < v <-> 0 < acc \/ hasNonZeroDigit s = true).
Proof.
  revert acc. induction s as [|c s IH]; intros acc Hd Hacc; cbn.
  - split; [lia |]. split; [auto |]. intros [H|H]; [exact H | discriminate].
  - cbn in Hd. apply andb_true_iff in Hd as [Hc Hs].
    pose proof (isDigit_value c Hc) as Hv.
    destruct (IH (10 * acc + (charCode c - 48)) Hs ltac:(lia)) as [H1 H2].
    split; [lia |]. rewrite H2, Hc. cbn [andb].
    destruct (Z.eqb_spec (charCode c) 48) as [E|E]; cbn [negb orb].
    + rewrite E. split; intros [H|H]; auto; left; lia.
    + split; [auto |]. intros _. left. lia.
Qed.

Lemma decimalValue_digits s :
  onlyDigits s = true ->
  0 <= decimalValue s /\ (0 < decimalValue s <-> hasNonZeroDigit s = true).
Proof.
  intros Hd. destruct (decimal_fold s 0 Hd ltac:(lia)) as [H1 H2].
  split; [exact H1 |]. rewrite H2. split; [intros [H|H]; [lia | exact H] | auto].
Qed.

(** What [parseFloat] returns on a non-empty string of digits. *)
Lemma parseFloat_digits s :
  onlyDigits s = true -> s <> EmptyString ->
  (decimalValue s = 0 /\ parseFloat s = 0%float)
  \/ (0 < decimalValue s
      /\ (Prim2SF (parseFloat s) = S754_infinity false
          \/ exists m e, Prim2SF (parseFloat s) = S754_finite false m e)).
Proof.
  intros Hd Hne. destruct (decimalValue_digits s Hd) as [H0 _].
  destruct s as [|c s]; [congruence |]. unfold parseFloat.
  destruct (decimalValue (String c s)) as [|p|p] eqn:Hv; [left | right | lia].
  - split; reflexivity.
  - split; [lia |].
    rewrite Prim2SF_SF2Prim by (apply binary_normalize_valid; lia).
    unfold binary_normalize.
    pose proof (binary_round_sign false p 0) as Hsign.
    destruct (binary_round_bounds false p 0 1 (-1074)%Z ltac:(lia) eq_refl)
      as [_ HL].
    destruct HL as [Hinf|[Hfin Hge]].
    + change (2 ^ (-1074 + 1074)) with 1. lia.
    + left. exact Hinf.
    + right. destruct (binary_round prec emax false p 0) as [z|z| |z m e];
        try discriminate.
      * cbn in Hge. change (2 ^ (-1074 + 1074)) with 1 in Hge. lia.
      * subst z. eauto.
Qed.

(** Up to [2^63] the parsed number is the conversion of the integer. *)
Lemma parseFloat_of_Z s :
  onlyDigits s = true -> s <> EmptyString -> decimalValue s < 2 ^ 63 ->
  parseFloat s = of_Z (decimalValue s).
Proof.
  intros Hd Hne Hlt. destruct (decimalValue_digits s Hd) as [H0 _].
  destruct s as [|c s]; [congruence |]. unfold parseFloat.
  destruct (decimalValue (String c s)) as [|p|p] eqn:Hv; [reflexivity | | lia].
  unfold of_Z. rewrite <- (SF2Prim_Prim2SF (of_uint63 _)).
  rewrite FloatAxioms.of_uint63_spec.
  change (Uint63Axioms.to_Z (Uint63.of_Z (Z.pos p)))
    with (Uint63.to_Z (Uint63.of_Z (Z.pos p))).
  rewrite Uint63.of_Z_spec.
  rewrite Z.mod_small by (change Uint63.wB with (2 ^ 63); lia).
  reflexivity.
Qed.

End Parsing.

Lemma handleSalaryChange_digits value : onlyDigits (handleSalaryChange value) = true.
Proof.
  induction value as [|c v IH]; [reflexivity |]. simpl.
  destruct (isDigit c) eqn:E; [simpl; now rewrite E | exact IH].
Qed.

Lemma hasNonZeroDigit_nonempty s : hasNonZeroDigit s = true -> s <> EmptyString.
Proof. destruct s; [discriminate | discriminate]. Qed.

(** The parsed salary is not below 0. *)
Lemma typed_salary_sign typed : (parseFloat (handleSalaryChange typed) <? 0) = false.
Proof.
  pose proof (handleSalaryChange_digits typed) as Hd.
  destruct (handleSalaryChange typed) as [|c s] eqn:Es; [reflexivity |].
  destruct (parseFloat_digits (String c s) Hd ltac:(discriminate))
    as [[_ ->]|[_ Hp]]; [reflexivity |].
  rewrite FloatAxioms.ltb_spec. change (Prim2SF 0) with (S754_zero false).
  destruct Hp as [->|(m & e & ->)]; reflexivity.
Qed.



(** X23. A salary of up to fifteen digits, and any salary below [2^53],
    parses to exactly the integer typed. *)
Theorem typed_salary_is_exact (typed : string) :
  let salary := handleSalaryChange typed in
  salary <> EmptyString ->
  (decimalValue salary < 2 ^ 53)%Z ->
  parseFloat salary = of_Z (decimalValue salary)
  /\ fin (parseFloat salary) = true
  /\ V (parseFloat salary) = (decimalValue salary * 2 ^ 1074)%Z.
Proof.
  intros salary Hne Hlt.
  pose proof (handleSalaryChange_digits typed) as Hd. fold salary in Hd.
  destruct (decimalValue_digits salary Hd) as [H0 _].
  rewrite (parseFloat_of_Z salary Hd Hne) by lia.
  split; [reflexivity |]. apply of_Z_value. lia.
Qed.

Lemma typed_salary_is_exact_witness :
  parseFloat (handleSalaryChange "50 000") = of_Z 50000.
Proof.
  apply (proj1 (typed_salary_is_exact "50 000" ltac:(discriminate) ltac:(reflexivity))).
Defined.

(** * No negative figure *)

Lemma SFmul_signClear x y :
  signClear x -> signClear y -> signClear (SF64mul x y).
Proof.
  unfold SF64mul, SFmul.
  destruct x as [sx|sx| |sx mx ex], y as [sy|sy| |sy my ey]; cbn;
    intros Hx Hy; subst; try exact I; try reflexivity.
  pose proof (binary_round_aux_sign (xorb false false) (Z.pos (mx * my)) (ex + ey)
                loc_Exact) as H.
  destruct (binary_round_aux _ _ _ _ _ _); cbn; auto.
Qed.

Lemma SFdiv_signClear x y :
  signClear x -> signClear y -> signClear (SF64div x y).
Proof.
  unfold SF64div, SFdiv.
  destruct x as [sx|sx| |sx mx ex], y as [sy|sy| |sy my ey]; cbn;
    intros Hx Hy; subst; try exact I; try reflexivity.
  destruct (SFdiv_core_binary _ _ _ _ _ _) as [[mz ez] lz].
  pose proof (binary_round_aux_sign (xorb false false) mz ez lz) as H.
  destruct (binary_round_aux _ _ _ _ _ _); cbn; auto.
Qed.

Lemma signClear_not_negative x : signClear (Prim2SF x) -> (x <? 0) = false.
Proof.
  rewrite FloatAxioms.ltb_spec. change (Prim2SF 0) with (S754_zero false).
  destruct (Prim2SF x) as [s|s| |s m e]; cbn; intros H; subst; reflexivity.
Qed.

Lemma truthy_not_negative_signClear x :
  truthy x = true -> (x <? 0) = false -> signClear (Prim2SF x).
Proof.
  intros Ht. rewrite FloatAxioms.ltb_spec. change (Prim2SF 0) with (S754_zero false).
  destruct (truthy_cases x Ht) as [[s ->]|(s & m & e & ->)]; destruct s; cbn;
    first [reflexivity | discriminate].
Qed.

Lemma not_negative_zero_signClear x :
  (x <? 0) = false -> signClear (Prim2SF (if truthy x then x else 0)).
Proof.
  intros H. destruct (truthy x) eqn:Ht; [|reflexivity].
  apply truthy_not_negative_signClear; assumption.
Qed.

(** X20. Through the salary field no negative figure can come about.
    Whatever is typed, and whatever data and rates are there or missing, as
    long as no rate and no price index is negative, neither the equivalent
    salary nor its figure in EUR is below 0. *)
Theorem typed_salary_gives_no_negative_figure
    (typed : string) (fromCountryData toCountryData : option CountryData)
    (rates : option Rates) (fromCountry toCountry : SelectableCountry) :
  (forall r cur x, rates = Some r -> r !! cur = Some x -> (x <? 0) = false) ->
  (forall d i, fromCountryData = Some d \/ toCountryData = Some d ->
               priceIndex d = Some i -> (i <? 0) = false) ->
  let result :=
    equivalentSalaryMemo (parseFloat (handleSalaryChange typed))
      fromCountryData toCountryData rates fromCountry toCountry in
  (equivalentSalary result <? 0) = false
  /\ (equivalentSalaryInEUR result <? 0) = false.
Proof.
  intros Hrates Hindex result. subst result. unfold equivalentSalaryMemo.
  destruct fromCountryData as [fd|]; [|split; reflexivity].
  destruct toCountryData as [td|]; [|split; reflexivity].
  destruct rates as [r|]; [|split; reflexivity].
  destruct (priceIndex fd) as [fromIndex|] eqn:Efd; [|split; reflexivity].
  destruct (priceIndex td) as [toIndex|] eqn:Etd;
    [|rewrite orb_true_r; split; reflexivity].
  cbn [truthy_opt toNumber].
  destruct (truthy fromIndex) eqn:Hfd; [|split; reflexivity].
  destruct (truthy toIndex) eqn:Htd; [|split; reflexivity].
  cbn [negb orb].
  assert (Hrate : forall cur x, rateOf r cur = Some x -> truthy x = true ->
                                signClear (Prim2SF x)).
  { intros cur x Hx Ht. unfold rateOf in Hx.
    destruct (String.eqb cur "EUR"); [injection Hx as <-; reflexivity |].
    apply truthy_not_negative_signClear; [exact Ht |].
    apply (Hrates r cur x eq_refl Hx). }
  destruct (rateOf r (currency fromCountry)) as [fromRate|] eqn:Hfr;
    [|split; reflexivity].
  destruct (rateOf r (currency toCountry)) as [toRate|] eqn:Htr;
    [|split; reflexivity].
  destruct (truthy fromRate) eqn:Hft; [|split; reflexivity].
  destruct (truthy toRate) eqn:Htt; [|split; reflexivity].
  cbn [negb orb equivalentSalary equivalentSalaryInEUR].
  assert (Hs : signClear (Prim2SF (numericSalaryOf
                                     (parseFloat (handleSalaryChange typed))))).
  { apply not_negative_zero_signClear.
    apply (typed_salary_sign typed). }
  assert (Hinner : signClear
                     (Prim2SF (numericSalaryOf (parseFloat (handleSalaryChange typed))
                               / fromRate * (toIndex / fromIndex)))).
  { rewrite FloatAxioms.mul_spec, !FloatAxioms.div_spec.
    apply SFmul_signClear; apply SFdiv_signClear;
      eauto using truthy_not_negative_signClear. }
  split; apply signClear_not_negative; [|exact Hinner].
  rewrite FloatAxioms.mul_spec. apply SFmul_signClear; eauto.
Qed.

Lemma typed_salary_gives_no_negative_figure_witness :
  let it := sampleData "IT" "EUR" 98 ∅ in
  let us := sampleData "US" "USD" 140 ∅ in
  let result :=
    equivalentSalaryMemo (parseFloat (handleSalaryChange "-50000"))
      (Some it) (Some us) (Some (<["USD" := 1.17]> ∅))
      (sampleCountry "IT" "EUR") (sampleCountry "US" "USD") in
  (equivalentSalary result <? 0) = false
  /\ (equivalentSalaryInEUR result <? 0) = false.
Proof.
  intros it us.
  apply (typed_salary_gives_no_negative_figure "-50000" (Some it) (Some us)
           (Some (<["USD" := 1.17]> ∅))
           (sampleCountry "IT" "EUR") (sampleCountry "US" "USD")).
  - intros r cur x [= <-] Hx.
    destruct (decide (cur = "USD")) as [->|Hne].
    + rewrite lookup_insert_eq in Hx. injection Hx as <-. reflexivity.
    + rewrite lookup_insert_ne, lookup_empty in Hx by congruence. discriminate.
  - intros d i [[= <-]|[= <-]] [= <-]; reflexivity.
Defined.

(** * The simulated prices *)

Section Prices.

Local Open Scope Z_scope.

(** [Math.round] of a number between two positive integers is an integer
    between them. *)
Lemma Math_round_between (L H : Z) x :
  1 <= L <= H -> H < 2 ^ 52 ->
  between (of_Z L) (of_Z H) x ->
  exists n, Math_round x = of_Z n /\ L <= n <= H.
Proof.
  intros HL HH Hb.
  destruct (of_Z_value L) as [FL VL]; [lia |].
  destruct (of_Z_value H) as [FH VH]; [lia |].
  apply (between_iff _ _ _ FL FH) in Hb as [Hfin [Hlo Hhi]].
  rewrite VL in Hlo. rewrite VH in Hhi.
  assert (HU : 0 < 2 ^ 1074) by (apply Z.pow_pos_nonneg; lia).
  unfold Math_round. pose proof (Prim2SF_valid x) as Hval.
  unfold fin, V in *.
  destruct (Prim2SF x) as [s|s| |s m e]; try discriminate.
  { cbn in Hlo. nia. }
  cbn [valid_binary] in Hval. destruct (bounded_arith m e Hval) as (He & Hm & Hnorm).
  unfold Fval in Hlo, Hhi.
  assert (HE : 0 < 2 ^ (e + 1074)) by (apply Z.pow_pos_nonneg; lia).
  destruct s; [simpl cond_Zopp in Hlo; nia |]. simpl cond_Zopp in Hlo, Hhi.
  destruct (Z.leb_spec 0 e) as [Hpos|Hneg].
  { exfalso. assert (2 ^ 52 <= Z.pos m) by (apply Hnorm; lia).
    assert (2 ^ 1074 <= 2 ^ (e + 1074)) by (apply Z.pow_le_mono_r; lia).
    assert (Z.pos m * 2 ^ 1074 <= Z.pos m * 2 ^ (e + 1074)) by nia.
    nia. }
  set (k := - e). assert (Hk : 1 <= k <= 1074) by lia.
  assert (HK : 0 < 2 ^ k) by (apply Z.pow_pos_nonneg; lia).
  assert (Hsplit : 2 ^ 1074 = 2 ^ k * 2 ^ (e + 1074)).
  { rewrite <- Z.pow_add_r by lia. f_equal. lia. }
  assert (Hml : L * 2 ^ k <= Z.pos m) by (rewrite Hsplit in Hlo; nia).
  assert (Hmh : Z.pos m <= H * 2 ^ k) by (rewrite Hsplit in Hhi; nia).
  rewrite Z.shiftr_div_pow2 by lia.
  assert (Hk1 : 2 ^ (k + 1) = 2 * 2 ^ k) by (rewrite Z.pow_add_r by lia; lia).
  set (n := (2 * Z.pos m + 2 ^ k) / 2 ^ (k + 1)).
  assert (Hn : L <= n <= H).
  { subst n. rewrite Hk1. split.
    - apply Z.div_le_lower_bound; nia.
    - assert ((2 * Z.pos m + 2 ^ k) / (2 * 2 ^ k) < H + 1); [|lia].
      apply Z.div_lt_upper_bound; nia. }
  exists n. split; [|exact Hn].
  destruct (Z.eqb_spec n 0); [lia | reflexivity].
Qed.

(** [Math.max(30, n)] on an integer. *)
Lemma Math_max_30_integer n :
  30 <= n < 2 ^ 53 -> Math_max 30 (of_Z n) = of_Z n.
Proof.
  intros Hn. destruct (of_Z_value n) as [Fn Vn]; [lia |].
  assert (HU : 0 < 2 ^ 1074) by (apply Z.pow_pos_nonneg; lia).
  destruct (Z.eq_dec n 30) as [->|Hne]; [reflexivity |].
  unfold Math_max. rewrite (fin_not_nan _ Fn).
  change (isNaN 30) with false. cbn [orb].
  rewrite ltb_V by (first [reflexivity | exact Fn]).
  rewrite Vn. change (V 30) with (30 * 2 ^ 1074).
  destruct (Z.ltb_spec (30 * 2 ^ 1074) (n * 2 ^ 1074)); [reflexivity | nia].
Qed.

Variable Math_sin : number -> number.
Hypothesis Hsin : sinInRange Math_sin.

(** A price around an integral index is an integer within 12 of it. *)
Lemma price_near_index (I : Z) seed salt :
  42 <= I < 2 ^ 51 ->
  exists n,
    Math_max 30 (Math_round (of_Z I + getVar Math_sin seed salt 12)%float) = of_Z n
    /\ I - 12 <= n <= I + 12.
Proof.
  intros HI.
  assert (HU : 0 < 2 ^ 1074) by (apply Z.pow_pos_nonneg; lia).
  assert (Hv : between (-12) 12 (getVar Math_sin seed salt 12)).
  { apply (getVar_between Math_sin Hsin seed salt 12 24); vm_compute; reflexivity. }
  destruct (of_Z_value I) as [FI VI]; [lia |].
  destruct (of_Z_value (I - 12)) as [Fl Vl]; [lia |].
  destruct (of_Z_value (I + 12)) as [Fh Vh]; [lia |].
  assert (Hx : between (of_Z (I - 12)) (of_Z (I + 12))
                 (of_Z I + getVar Math_sin seed salt 12)%float).
  { apply (add_between (of_Z I) (of_Z I) (-12) 12).
    - rewrite FI, Fl, Fh. reflexivity.
    - rewrite VI, Vl, Vh. change (V (-12)) with (-12 * 2 ^ 1074).
      change (V 12) with (12 * 2 ^ 1074).
      apply andb_true_iff. split; apply Z.leb_le; lia.
    - apply between_iff; auto. split; [exact FI | lia].
    - exact Hv. }
  destruct (Math_round_between (I - 12) (I + 12) _ ltac:(lia) ltac:(lia) Hx)
    as (n & -> & Hn).
  exists n. split; [|exact Hn]. apply Math_max_30_integer. lia.
Qed.

End Prices.

Lemma lookupProfile_In table c p :
  lookupProfile table c = Some p -> In p (map snd table).
Proof.
  induction table as [|[k q] table IH]; simpl; [discriminate |].
  destruct (String.eqb k c); [intros [= <-]; auto | auto].
Qed.

(** A code that names a member of [Object.prototype] is no key of the
    table: the lookup finds the member. *)
Lemma profileOf_member c :
  includes OBJECT_PROTOTYPE_KEYS c = true -> profileOf c = prototypeMember.
Proof.
  unfold includes, OBJECT_PROTOTYPE_KEYS. cbn [existsb].
  repeat (rewrite orb_true_iff; intros [H|H];
          [apply String.eqb_eq in H; subst c; vm_compute; reflexivity | revert H]).
  discriminate.
Qed.

(** Every entry of the table, and the default, has an integral index between
    45 and 158 and an integral salary between 8000 and 85000; these are the
    profiles of the codes that name no member of [Object.prototype]. *)
Lemma profileOf_integral c :
  includes OBJECT_PROTOTYPE_KEYS c = false ->
  let p := profileOf c in
  index p = Some (of_Z (asInteger (toNumber (index p))))
  /\ (45 <= asInteger (toNumber (index p)) <= 158)%Z
  /\ salary p = Some (of_Z (asInteger (toNumber (salary p))))
  /\ (8000 <= asInteger (toNumber (salary p)) <= 85000)%Z.
Proof.
  assert (Hall : Forall (fun p =>
                           index p = Some (of_Z (asInteger (toNumber (index p))))
                           /\ (45 <= asInteger (toNumber (index p)) <= 158)%Z
                           /\ salary p = Some (of_Z (asInteger (toNumber (salary p))))
                           /\ (8000 <= asInteger (toNumber (salary p)) <= 85000)%Z)
                        (defaultProfile :: map snd COUNTRY_PROFILES)).
  { repeat (apply Forall_cons; split;
            [vm_compute; repeat split; discriminate |]).
    apply Forall_nil. exact I. }
  intros Hnot p. subst p. unfold profileOf.
  rewrite Forall_forall in Hall. apply Hall.
  destruct (lookupProfile COUNTRY_PROFILES c) as [p|] eqn:E.
  - apply elem_of_cons. right. apply list_elem_of_In.
    apply (lookupProfile_In _ _ _ E).
  - rewrite Hnot. apply elem_of_cons. left. reflexivity.
Qed.

(** Without an index the price is [NaN], whatever the variation. *)
Lemma price_without_index variation :
  Math_max 30 (Math_round (toNumber None + variation)) = nan.
Proof.
  assert (E : toNumber None + variation = nan).
  { apply Prim2SF_inj. rewrite FloatAxioms.add_spec. reflexivity. }
  rewrite E. reflexivity.
Qed.

Section GeneratedPrices.

Variable Math_sin : number -> number.
Variable CATEGORIES : list ComparisonCategory.

Lemma categoryPrices_fold seed profile k (cats : list ComparisonCategory) :
  forall acc : gmap string number,
    fold_left
      (fun acc cat =>
         if String.eqb (id cat) "total" then acc
         else
           let variation := getVar Math_sin seed (id cat) 12 in
           <[ id cat :=
                Math_max 30 (Math_round (toNumber (index profile) + variation)) ]>
             acc)
      cats acc !! k
    = if negb (String.eqb k "total") && bool_decide (k ∈ map id cats)
      then Some (Math_max 30
                   (Math_round (toNumber (index profile) + getVar Math_sin seed k 12)))
      else acc !! k.
Proof.
  induction cats as [|cat cats IH]; intros acc.
  - cbn. rewrite bool_decide_eq_false_2 by apply not_elem_of_nil.
    now rewrite andb_false_r.
  - cbn [fold_left map]. rewrite IH.
    destruct (String.eqb_spec k "total") as [->|Hk]; cbn [negb andb].
    + destruct (String.eqb_spec (id cat) "total") as [E|E]; [reflexivity |].
      apply lookup_insert_ne. exact E.
    + destruct (bool_decide (k ∈ map id cats)) eqn:Hin.
      * apply bool_decide_eq_true_1 in Hin.
        rewrite bool_decide_eq_true_2 by (apply elem_of_cons; auto). reflexivity.
      * apply bool_decide_eq_false_1 in Hin.
        destruct (String.eqb_spec (id cat) k) as [E|E].
        -- rewrite bool_decide_eq_true_2 by (apply elem_of_cons; auto).
           destruct (String.eqb_spec (id cat) "total") as [Et|Et]; [congruence |].
           rewrite E. apply lookup_insert_eq.
        -- rewrite bool_decide_eq_false_2.
           2:{ intros [H|H]%elem_of_cons; [congruence | exact (Hin H)]. }
           destruct (String.eqb (id cat) "total"); [reflexivity |].
           apply lookup_insert_ne. exact E.
Qed.

Lemma generateCategoryPrices_lookup seed profile k :
  generateCategoryPrices Math_sin CATEGORIES seed profile !! k
  = if negb (String.eqb k "total") && bool_decide (k ∈ map id CATEGORIES)
    then Some (Math_max 30
                 (Math_round (toNumber (index profile) + getVar Math_sin seed k 12)))
    else None.
Proof.
  unfold generateCategoryPrices. rewrite categoryPrices_fold.
  now rewrite lookup_empty.
Qed.

End GeneratedPrices.

(** X2. The generated prices of the categories: there is one for
    every category of the list but the aggregate 'total', and none under any
    other key.  For a code that names no member of [Object.prototype], each
    price is a whole number within 12 of the country's price index, which is
    itself a whole number between 45 and 158, so every price lies between 33
    and 170 and the floor of 30 is never reached.  A code that names such a
    member ('constructor', 'toString', '__proto__', ...) finds the member in
    place of a profile: there is no price index and every price is [NaN].
    The host's [Math.sin] is taken to return a number between [-1] and [1]
    on finite arguments. *)
Theorem category_prices_are_integers_near_the_index
    (Math_sin : number -> number) (CATEGORIES : list ComparisonCategory)
    (country : SelectableCountry) :
  sinInRange Math_sin ->
  let g := generateSimulatedCountryData Math_sin CATEGORIES country in
  (forall k, is_Some (g_categoryPrices g !! k)
             <-> k <> "total" /\ k ∈ map id CATEGORIES)
  /\ (includes OBJECT_PROTOTYPE_KEYS (code country) = false ->
      exists I : Z,
        g_priceIndex g = Some (of_Z I)
        /\ (45 <= I <= 158)%Z
        /\ (forall k v,
               g_categoryPrices g !! k = Some v ->
               exists n,
                 v = of_Z n /\ (I - 12 <= n <= I + 12)%Z /\ (33 <= n <= 170)%Z))
  /\ (includes OBJECT_PROTOTYPE_KEYS (code country) = true ->
      g_priceIndex g = None
      /\ (forall k v, g_categoryPrices g !! k = Some v -> isNaN v = true)).
Proof.
  intros Hsin g. subst g. unfold generateSimulatedCountryData.
  cbn [g_priceIndex g_categoryPrices].
  split; [|split].
  - intros k. rewrite generateCategoryPrices_lookup.
    destruct (String.eqb_spec k "total") as [->|Hk]; cbn [negb andb].
    + split; [intros [? ?]; discriminate | intros [H _]; congruence].
    + destruct (bool_decide (k ∈ map id CATEGORIES)) eqn:Hin.
      * apply bool_decide_eq_true_1 in Hin. split; [auto | eauto].
      * apply bool_decide_eq_false_1 in Hin.
        split; [intros [? ?]; discriminate | intros [_ H]; contradiction].
  - intros Hnot.
    destruct (profileOf_integral (code country) Hnot) as (HI & Hrange & _).
    set (p := profileOf (code country)) in *.
    set (I := asInteger (toNumber (index p))) in *.
    exists I. split; [exact HI |]. split; [exact Hrange |].
    intros k v. rewrite generateCategoryPrices_lookup.
    destruct (negb (String.eqb k "total") && bool_decide (k ∈ map id CATEGORIES));
      [|discriminate].
    intros [= <-]. rewrite HI. cbn [toNumber].
    destruct (price_near_index Math_sin Hsin I (code country) k)
      as (n & Hn & Hb); [lia |].
    exists n. split; [exact Hn |]. split; [exact Hb | lia].
  - intros Hmember. rewrite (profileOf_member _ Hmember).
    split; [reflexivity |].
    intros k v. rewrite generateCategoryPrices_lookup.
    destruct (negb (String.eqb k "total") && bool_decide (k ∈ map id CATEGORIES));
      [|discriminate].
    intros [= <-]. cbn [index prototypeMember].
    rewrite price_without_index. reflexivity.
Qed.

Lemma category_prices_are_integers_near_the_index_witness :
  let square : number -> number := fun y => if y <? 0 then -1 else 1 in
  let cats := [ {| id := "total"; cat_name := "Total" |};
                {| id := "food"; cat_name := "Food" |} ] in
  let g := generateSimulatedCountryData square cats (sampleCountry "IT" "EUR") in
  let h := generateSimulatedCountryData square cats
             (sampleCountry "constructor" "EUR") in
  (exists I : Z,
      g_priceIndex g = Some (of_Z I)
      /\ (45 <= I <= 158)%Z
      /\ (forall k v,
             g_categoryPrices g !! k = Some v ->
             exists n,
               v = of_Z n /\ (I - 12 <= n <= I + 12)%Z /\ (33 <= n <= 170)%Z))
  /\ g_priceIndex h = None
  /\ (forall k v, g_categoryPrices h !! k = Some v -> isNaN v = true).
Proof.
  intros square cats.
  assert (Hsin : sinInRange square).
  { intros y _. unfold square. destruct (y <? 0); split; reflexivity. }
  split.
  - apply (proj1 (proj2 (category_prices_are_integers_near_the_index square cats
                           (sampleCountry "IT" "EUR") Hsin))).
    reflexivity.
  - apply (proj2 (proj2 (category_prices_are_integers_near_the_index square cats
                           (sampleCountry "constructor" "EUR") Hsin))).
    reflexivity.
Defined.

(** X3. For every country whose code names no member of
    [Object.prototype], known to the table of profiles or not, the generated
    price index is a whole number between 45 and 158 and the generated
    average salary a whole number between 8000 and 85000.  So for the data
    generated for two such countries the guards on a missing price index do
    not fail: with rates at hand for both currencies, the comparison is the
    formula on their indices.  For a code that names such a member the
    generated data has neither price index nor average salary, and a
    comparison with it falls back on the zero result. *)
Theorem generated_indices_are_usable
    (Math_sin : number -> number) (CATEGORIES : list ComparisonCategory)
    (fromCountry toCountry : SelectableCountry)
    (parsed fromRate toRate : number) (r : Rates) :
  let generated country :=
    fullData (generateSimulatedCountryData Math_sin CATEGORIES country) country in
  let named country := includes OBJECT_PROTOTYPE_KEYS (code country) in
  (forall country,
      named country = false ->
      exists I S : Z,
        priceIndex (generated country) = Some (of_Z I) /\ (45 <= I <= 158)%Z
        /\ averageSalaryEUR (generated country) = Some (of_Z S)
        /\ (8000 <= S <= 85000)%Z
        /\ truthy_opt (priceIndex (generated country)) = true)
  /\ (forall country,
         named country = true ->
         priceIndex (generated country) = None
         /\ averageSalaryEUR (generated country) = None)
  /\ (named fromCountry = false -> named toCountry = false ->
      rateOf r (currency fromCountry) = Some fromRate ->
      rateOf r (currency toCountry) = Some toRate ->
      truthy fromRate = true -> truthy toRate = true ->
      equivalentSalaryMemo parsed (Some (generated fromCountry))
        (Some (generated toCountry)) (Some r) fromCountry toCountry
      = {| equivalentSalary :=
             numericSalaryOf parsed / fromRate
             * (toNumber (index (profileOf (code toCountry)))
                / toNumber (index (profileOf (code fromCountry)))) * toRate;
           equivalentSalaryInEUR :=
             numericSalaryOf parsed / fromRate
             * (toNumber (index (profileOf (code toCountry)))
                / toNumber (index (profileOf (code fromCountry)))) |})
  /\ (named fromCountry = true \/ named toCountry = true ->
      equivalentSalaryMemo parsed (Some (generated fromCountry))
        (Some (generated toCountry)) (Some r) fromCountry toCountry
      = zeroResult).
Proof.
  intros generated named.
  assert (Htruthy : forall country,
             named country = false ->
             exists i, priceIndex (generated country) = Some i
                       /\ toNumber (index (profileOf (code country))) = i
                       /\ truthy i = true).
  { intros country Hnot. subst generated named. cbn.
    destruct (profileOf_integral (code country) Hnot) as (HI & Hrange & _).
    rewrite HI. eexists. split; [reflexivity |]. split; [reflexivity |].
    apply positive_truthy.
    destruct (of_Z_value (asInteger (toNumber (index (profileOf (code country))))))
      as [Ff Vf]; [lia |].
    rewrite ltb_V by (first [reflexivity | exact Ff]).
    rewrite Vf. change (V 0) with 0%Z. apply Z.ltb_lt.
    assert (0 < 2 ^ 1074)%Z by (apply Z.pow_pos_nonneg; lia). nia. }
  assert (Hnone : forall country,
             named country = true -> priceIndex (generated country) = None).
  { intros country Hmember. subst generated named. cbn.
    now rewrite (profileOf_member _ Hmember). }
  split; [|split; [|split]].
  - intros country Hnot.
    destruct (Htruthy country Hnot) as (i & Hi & _ & Ht).
    destruct (profileOf_integral (code country) Hnot) as (HI & Hrange & HS & Hsal).
    exists (asInteger (toNumber (index (profileOf (code country))))),
           (asInteger (toNumber (salary (profileOf (code country))))).
    split; [exact HI |]. split; [exact Hrange |]. split; [exact HS |].
    split; [exact Hsal |]. rewrite Hi. exact Ht.
  - intros country Hmember. split; [apply Hnone, Hmember |].
    subst generated named. cbn. now rewrite (profileOf_member _ Hmember).
  - intros Hnf Hnt Hfr Htr Hft Htt.
    destruct (Htruthy fromCountry Hnf) as (fi & Hfi & <- & Hfit).
    destruct (Htruthy toCountry Hnt) as (ti & Hti & <- & Htit).
    apply (equivalentSalaryMemo_guards_pass parsed (generated fromCountry)
             (generated toCountry) r fromCountry toCountry); assumption.
  - intros Hor. apply equivalentSalaryMemo_guard_fails.
    destruct Hor as [H|H]; [left | right; left]; now rewrite (Hnone _ H).
Qed.

Lemma generated_indices_are_usable_witness :
  let it := sampleCountry "IT" "EUR" in
  let us := sampleCountry "US" "USD" in
  let odd := sampleCountry "toString" "USD" in
  let generated country :=
    fullData (generateSimulatedCountryData (fun _ => 0.5) [] country) country in
  equivalentSalaryMemo 50000 (Some (generated it)) (Some (generated us))
    (Some (<["USD" := 1.17]> ∅)) it us
  = {| equivalentSalary := numericSalaryOf 50000 / 1 * (140 / 98) * 1.17;
       equivalentSalaryInEUR := numericSalaryOf 50000 / 1 * (140 / 98) |}
  /\ equivalentSalaryMemo 50000 (Some (generated it)) (Some (generated odd))
       (Some (<["USD" := 1.17]> ∅)) it odd
     = zeroResult.
Proof.
  intros it us odd generated. split.
  - apply (proj1 (proj2 (proj2 (generated_indices_are_usable (fun _ => 0.5) [] it us
                                  50000 1 1.17 (<["USD" := 1.17]> ∅)))));
      reflexivity.
  - apply (proj2 (proj2 (proj2 (generated_indices_are_usable (fun _ => 0.5) [] it odd
                                  50000 1 1.17 (<["USD" := 1.17]> ∅))))).
    right. reflexivity.
Defined.

(** X1. The pseudo-random number of a seed lies between 0 and 1, both
    ends included, whatever the seed: the hash fits 32 bits, so its sine is
    taken of an exact integer, and the fractional part of a finite number is
    never negative and never above 1.  The host's [Math.sin] is taken to
    return a number between [-1] and [1] on finite arguments. *)
Theorem pseudoRandom_in_unit_interval
    (Math_sin : number -> number) (seed : string) :
  sinInRange Math_sin ->
  between 0 1 (pseudoRandom Math_sin seed)
  /\ (- 2 ^ 31 <= hashOf seed < 2 ^ 31)%Z
  /\ V (of_Z (hashOf seed)) = (hashOf seed * 2 ^ 1074)%Z.
Proof.
  intros Hsin. split; [apply (pseudoRandom_between Math_sin Hsin) |].
  pose proof (hashOf_range seed) as Hh. split; [exact Hh |].
  apply of_Z_value. lia.
Qed.

Lemma pseudoRandom_in_unit_interval_witness :
  let square : number -> number := fun y => if y <? 0 then -1 else 1 in
  between 0 1 (pseudoRandom square "ITfood").
Proof.
  intros square.
  apply (proj1 (pseudoRandom_in_unit_interval square "ITfood"
                  ltac:(intros y _; unfold square; destruct (y <? 0);
                        split; reflexivity))).
Defined.

(** X5. The initialiser of the cache takes over an entry for a code
    exactly when [localStorage] holds, under the key ['ppc_data_' + code], an
    item of the current month that carries data, and then it takes that data.
    Items of other months, items that do not parse, items without data and
    items under other keys leave no trace; an empty storage gives an empty
    cache. *)
Theorem initCache_takes_the_items_of_the_month
    (currentMonthKey : string) (ls : gmap string StorageItem)
    (c : string) (d : CountryData) :
  (initCache currentMonthKey ls !! c = Some d
   <-> ls !! (DATA_KEY_PREFIX +:+ c) = Some (DataItem currentMonthKey (Some d)))
  /\ initCache currentMonthKey ∅ = ∅.
Proof.
  split; [|apply map_eq; intros k; now rewrite initCache_lookup, !lookup_empty].
  rewrite initCache_lookup.
  destruct (ls !! (DATA_KEY_PREFIX +:+ c)) as [[|date rs|monthKey [d'|]]|];
    try (split; discriminate).
  destruct (String.eqb_spec monthKey currentMonthKey) as [->|Hne].
  - split; intros [= ->]; reflexivity.
  - split; [discriminate | intros [= E _]; contradiction].
Qed.

Lemma EU_LIKE_known c : includes EU_LIKE c = true -> is_Some (lookupProfile COUNTRY_PROFILES c).
Proof.
  unfold includes, EU_LIKE. cbn [existsb].
  repeat (rewrite orb_true_iff; intros [H|H];
          [apply String.eqb_eq in H; subst c; vm_compute; eauto | revert H]).
  discriminate.
Qed.

(** X29. A country the table of profiles does not know gets the
    default profile, price index 70 and average salary 20000, unless its
    code names a member of [Object.prototype]: then the lookup finds that
    member, the default is passed over, and the generated data has neither
    price index nor average salary.  Either way the sources are 'World Bank',
    'WHO' and 'Numbeo' with no address of a data source: a code outside the
    table is never taken for a European one. *)
Theorem unknown_country_gets_the_default_profile
    (Math_sin : number -> number) (CATEGORIES : list ComparisonCategory)
    (country : SelectableCountry) :
  lookupProfile COUNTRY_PROFILES (code country) = None ->
  let g := generateSimulatedCountryData Math_sin CATEGORIES country in
  (if includes OBJECT_PROTOTYPE_KEYS (code country)
   then g_priceIndex g = None /\ g_averageSalaryEUR g = None
   else g_priceIndex g = Some 70 /\ g_averageSalaryEUR g = Some 20000)
  /\ g_metadata g = {| economicDataSource := "World Bank";
                       dataSourceUrl := None; lastUpdate := "2024" |}
  /\ map source (qolValues (g_qualityOfLife g))
     = ["World Bank"; "WHO"; "Numbeo"; "Numbeo"; "Numbeo"; "Numbeo"].
Proof.
  intros Hnone g. subst g. unfold generateSimulatedCountryData, profileOf.
  rewrite Hnone.
  assert (Heu : includes EU_LIKE (code country) = false).
  { destruct (includes EU_LIKE (code country)) eqn:E; [|reflexivity].
    destruct (EU_LIKE_known _ E) as [p Hp]. congruence. }
  assert (Hus : String.eqb (code country) "US" = false).
  { destruct (String.eqb_spec (code country) "US") as [E|E]; [|reflexivity].
    rewrite E in Hnone. vm_compute in Hnone. discriminate. }
  destruct (includes OBJECT_PROTOTYPE_KEYS (code country));
    cbn [g_priceIndex g_averageSalaryEUR g_metadata g_qualityOfLife qolValues map
         source unemploymentRate lifeExpectancy safetyIndex healthCareIndex
         pollutionIndex propertyPriceToIncomeRatio defaultProfile prototypeMember
         mkProfile regionIs region index salary region_eqb orb];
    rewrite Heu, Hus; repeat split.
Qed.

Lemma unknown_country_gets_the_default_profile_witness :
  g_priceIndex (generateSimulatedCountryData (fun _ => 0.5) [] (sampleCountry "XX" "EUR"))
  = Some 70
  /\ g_priceIndex (generateSimulatedCountryData (fun _ => 0.5) []
                     (sampleCountry "constructor" "EUR"))
     = None.
Proof.
  split.
  - apply (proj1 (proj1 (unknown_country_gets_the_default_profile (fun _ => 0.5) []
                           (sampleCountry "XX" "EUR") eq_refl))).
  - apply (proj1 (proj1 (unknown_country_gets_the_default_profile (fun _ => 0.5) []
                           (sampleCountry "constructor" "EUR") eq_refl))).
Defined.

(** * Quotients *)

Section Quotients.

Local Open Scope Z_scope.

Lemma shr_m_iter p rec :
  0 <= shr_m rec ->
  shr_m (SpecFloat.iter_pos shr_1 p rec) = shr_m rec / 2 ^ Z.pos p.
Proof.
  intros H. rewrite iter_pos_Pos_iter.
  induction p as [|p IH] using Pos.peano_ind.
  - change (Pos.iter shr_1 rec 1) with (shr_1 rec).
    destruct (shr_1_spec rec H) as [-> _]. reflexivity.
  - rewrite Pos.iter_succ, Pos2Z.inj_succ.
    assert (Hp : 0 < 2 ^ Z.pos p) by (apply Z.pow_pos_nonneg; lia).
    assert (H0 : 0 <= shr_m (Pos.iter shr_1 rec p))
      by (rewrite IH; apply Z.div_pos; lia).
    destruct (shr_1_spec _ H0) as [-> _]. rewrite IH, Z.div_div by lia.
    rewrite Z.pow_succ_r by lia. f_equal. lia.
Qed.

(** The first shift of the rounding procedure, whatever is known of the
    digits below the input: the mantissa is truncated to the exponent of
    the result. *)
Lemma shr_fexp_input mz ez loc :
  let E := fexp prec emax (Z.pos (digits2_pos mz) + ez) in
  ez <= E ->
  exists rec,
    shr_fexp prec emax (Z.pos mz) ez loc = (rec, E)
    /\ shr_m rec = Z.pos mz / 2 ^ (E - ez).
Proof.
  intros E Hn. unfold shr_fexp, shr, Zdigits2. fold E.
  assert (Hm : shr_m (shr_record_of_loc (Z.pos mz) loc) = Z.pos mz)
    by (destruct loc as [|[]]; reflexivity).
  destruct (E - ez) as [|p|p] eqn:Hd; try lia.
  - eexists. split; [f_equal; lia |]. rewrite Hm. now rewrite Z.div_1_r.
  - eexists. split; [f_equal; lia |].
    rewrite shr_m_iter by (rewrite Hm; lia). now rewrite Hm.
Qed.

(** The shape of a rounded result for any input: the truncated mantissa or
    its successor, renormalised after a carry. *)
Lemma round_aux_struct_loc s mz ez loc :
  let E := fexp prec emax (Z.pos (digits2_pos mz) + ez) in
  let m1 := Z.pos mz / 2 ^ (E - ez) in
  let R := binary_round_aux prec emax s (Z.pos mz) ez loc in
  ez <= E ->
  exists m1',
    (m1' = m1 \/ m1' = m1 + 1)
    /\ ((m1' = 0 /\ R = S754_zero s)
        \/ exists m'' e'',
            Z.pos m'' * 2 ^ (e'' - E) = m1' /\ E <= e''
            /\ ((e'' <= 971 /\ R = S754_finite s m'' e'')
                \/ (971 < e'' /\ R = S754_infinity s /\ 2 ^ 52 <= Z.pos m''))).
Proof.
  intros E m1 R Hn.
  destruct (shr_fexp_input mz ez loc Hn) as (rec & Hshr & Hm).
  fold E in Hshr, Hm. fold m1 in Hm.
  destruct (truncated_bounds mz ez Hn) as [Hlt53 Hge52].
  fold E in Hlt53, Hge52. fold m1 in Hlt53, Hge52.
  assert (Hm1 : 0 <= m1) by (apply Z.div_pos; [lia | apply Z.pow_pos_nonneg; lia]).
  assert (HEmin : -1074 <= E) by (subst E; rewrite fexp_eq; lia).
  pose proof (round_nearest_even_spec rec) as Hrnd. cbv zeta in Hrnd.
  set (m1' := round_nearest_even (shr_m rec) (loc_of_shr_record rec)) in *.
  exists m1'. split.
  { rewrite Hm in Hrnd. destruct Hrnd as [H|[H _]]; auto. }
  assert (Hrange : 0 <= m1' <= 2 ^ 53) by (rewrite Hm in Hrnd; lia).
  assert (HR : R = let '(mrs'', e'') := shr_fexp prec emax m1' E loc_Exact in
                   match shr_m mrs'' with
                   | 0 => S754_zero s
                   | Z.pos m => if (e'' <=? emax - prec) then S754_finite s m e''
                                else S754_infinity s
                   | Z.neg _ => S754_nan
                   end).
  { subst R. unfold binary_round_aux. rewrite Hshr. reflexivity. }
  destruct m1' as [|p|p] eqn:Hp; [| |lia].
  - left. split; [reflexivity |]. rewrite HR. unfold shr_fexp, shr. simpl Zdigits2.
    rewrite fexp_eq.
    destruct (Z.max (0 + E - 53) (-1074) - E) eqn:Hd; try lia; reflexivity.
  - right. destruct (Z.eq_dec (Z.pos p) (2 ^ 53)) as [Hcarry|Hnc].
    + exists (4503599627370496%positive), (E + 1).
      split; [replace (E + 1 - E) with 1 by lia; rewrite Hcarry; reflexivity |].
      split; [lia |].
      assert (Hp53 : p = 9007199254740992%positive) by lia. subst p.
      rewrite HR. unfold shr_fexp, shr.
      change (Zdigits2 (Z.pos 9007199254740992)) with 54.
      rewrite fexp_eq. replace (Z.max (54 + E - 53) (-1074) - E) with 1 by lia.
      simpl. change (emax - prec) with 971.
      destruct (Z.leb_spec (E + 1) 971); [left | right]; auto. repeat split; lia.
    + exists p, E. rewrite Z.sub_diag, Z.mul_1_r. split; [reflexivity |].
      split; [lia |].
      assert (Hd : Z.pos (digits2_pos p) <= 53) by (apply digits_le_53; lia).
      rewrite HR. unfold shr_fexp, shr. simpl Zdigits2. rewrite fexp_eq.
      destruct (Z.max (Z.pos (digits2_pos p) + E - 53) (-1074) - E) eqn:Hsh;
        try lia; simpl; change (emax - prec) with 971;
        (destruct (Z.leb_spec E 971); [left | right]; auto;
         repeat split; try lia;
         assert (2 ^ 52 <= m1) by (apply Hge52; lia);
         destruct Hrnd as [H'|[H' _]]; rewrite Hm in H'; lia).
Qed.

(** Rounding an inexact input against representable numbers: a
    representable number above the truncated input bounds the result from
    above, one below the successor of the truncated input bounds it from
    below. *)
Lemma round_aux_bounds_loc s mz ez loc K mg eg :
  let E := fexp prec emax (Z.pos (digits2_pos mz) + ez) in
  let R := binary_round_aux prec emax s (Z.pos mz) ez loc in
  let G := Z.pos mg * 2 ^ (eg + K) in
  ez <= E -> 0 <= ez + K -> 1074 <= K ->
  bounded prec emax mg eg = true ->
  (Z.pos mz * 2 ^ (ez + K) < G -> SFfin R = true /\ uval K R <= G)
  /\ (G < (Z.pos mz + 1) * 2 ^ (ez + K) ->
      R = S754_infinity s \/ (SFfin R = true /\ G <= uval K R)).
Proof.
  intros E R G Hn HK HK' Hg.
  destruct (bounded_arith mg eg Hg) as (Heg & Hmg & _).
  destruct (round_aux_struct_loc s mz ez loc Hn) as (m1' & Hm1' & HR).
  destruct (truncated_bounds mz ez Hn) as [Hlt53 Hge52].
  fold E in Hm1', HR, Hlt53, Hge52. fold R in HR.
  assert (HEmin : -1074 <= E) by (subst E; rewrite fexp_eq; lia).
  set (n := E - ez) in *. set (m1 := Z.pos mz / 2 ^ n) in *.
  assert (Hpn : 0 < 2 ^ n) by (apply Z.pow_pos_nonneg; lia).
  assert (HA : 0 < 2 ^ (ez + K)) by (apply Z.pow_pos_nonneg; lia).
  assert (HW : 2 ^ (E + K) = 2 ^ n * 2 ^ (ez + K)).
  { rewrite <- pow_split by lia. f_equal. lia. }
  assert (Hdm : Z.pos mz = 2 ^ n * m1 + Z.pos mz mod 2 ^ n)
    by (apply Z.div_mod; lia).
  pose proof (Z.mod_pos_bound (Z.pos mz) (2 ^ n) Hpn) as Hmod.
  assert (Hm1 : 0 <= m1) by (apply Z.div_pos; lia).
  assert (Hv1 : m1 * 2 ^ (E + K) <= Z.pos mz * 2 ^ (ez + K)) by (rewrite HW; nia).
  assert (Hv2 : (Z.pos mz + 1) * 2 ^ (ez + K) <= (m1 + 1) * 2 ^ (E + K))
    by (rewrite HW; nia).
  assert (HWpos : 0 < 2 ^ (E + K)) by (apply Z.pow_pos_nonneg; lia).
  assert (HGpos : 0 < G)
    by (subst G; apply Z.mul_pos_pos; [lia | apply Z.pow_pos_nonneg; lia]).
  assert (Hgrid : (exists k, G = k * 2 ^ (E + K)) \/ (G < m1 * 2 ^ (E + K))).
  { destruct (Z_le_gt_dec E eg) as [Hle|Hgt].
    - left. exists (Z.pos mg * 2 ^ (eg - E)). subst G.
      rewrite <- Z.mul_assoc, <- pow_split by lia. do 2 f_equal. lia.
    - right. assert (H52 : 2 ^ 52 <= m1) by (apply Hge52; lia).
      subst G. apply (scale_lt _ _ _ _ (2 ^ 52));
        [apply Z.pow_pos_nonneg; lia | apply pow_double_le; lia | lia | | lia].
      change (2 * 2 ^ 52) with (2 ^ 53). lia. }
  assert (Hval : forall m'' e'', Z.pos m'' * 2 ^ (e'' - E) = m1' -> E <= e'' ->
                   Z.pos m'' * 2 ^ (e'' + K) = m1' * 2 ^ (E + K)).
  { intros m'' e'' Hmm Hee. rewrite <- Hmm, <- Z.mul_assoc, <- pow_split by lia.
    do 2 f_equal. lia. }
  assert (Hbig : forall m'' e'', 971 < e'' -> 2 ^ 52 <= Z.pos m'' ->
                   G < Z.pos m'' * 2 ^ (e'' + K)).
  { intros m'' e'' He Hm. subst G. apply (scale_lt _ _ _ _ (2 ^ 52));
      [apply Z.pow_pos_nonneg; lia | apply pow_double_le; lia | lia | | lia].
    change (2 * 2 ^ 52) with (2 ^ 53). lia. }
  split.
  - intros HvG.
    assert (Hle : m1' * 2 ^ (E + K) <= G).
    { destruct Hgrid as [[k Hk]|Hlt]; [|lia].
      assert (Hup : (m1 + 1) * 2 ^ (E + K) <= k * 2 ^ (E + K)).
      { apply (grid_up m1 k _ G); [exact HWpos | lia | lia]. }
      rewrite Hk. destruct Hm1' as [-> | ->]; nia. }
    destruct HR as [[Hz ->]|(m'' & e'' & Hmm & Hee & [[He ->]|(He & -> & Hm52)])].
    + simpl. lia.
    + simpl. rewrite (Hval m'' e'' Hmm Hee). auto.
    + exfalso. specialize (Hbig m'' e'' He Hm52).
      rewrite (Hval m'' e'' Hmm Hee) in Hbig. lia.
  - intros HGv.
    assert (Hle : G <= m1' * 2 ^ (E + K)).
    { assert (Hmono : m1 * 2 ^ (E + K) <= m1' * 2 ^ (E + K)).
      { apply Z.mul_le_mono_nonneg_r; [lia |]. destruct Hm1' as [-> | ->]; lia. }
      destruct Hgrid as [[k Hk]|Hlt]; [|lia].
      assert (Hdown : k * 2 ^ (E + K) <= m1 * 2 ^ (E + K)).
      { apply (grid_down m1 k _ G); [exact HWpos | lia | lia]. }
      lia. }
    destruct HR as [[Hz ->]|(m'' & e'' & Hmm & Hee & [[He ->]|(He & -> & Hm52)])].
    + exfalso. rewrite Hz in Hle. lia.
    + right. simpl. rewrite (Hval m'' e'' Hmm Hee). auto.
    + left. reflexivity.
Qed.

Lemma digits_53 m : 2 ^ 52 <= Z.pos m < 2 ^ 53 -> Z.pos (digits2_pos m) = 53.
Proof.
  intros [Hlo Hhi]. pose proof (digits2_bounds m) as [H1 H2].
  assert (Z.pos (digits2_pos m) <= 53) by (apply digits_le_53; lia).
  assert (52 < Z.pos (digits2_pos m)); [|lia].
  apply (Z.pow_lt_mono_r_iff 2); lia.
Qed.

(** The quotient of two positive normal numbers against a representable
    number. *)
Lemma SFdiv_normal_bounds mx ex my ey mg eg :
  bounded prec emax mx ex = true -> bounded prec emax my ey = true ->
  2 ^ 52 <= Z.pos mx -> 2 ^ 52 <= Z.pos my -> -1021 <= ex - ey ->
  bounded prec emax mg eg = true ->
  let R := SF64div (S754_finite false mx ex) (S754_finite false my ey) in
  let X := Z.pos mx * 2 ^ (ex + 1074) in
  let Y := Z.pos my * 2 ^ (ey + 1074) in
  let G := Z.pos mg * 2 ^ (eg + 1074) in
  (X * 2 ^ 1074 < G * Y -> SFfin R = true /\ Fval R <= G)
  /\ (G * Y <= X * 2 ^ 1074 ->
      R = S754_infinity false \/ (SFfin R = true /\ G <= Fval R)).
Proof.
  intros Hx Hy Hnx Hny Hexp Hg R X Y G.
  destruct (bounded_arith mx ex Hx) as (Hex & Hmx & _).
  destruct (bounded_arith my ey Hy) as (Hey & Hmy & _).
  set (e' := ex - ey - 53).
  assert (Hcore : SFdiv_core_binary prec emax (Z.pos mx) ex (Z.pos my) ey
                  = (let '(q, r) := Z.div_eucl (Z.pos mx * 2 ^ 53) (Z.pos my) in
                     (q, e', new_location (Z.pos my) r))).
  { unfold SFdiv_core_binary, Zdigits2.
    rewrite (digits_53 mx) by lia. rewrite (digits_53 my) by lia.
    rewrite fexp_eq.
    replace (Z.min (Z.max (53 + ex - (53 + ey) - 53) (-1074)) (ex - ey)) with e'
      by (subst e'; lia).
    replace (ex - ey - e') with 53 by (subst e'; lia).
    cbv zeta. rewrite Z.shiftl_mul_pow2 by lia. reflexivity. }
  pose proof (Z_div_mod (Z.pos mx * 2 ^ 53) (Z.pos my) ltac:(lia)) as Hdiv.
  destruct (Z.div_eucl (Z.pos mx * 2 ^ 53) (Z.pos my)) as [q r] eqn:Hqr.
  destruct Hdiv as [Hm' Hr].
  assert (Hq : 2 ^ 52 <= q).
  { destruct (Z_lt_le_dec q (2 ^ 52)) as [Hlt|]; [exfalso | assumption].
    assert (0 <= q) by nia.
    assert (q * Z.pos my <= (2 ^ 52 - 1) * (2 ^ 53 - 1)) by nia.
    assert (2 ^ 52 * 2 ^ 53 <= Z.pos mx * 2 ^ 53) by nia.
    lia. }
  destruct q as [|qp|qp]; try lia.
  assert (HR : R = binary_round_aux prec emax false (Z.pos qp) e'
                     (new_location (Z.pos my) r)).
  { subst R. unfold SF64div, SFdiv. rewrite Hcore. reflexivity. }
  assert (Hdq : 53 <= Z.pos (digits2_pos qp)).
  { pose proof (digits2_bounds qp) as [_ H2].
    assert (52 < Z.pos (digits2_pos qp)); [|lia].
    apply (Z.pow_lt_mono_r_iff 2); lia. }
  assert (Hn : e' <= fexp prec emax (Z.pos (digits2_pos qp) + e'))
    by (rewrite fexp_eq; lia).
  destruct (round_aux_bounds_loc false qp e' (new_location (Z.pos my) r) 1074 mg eg
              Hn ltac:(subst e'; lia) ltac:(lia) Hg) as [HU HL].
  rewrite <- HR in HU, HL. fold G in HU, HL.
  pose proof (binary_round_aux_sign false (Z.pos qp) e' (new_location (Z.pos my) r))
    as Hsign. rewrite <- HR in Hsign.
  set (A := 2 ^ (e' + 1074)) in *. set (B := 2 ^ (ey + 1074)) in *.
  assert (HA : 0 < A) by (apply Z.pow_pos_nonneg; subst e'; lia).
  assert (HB : 0 < B) by (apply Z.pow_pos_nonneg; lia).
  assert (HX : X * 2 ^ 1074 = (Z.pos mx * 2 ^ 53) * A * B).
  { subst X A B e'.
    rewrite <- !Z.mul_assoc. f_equal.
    rewrite <- !Z.pow_add_r by lia. f_equal. lia. }
  assert (HY : Y = Z.pos my * B) by reflexivity.
  split.
  - intros Hlt. rewrite HX, HY, Hm' in Hlt.
    assert (Hq' : Z.pos qp * A < G).
    { assert (Z.pos my * (Z.pos qp * A) * B < Z.pos my * G * B) by nia.
      assert (Z.pos my * (Z.pos qp * A) < Z.pos my * G) by nia.
      nia. }
    destruct (HU Hq') as [Hfin Hle]. split; [exact Hfin |].
    rewrite (Fval_signed false R Hsign Hfin). exact Hle.
  - intros Hle. rewrite HX, HY, Hm' in Hle.
    assert (Hq' : G < (Z.pos qp + 1) * A).
    { assert (Z.pos my * G * B < Z.pos my * ((Z.pos qp + 1) * A) * B) by nia.
      assert (Z.pos my * G < Z.pos my * ((Z.pos qp + 1) * A)) by nia.
      nia. }
    destruct (HL Hq') as [Hinf|[Hfin Hge]]; [left; exact Hinf | right].
    split; [exact Hfin |].
    rewrite (Fval_signed false R Hsign Hfin). exact Hge.
Qed.

End Quotients.

Section Percentages.

Local Open Scope Z_scope.

(** A number between 1 and [2^20] is a positive normal number. *)
Lemma between_normal a :
  between 1 1048576 a ->
  exists m e,
    Prim2SF a = S754_finite false m e
    /\ bounded prec emax m e = true
    /\ 2 ^ 52 <= Z.pos m
    /\ -52 <= e <= -32
    /\ 2 ^ 1074 <= V a <= 2 ^ 20 * 2 ^ 1074.
Proof.
  intros Hb. apply between_iff in Hb; [|reflexivity | reflexivity].
  destruct Hb as [Hfin [Hlo Hhi]].
  change (V 1) with (2 ^ 1074) in Hlo.
  change (V 1048576) with (2 ^ 20 * 2 ^ 1074) in Hhi.
  assert (HU : 0 < 2 ^ 1074) by (apply Z.pow_pos_nonneg; lia).
  pose proof (Prim2SF_valid a) as Hval. unfold fin, V in *.
  destruct (Prim2SF a) as [s|s| |s m e]; try discriminate.
  { cbn in Hlo. lia. }
  cbn [valid_binary] in Hval. destruct (bounded_arith m e Hval) as (He & Hm & Hnorm).
  unfold Fval in Hlo, Hhi.
  assert (HE : 0 < 2 ^ (e + 1074)) by (apply Z.pow_pos_nonneg; lia).
  destruct s; [simpl cond_Zopp in Hlo; nia |]. simpl cond_Zopp in Hlo, Hhi.
  assert (He1 : -53 < e).
  { destruct (Z_lt_le_dec (-53) e) as [|Hle]; [assumption | exfalso].
    assert (2 ^ (e + 1074) <= 2 ^ 1021) by (apply Z.pow_le_mono_r; lia).
    assert (Z.pos m * 2 ^ (e + 1074) < 2 ^ 53 * 2 ^ 1021) by nia.
    change (2 ^ 53 * 2 ^ 1021) with (2 ^ 1074) in *. lia. }
  assert (Hm52 : 2 ^ 52 <= Z.pos m) by (apply Hnorm; lia).
  assert (He2 : e <= -32).
  { destruct (Z_le_gt_dec e (-32)) as [|Hgt]; [assumption | exfalso].
    assert (2 ^ 1043 <= 2 ^ (e + 1074)) by (apply Z.pow_le_mono_r; lia).
    assert (2 ^ 52 * 2 ^ 1043 <= Z.pos m * 2 ^ (e + 1074)) by nia.
    change (2 ^ 52 * 2 ^ 1043) with (2 ^ 21 * 2 ^ 1074) in *.
    change (2 ^ 20 * 2 ^ 1074) with (2 ^ 1094) in *.
    change (2 ^ 21 * 2 ^ 1074) with (2 ^ 1095) in *.
    assert (2 ^ 1094 < 2 ^ 1095) by (apply Z.pow_lt_mono_r; lia). lia. }
  exists m, e. repeat split; auto; lia.
Qed.

(** The quotient of two numbers between 1 and [2^20] against a positive
    finite number. *)
Lemma div_compare a b g :
  between 1 1048576 a -> between 1 1048576 b ->
  fin g = true -> 0 < V g ->
  (V a * 2 ^ 1074 < V g * V b -> (a / b <=? g)%float = true)
  /\ (V g * V b <= V a * 2 ^ 1074 -> (g <=? a / b)%float = true).
Proof.
  intros Ha Hb Hg Hgpos.
  destruct (between_normal a Ha) as (mx & ex & Hpa & Hbx & Hmx & Hex & _).
  destruct (between_normal b Hb) as (my & ey & Hpb & Hby & Hmy & Hey & _).
  pose proof (Prim2SF_valid g) as Hvg. unfold fin, V in Hg, Hgpos.
  destruct (Fval_pos_inv _ Hgpos) as (mg & eg & Hpg). rewrite Hpg in Hvg.
  cbn [valid_binary] in Hvg.
  destruct (SFdiv_normal_bounds mx ex my ey mg eg Hbx Hby Hmx Hmy ltac:(lia) Hvg)
    as [HU HL].
  unfold V. rewrite Hpa, Hpb, Hpg. unfold Fval at 1 2 3 4 5 6.
  simpl cond_Zopp.
  rewrite !FloatAxioms.leb_spec, FloatAxioms.div_spec, Hpa, Hpb, Hpg.
  split.
  - intros Hlt. destruct (HU Hlt) as [Hfin Hle].
    unfold SFleb. rewrite SFcompare_Fval; try assumption; try reflexivity.
    + unfold Fval at 2. simpl cond_Zopp.
      destruct (Z.compare_spec (Fval (SF64div (S754_finite false mx ex)
                                               (S754_finite false my ey)))
                               (Z.pos mg * 2 ^ (eg + 1074))); try reflexivity; lia.
    + rewrite <- Hpa, <- Hpb, <- FloatAxioms.div_spec. apply Prim2SF_valid.
  - intros Hle. destruct (HL Hle) as [Hinf|[Hfin Hge]].
    + rewrite Hinf. reflexivity.
    + unfold SFleb. rewrite SFcompare_Fval; try assumption; try reflexivity.
      * unfold Fval at 1. simpl cond_Zopp.
        destruct (Z.compare_spec (Z.pos mg * 2 ^ (eg + 1074))
                                 (Fval (SF64div (S754_finite false mx ex)
                                                 (S754_finite false my ey))));
          try reflexivity; lia.
      * rewrite <- Hpa, <- Hpb, <- FloatAxioms.div_spec. apply Prim2SF_valid.
Qed.

(** Two numbers between 1 and [2^20] of one value are one number. *)
Lemma normal_value_inj a b :
  between 1 1048576 a -> between 1 1048576 b -> V a = V b -> a = b.
Proof.
  intros Ha Hb HV.
  destruct (between_normal a Ha) as (mx & ex & Hpa & Hbx & Hmx & Hex & _).
  destruct (between_normal b Hb) as (my & ey & Hpb & Hby & Hmy & Hey & _).
  destruct (bounded_arith mx ex Hbx) as (_ & Hx53 & _).
  destruct (bounded_arith my ey Hby) as (_ & Hy53 & _).
  apply Prim2SF_inj. rewrite Hpa, Hpb. unfold V in HV. rewrite Hpa, Hpb in HV.
  unfold Fval in HV. simpl cond_Zopp in HV.
  assert (He : ex = ey).
  { destruct (Z.lt_trichotomy ex ey) as [Hlt|[Heq|Hgt]]; [exfalso | exact Heq | exfalso].
    - assert (Hs : 2 ^ (ey + 1074) = 2 ^ (ey - ex) * 2 ^ (ex + 1074)).
      { rewrite <- Z.pow_add_r by lia. f_equal. lia. }
      assert (2 ^ 1 <= 2 ^ (ey - ex)) by (apply Z.pow_le_mono_r; lia).
      assert (0 < 2 ^ (ex + 1074)) by (apply Z.pow_pos_nonneg; lia).
      rewrite Hs in HV. nia.
    - assert (Hs : 2 ^ (ex + 1074) = 2 ^ (ex - ey) * 2 ^ (ey + 1074)).
      { rewrite <- Z.pow_add_r by lia. f_equal. lia. }
      assert (2 ^ 1 <= 2 ^ (ex - ey)) by (apply Z.pow_le_mono_r; lia).
      assert (0 < 2 ^ (ey + 1074)) by (apply Z.pow_pos_nonneg; lia).
      rewrite Hs in HV. nia. }
  subst ey.
  assert (0 < 2 ^ (ex + 1074)) by (apply Z.pow_pos_nonneg; lia).
  assert (Z.pos mx = Z.pos my) by nia. congruence.
Qed.

(** The product of two finite numbers, finite itself, carries the sign of
    the factors, and is no smaller in magnitude than a representable number
    below the exact product. *)
Lemma SFmul_lower sx mx ex sy my ey mg eg :
  bounded prec emax mx ex = true -> bounded prec emax my ey = true ->
  bounded prec emax mg eg = true ->
  let R := SF64mul (S754_finite sx mx ex) (S754_finite sy my ey) in
  Z.pos mg * 2 ^ (eg + 1074) * 2 ^ 1074
  <= (Z.pos mx * 2 ^ (ex + 1074)) * (Z.pos my * 2 ^ (ey + 1074)) ->
  SFfin R = true ->
  Fval R = cond_Zopp (xorb sx sy) (uval 1074 R)
  /\ Z.pos mg * 2 ^ (eg + 1074) <= uval 1074 R.
Proof.
  intros Hx Hy Hg R Hle Hfin.
  destruct (bounded_arith mx ex Hx) as (Hex & _).
  destruct (bounded_arith my ey Hy) as (Hey & _).
  destruct (bounded_arith mg eg Hg) as (Heg & _).
  unfold SF64mul, SFmul in R.
  pose proof (binary_round_aux_sign (xorb sx sy) (Z.pos (mx * my)) (ex + ey) loc_Exact)
    as Hsign. fold R in Hsign.
  split; [apply Fval_signed; assumption |].
  destruct (round_aux_bounds (xorb sx sy) (mx * my) (ex + ey) 2148 mg eg
              (mul_exponent_ok mx ex my ey Hx Hy) ltac:(lia) ltac:(lia) Hg)
    as [_ HL].
  fold R in HL.
  assert (Hv : Z.pos (mx * my) * 2 ^ (ex + ey + 2148)
               = (Z.pos mx * 2 ^ (ex + 1074)) * (Z.pos my * 2 ^ (ey + 1074))).
  { replace (ex + ey + 2148) with ((ex + 1074) + (ey + 1074)) by lia.
    rewrite (pow_split (ex + 1074) (ey + 1074)) by lia.
    rewrite Pos2Z.inj_mul. ring. }
  assert (HG : Z.pos mg * 2 ^ (eg + 2148) = Z.pos mg * 2 ^ (eg + 1074) * 2 ^ 1074).
  { rewrite <- Z.mul_assoc, <- pow_split by lia. do 2 f_equal. lia. }
  rewrite Hv, HG in HL. destruct (HL Hle) as [Hinf|[_ Hge]].
  { rewrite Hinf in Hfin. discriminate. }
  pose proof (round_aux_struct (xorb sx sy) (mx * my) (ex + ey)
                (mul_exponent_ok mx ex my ey Hx Hy)) as Hst.
  cbv zeta in Hst. fold R in Hst.
  assert (HEmin : -1074 <= fexp prec emax (Z.pos (digits2_pos (mx * my)) + (ex + ey)))
    by (rewrite fexp_eq; lia).
  clearbody R.
  assert (HvalidR : uval 2148 R = uval 1074 R * 2 ^ 1074).
  { destruct R as [?|?| |sr mr er]; try reflexivity.
    unfold uval. destruct (Z_le_gt_dec (-1074) er).
    - rewrite <- Z.mul_assoc, <- pow_split by lia. do 2 f_equal. lia.
    - exfalso.
      destruct Hst
        as (m1' & _ & [[_ Hz]|(m'' & e'' & _ & Hee & [[_ Hf]|(_ & Hi & _)])]);
        try discriminate.
      injection Hf as _ _ <-. lia. }
  rewrite HvalidR in Hge.
  assert (0 < 2 ^ 1074) by (apply Z.pow_pos_nonneg; lia). nia.
Qed.

(** The product with 100 of a number between two positive or two negative
    bounds is above or below 0. *)
Lemma times_100_sign d :
  (between 0x1p-20 2097152 d -> (0 <? d * 100)%float = true)
  /\ (between (-1) (-0x1p-21) d -> (d * 100 <? 0)%float = true).
Proof.
  assert (HU : 0 < 2 ^ 1074) by (apply Z.pow_pos_nonneg; lia).
  assert (H100 : Prim2SF 100 = S754_finite false 7036874417766400 (-46))
    by reflexivity.
  split; intros Hb.
  - apply between_iff in Hb as [Hd [Hlo Hhi]]; [|reflexivity | reflexivity].
    change (V 0x1p-20) with (2 ^ 1054) in Hlo.
    assert (Hfin : fin (d * 100)%float = true).
    { apply (between_fin 0 209715200); [reflexivity | reflexivity |].
      apply (mul_between_nonneg 2097152 100 209715200);
        [vm_compute; reflexivity | vm_compute; reflexivity | | split; reflexivity].
      apply between_iff; [reflexivity | reflexivity |].
      split; [exact Hd |]. change (V 0) with 0.
      assert (0 < 2 ^ 1054) by (apply Z.pow_pos_nonneg; lia). lia. }
    assert (Hp : 0 < 2 ^ 1054) by (apply Z.pow_pos_nonneg; lia).
    pose proof (Prim2SF_valid d) as Hvd. unfold fin, V in *.
    destruct (Fval_pos_inv (Prim2SF d) ltac:(lia)) as (m & e & Hpd).
    rewrite Hpd in Hvd, Hlo. cbn [valid_binary] in Hvd.
    unfold Fval in Hlo. simpl cond_Zopp in Hlo.
    rewrite FloatAxioms.ltb_spec. unfold SFltb.
    rewrite SFcompare_Fval;
      [| reflexivity | apply Prim2SF_valid | reflexivity | exact Hfin].
    rewrite FloatAxioms.mul_spec, Hpd, H100 in *.
    destruct (SFmul_lower false m e false 7036874417766400 (-46)
                4503599627370496 (-72) Hvd eq_refl eq_refl) as [H1 H2];
      [|exact Hfin |].
    + change (Z.pos 4503599627370496 * 2 ^ (-72 + 1074)) with (2 ^ 1054).
      change (Z.pos 7036874417766400 * 2 ^ (-46 + 1074)) with (100 * 2 ^ 1074).
      nia.
    + change (Z.pos 4503599627370496 * 2 ^ (-72 + 1074)) with (2 ^ 1054) in H2.
      set (R := SF64mul _ _) in *. rewrite H1.
      change (cond_Zopp (xorb false false) (uval 1074 R)) with (uval 1074 R).
      change (Fval (Prim2SF 0)) with 0.
      destruct (Z.compare_spec 0 (uval 1074 R)); try reflexivity; lia.
  - apply between_iff in Hb as [Hd [Hlo Hhi]]; [|reflexivity | reflexivity].
    change (V (-0x1p-21)) with (- 2 ^ 1053) in Hhi.
    change (V (-1)) with (- 2 ^ 1074) in Hlo.
    assert (Hfin : fin (d * 100)%float = true).
    { apply (between_fin (-100) 100); [reflexivity | reflexivity |].
      apply (mul_between_abs 1 100 100);
        [vm_compute; reflexivity | vm_compute; reflexivity | vm_compute; reflexivity
        | | split; reflexivity].
      apply between_iff; [reflexivity | reflexivity |].
      split; [exact Hd |]. change (V (PrimFloat.opp 1)) with (- 2 ^ 1074).
      change (V 1) with (2 ^ 1074).
      assert (0 < 2 ^ 1053) by (apply Z.pow_pos_nonneg; lia). lia. }
    assert (Hp : 0 < 2 ^ 1053) by (apply Z.pow_pos_nonneg; lia).
    pose proof (Prim2SF_valid d) as Hvd. unfold fin, V in *.
    destruct (Fval_neg_inv (Prim2SF d) ltac:(lia)) as (m & e & Hpd).
    rewrite Hpd in Hvd, Hhi. cbn [valid_binary] in Hvd.
    unfold Fval in Hhi. simpl cond_Zopp in Hhi.
    rewrite FloatAxioms.ltb_spec. unfold SFltb.
    rewrite SFcompare_Fval;
      [| apply Prim2SF_valid | reflexivity | exact Hfin | reflexivity].
    rewrite FloatAxioms.mul_spec, Hpd, H100 in *.
    destruct (SFmul_lower true m e false 7036874417766400 (-46)
                4503599627370496 (-73) Hvd eq_refl eq_refl) as [H1 H2];
      [|exact Hfin |].
    + change (Z.pos 4503599627370496 * 2 ^ (-73 + 1074)) with (2 ^ 1053).
      change (Z.pos 7036874417766400 * 2 ^ (-46 + 1074)) with (100 * 2 ^ 1074).
      nia.
    + change (Z.pos 4503599627370496 * 2 ^ (-73 + 1074)) with (2 ^ 1053) in H2.
      set (R := SF64mul _ _) in *. rewrite H1.
      change (cond_Zopp (xorb true false) (uval 1074 R)) with (- uval 1074 R).
      change (Fval (Prim2SF 0)) with 0.
      destruct (Z.compare_spec (- uval 1074 R) 0); try reflexivity; lia.
Qed.

Lemma div_between a b lo hi :
  between 1 1048576 a -> between 1 1048576 b ->
  fin lo = true -> fin hi = true -> 0 < V lo -> 0 < V hi ->
  V lo * V b <= V a * 2 ^ 1074 -> V a * 2 ^ 1074 < V hi * V b ->
  between lo hi (a / b)%float.
Proof.
  intros Ha Hb Flo Fhi Hlo Hhi H1 H2. split.
  - apply (div_compare a b lo Ha Hb Flo Hlo), H1.
  - apply (div_compare a b hi Ha Hb Fhi Hhi), H2.
Qed.

(** The product with 100 of a number between [-1] and 0 is not above 0. *)
Lemma times_100_nonpos d :
  between (-1) 0 d -> (d * 100 <=? 0)%float = true.
Proof.
  intros Hb.
  assert (HU : 0 < 2 ^ 1074) by (apply Z.pow_pos_nonneg; lia).
  apply between_iff in Hb as [Hd [Hlo Hhi]]; [|reflexivity | reflexivity].
  change (V (-1)) with (- 2 ^ 1074) in Hlo. change (V 0) with 0 in Hhi.
  assert (Hfin : fin (d * 100)%float = true).
  { apply (between_fin (-100) 100); [reflexivity | reflexivity |].
    apply (mul_between_abs 1 100 100);
      [vm_compute; reflexivity | vm_compute; reflexivity | vm_compute; reflexivity
      | | split; reflexivity].
    apply between_iff; [reflexivity | reflexivity |].
    split; [exact Hd |]. change (V (PrimFloat.opp 1)) with (- 2 ^ 1074).
    change (V 1) with (2 ^ 1074). lia. }
  rewrite leb_V by (first [exact Hfin | reflexivity]).
  change (V 0) with 0. apply Z.leb_le.
  pose proof (Prim2SF_valid d) as Hv.
  unfold fin, V in *. rewrite FloatAxioms.mul_spec in *.
  change (Prim2SF 100) with (S754_finite false 7036874417766400 (-46)) in *.
  destruct (Prim2SF d) as [s|s| |s m e]; [destruct s; cbn; lia | discriminate
                                          | discriminate |].
  assert (s = true).
  { destruct s; [reflexivity |]. unfold Fval in Hhi. simpl cond_Zopp in Hhi.
    pose proof (bounded_arith m e Hv) as [He _].
    assert (0 < 2 ^ (e + 1074)) by (apply Z.pow_pos_nonneg; lia). nia. }
  subst s. unfold SF64mul, SFmul in *.
  pose proof (binary_round_aux_sign (xorb true false)
                (Z.pos (m * 7036874417766400)) (e + -46) loc_Exact) as Hsign.
  rewrite (Fval_signed _ _ Hsign Hfin).
  change (cond_Zopp (xorb true false) ?z) with (- z).
  rewrite <- Fval_abs_uval by exact Hfin.
  pose proof (Z.abs_nonneg
                (Fval (binary_round_aux prec emax (xorb true false)
                         (Z.pos (m * 7036874417766400)) (e + -46) loc_Exact))).
  lia.
Qed.

End Percentages.

(** X30. A positive percentage means a higher index, a negative one a
    lower index.  For two indices between 1 and [2^20], the percentage of a
    category is not below 0 when the target index is not below the source
    index and not above 0 when it is not above it; for whole-number indices,
    as the generated ones are, it is above 0 exactly for a higher target
    index, below 0 exactly for a lower one, and 0 for an equal one. *)
Theorem percentage_has_the_sign_of_the_difference
    (fd td : CountryData) (category : ComparisonCategory)
    (fromIndex toIndex : number) :
  categoryIndex fd category = Some fromIndex ->
  categoryIndex td category = Some toIndex ->
  between 1 1048576 fromIndex ->
  between 1 1048576 toIndex ->
  let p := percentageDiff (priceLevelEntry fd td category) in
  ((fromIndex <=? toIndex) = true -> (0 <=? p) = true)
  /\ ((toIndex <=? fromIndex) = true -> (p <=? 0) = true)
  /\ (forall nf nt : Z,
         (1 <= nf <= 1048576)%Z -> (1 <= nt <= 1048576)%Z ->
         fromIndex = of_Z nf -> toIndex = of_Z nt ->
         ((nf < nt)%Z -> (0 <? p) = true)
         /\ ((nt < nf)%Z -> (p <? 0) = true)
         /\ (nf = nt -> p = 0)).
Proof.
  intros Hf Ht Hbf Hbt p.
  assert (HU : (0 < 2 ^ 1074)%Z) by (apply Z.pow_pos_nonneg; lia).
  destruct (between_normal fromIndex Hbf) as (mf & ef & Hpf & _ & _ & _ & Hvf).
  destruct (between_normal toIndex Hbt) as (mt & et & Hpt & _ & _ & _ & Hvt).
  assert (Ff : fin fromIndex = true) by (unfold fin; now rewrite Hpf).
  assert (Ft : fin toIndex = true) by (unfold fin; now rewrite Hpt).
  assert (Hnz : (fromIndex =? 0) = false).
  { rewrite FloatAxioms.eqb_spec, Hpf. reflexivity. }
  assert (Hp : p = (toIndex / fromIndex - 1) * 100).
  { subst p. unfold priceLevelEntry. now rewrite Hf, Ht, Hnz. }
  assert (Hupper : (V toIndex * 2 ^ 1074 < V 2097152 * V fromIndex)%Z).
  { change (V 2097152) with (2 ^ 21 * 2 ^ 1074)%Z. nia. }
  assert (Hlower : (V 0x1p-21 * V fromIndex <= V toIndex * 2 ^ 1074)%Z).
  { change (V 0x1p-21) with (2 ^ 1053)%Z.
    change (2 ^ 1074)%Z with (2 ^ 21 * 2 ^ 1053)%Z in *.
    assert (0 < 2 ^ 1053)%Z by (apply Z.pow_pos_nonneg; lia). nia. }
  split; [|split].
  - intros Hle. rewrite leb_V in Hle by assumption. apply Z.leb_le in Hle.
    rewrite Hp.
    assert (Hq : between 1 2097152 (toIndex / fromIndex)).
    { apply div_between; try assumption; try reflexivity.
      change (V 1) with (2 ^ 1074)%Z. nia. }
    assert (Hd : between 0 2097152 (toIndex / fromIndex - 1)).
    { apply (sub_between 1 2097152 1 1);
        [vm_compute; reflexivity | vm_compute; reflexivity | exact Hq
        | split; reflexivity]. }
    apply (mul_between_nonneg 2097152 100 209715200);
      [vm_compute; reflexivity | vm_compute; reflexivity | exact Hd
      | split; reflexivity].
  - intros Hle. rewrite leb_V in Hle by assumption. apply Z.leb_le in Hle.
    rewrite Hp.
    destruct (Z.eq_dec (V toIndex) (V fromIndex)) as [Heq|Hne].
    + rewrite (normal_value_inj toIndex fromIndex Hbt Hbf Heq).
      rewrite div_self; [reflexivity | | rewrite isFinite_fin; exact Ff].
      apply positive_truthy. rewrite ltb_V by (first [reflexivity | exact Ff]).
      change (V 0) with 0%Z. apply Z.ltb_lt. lia.
    + assert (Hq : between 0x1p-21 1 (toIndex / fromIndex)).
      { apply div_between; try assumption; try reflexivity.
        change (V 1) with (2 ^ 1074)%Z. nia. }
      apply times_100_nonpos.
      apply (sub_between 0x1p-21 1 1 1);
        [vm_compute; reflexivity | vm_compute; reflexivity | exact Hq
        | split; reflexivity].
  - intros nf nt Hnf Hnt Ef Et.
    destruct (of_Z_value nf) as [_ Vf]; [lia |].
    destruct (of_Z_value nt) as [_ Vt]; [lia |].
    rewrite <- Ef in Vf. rewrite <- Et in Vt.
    split; [|split].
    + intros Hlt. rewrite Hp. apply times_100_sign.
      apply (sub_between 0x1.00001p+0 2097152 1 1);
        [vm_compute; reflexivity | vm_compute; reflexivity | | split; reflexivity].
      apply div_between; try assumption; try reflexivity.
      rewrite Vf, Vt. change (V 0x1.00001p+0) with ((2 ^ 20 + 1) * 2 ^ 1054)%Z.
      change (2 ^ 1074)%Z with (2 ^ 20 * 2 ^ 1054)%Z.
      assert (0 < 2 ^ 1054)%Z by (apply Z.pow_pos_nonneg; lia). nia.
    + intros Hlt. rewrite Hp. apply times_100_sign.
      apply (sub_between 0x1p-21 0x1.fffffp-1 1 1);
        [vm_compute; reflexivity | vm_compute; reflexivity | | split; reflexivity].
      apply div_between; try assumption; try reflexivity.
      rewrite Vf, Vt. change (V 0x1.fffffp-1) with ((2 ^ 21 - 1) * 2 ^ 1053)%Z.
      change (2 ^ 1074)%Z with (2 ^ 21 * 2 ^ 1053)%Z.
      assert (0 < 2 ^ 1053)%Z by (apply Z.pow_pos_nonneg; lia). nia.
    + intros ->. rewrite Hp, Et, <- Ef.
      rewrite div_self; [reflexivity | | rewrite isFinite_fin; exact Ff].
      apply positive_truthy. rewrite ltb_V by (first [reflexivity | exact Ff]).
      change (V 0) with 0%Z. apply Z.ltb_lt. lia.
Qed.

Lemma percentage_has_the_sign_of_the_difference_witness :
  let it := sampleData "IT" "EUR" 98 (<["food" := 90]> ∅) in
  let de := sampleData "DE" "EUR" 106 (<["food" := 99]> ∅) in
  let food := {| id := "food"; cat_name := "Food" |} in
  (0 <? percentageDiff (priceLevelEntry it de food)) = true
  /\ (percentageDiff (priceLevelEntry de it food) <? 0) = true.
Proof.
  intros it de food. split.
  - apply (proj1 (proj2 (proj2 (percentage_has_the_sign_of_the_difference it de food
                                  90 99 eq_refl eq_refl
                                  (conj eq_refl eq_refl) (conj eq_refl eq_refl)))
                          90%Z 99%Z ltac:(lia) ltac:(lia) eq_refl eq_refl)).
    lia.
  - reflexivity.
Defined.
